(** * [bread_returns_aggregator.py]: the scanning core and the window

    A shallow embedding of the pure helpers ([norm_text], [to_number],
    [is_date_sheet], [cell_top_left_of_merge], [read_cell],
    [find_table_anchors], [detect_store_columns], [data_row_end]), of
    [scan_workbook] and [rate], and of what the handlers of the window
    compute ([_fmt_num], the rows of the tables and of the exports, the
    lookup of the tables among the widgets, the checks of [start_scan],
    the progress bar), followed by the notions the statements use and by
    the properties of the code.

    Conventions of the embedding.
    - A Python [str] is a list of Unicode code points.
    - A Python [float] is the rational number it denotes: binary64
      rounding, infinities and NaN are outside the model.  The one place
      where the limited range of a float changes control flow,
      [float(int)] raising [OverflowError], is modelled.
    - A cell value is absent, a number (an [int] or a [float]) or text,
      as the specification's workbook reader delivers it.
    - Exceptions and the cell reads a computation requests are explicit:
      a computation yields the list of events it caused and either a value
      or the exception that ended it. *)

From Stdlib Require Import ZArith QArith List Lia String Ascii DecimalString DecimalPos.
From stdpp Require Import gmap list sorting.

Local Open Scope Z_scope.

(** ** Text *)

Abbreviation str := (list Z).

(** Decoding of the UTF-8 bytes of a literal into code points, so that the
    constants below can be written as the source writes them. *)
Fixpoint utf8 (pending : Z) (need : nat) (bs : list Z) : str :=
  match bs with
  | [] => []
  | b :: t =>
      match need with
      | O => if b <? 128 then b :: utf8 0 0 t
             else if b <? 224 then utf8 (b - 192) 1 t
             else if b <? 240 then utf8 (b - 224) 2 t
             else utf8 (b - 240) 3 t
      | S O => (pending * 64 + (b - 128)) :: utf8 0 0 t
      | S n => utf8 (pending * 64 + (b - 128)) n t
      end
  end.

Definition text (s : string) : str :=
  utf8 0 0 (map (fun a => Z.of_nat (nat_of_ascii a)) (list_ascii_of_string s)).

(** The configuration constants, lines 44-48 of the source. *)
Definition MAX_ROWS : Z := 320.
Definition MAX_COLS : Z := 25.
Definition ANCHOR_TEXT : str := Eval vm_compute in text "вид хлеба".
Definition SUB_PKA : str := Eval vm_compute in text "п-ка".
Definition SUB_VAT : str := Eval vm_compute in text "в-ат".
Definition UNNAMED : str := Eval vm_compute in text "(без названия)".

(** The parts of the Python runtime that are tables of the Unicode
    database, or the float printer: they are parameters of the
    development.  [decimal] is the digit value of the characters [\d]
    matches (category Nd); the two laws say that among the ASCII
    characters the decimal digits are exactly '0'..'9'. *)
Class Runtime := {
  nfkc : str -> str;
  lower : str -> str;
  decimal : Z -> option Z;
  repr_float : Q -> str;
  decimal_ascii : forall c, 48 <= c <= 57 -> decimal c = Some (c - 48);
  decimal_ascii_only : forall c, 0 <= c < 128 -> is_Some (decimal c) -> 48 <= c <= 57;
  decimal_range : forall c d, decimal c = Some d -> 0 <= d <= 9
}.

(** [str.isspace] of one character, which is also what [\s] matches in a
    [str] pattern and what [str.strip()] removes. *)
Definition is_space (c : Z) : bool :=
  ((9 <=? c) && (c <=? 13)) || ((28 <=? c) && (c <=? 32))
  || (c =? 0x85) || (c =? 0xA0) || (c =? 0x1680)
  || ((0x2000 <=? c) && (c <=? 0x200A))
  || (c =? 0x2028) || (c =? 0x2029) || (c =? 0x202F) || (c =? 0x205F)
  || (c =? 0x3000).

Fixpoint lstrip (s : str) : str :=
  match s with
  | c :: t => if is_space c then lstrip t else s
  | [] => []
  end.

Definition strip (s : str) : str := rev (lstrip (rev (lstrip s))).

(** [s.replace(a, b)] for one-character [a] and [b]. *)
Definition replace (a b : Z) (s : str) : str :=
  map (fun c => if c =? a then b else c) s.

(** [re.sub(r"\s+", " ", s)]: every maximal run of white space becomes one
    space; [in_run] tells that the previous character was white space. *)
Fixpoint sub_ws (in_run : bool) (s : str) : str :=
  match s with
  | [] => []
  | c :: t =>
      if is_space c then (if in_run then sub_ws true t else 32 :: sub_ws true t)
      else c :: sub_ws false t
  end.

(** ** Cell values *)

Inductive value :=
| VNone
| VInt (z : Z)
| VFloat (x : Q)
| VStr (s : str).

(** [str(int)]. *)
Definition repr_int (z : Z) : str := text (NilZero.string_of_int (Z.to_int z)).

Section Text.
Context `{U : Runtime}.

(** [str(v)]. *)
Definition str_of (v : value) : str :=
  match v with
  | VNone => text "None"
  | VInt z => repr_int z
  | VFloat x => repr_float x
  | VStr s => s
  end.

(** The truth value of a cell value, as in [if name_raw]. *)
Definition truthy (v : value) : bool :=
  match v with
  | VNone => false
  | VInt z => negb (z =? 0)
  | VFloat x => negb (Qnum x =? 0)
  | VStr s => negb (bool_decide (s = []))
  end.

(** [norm_text], lines 60-68. *)
Definition norm_text (v : value) : str :=
  match v with
  | VNone => []
  | _ =>
      let s := str_of v in
      let s := nfkc s in
      let s := replace 0x2014 45 (replace 0x2013 45 (replace 0x2011 45 s)) in
      lower (strip (sub_ws false s))
  end.

(** [str(x).strip() if x else ""], the display form of a header or driver
    cell (lines 126 and 185). *)
Definition display (v : value) : str :=
  if truthy v then strip (str_of v) else [].

End Text.

(** ** Outcomes *)

Inductive exn := ValueError | OverflowError | KeyError | AttributeError.

Inductive outcome (A : Type) :=
| Ok (a : A)
| Raise (e : exn).
Arguments Ok {A} a.
Arguments Raise {A} e.

(** ** Regular expressions

    The patterns of the source (and the pattern [strptime] builds from a
    format) use literals, character classes, concatenation, alternation,
    a greedy optional group and the greedy repetition of a class.  [run r
    s] lists, in the order a backtracking matcher tries them, the suffixes
    of [s] that can remain after a match of [r] at the start of [s]. *)

Inductive regex :=
| Chr (c : Z)
| Cls (p : Z -> bool)
| Cat (r1 r2 : regex)
| Alt (r1 r2 : regex)
| Opt (r : regex)
| Many1 (p : Z -> bool).

Fixpoint many1 (p : Z -> bool) (s : str) : list str :=
  match s with
  | c :: t => if p c then many1 p t ++ [t] else []
  | [] => []
  end.

Fixpoint run (r : regex) (s : str) : list str :=
  match r with
  | Chr c => match s with x :: t => if x =? c then [t] else [] | [] => [] end
  | Cls p => match s with x :: t => if p x then [t] else [] | [] => [] end
  | Cat r1 r2 => flat_map (run r2) (run r1 s)
  | Alt r1 r2 => run r1 s ++ run r2 s
  | Opt r1 => run r1 s ++ [s]
  | Many1 p => many1 p s
  end.

(** The text a match consumed, given what was left. *)
Definition consumed (s rest : str) : str := take (length s - length rest) s.

(** [re.fullmatch(r, s)] as a truth value. *)
Definition re_fullmatch (r : regex) (s : str) : bool :=
  existsb (fun rest => bool_decide (rest = [])) (run r s).

(** [re.search(r, s)]: [m.group(0)] of the first match, the start positions
    being tried from left to right. *)
Fixpoint re_search (r : regex) (s : str) : option str :=
  match run r s with
  | rest :: _ => Some (consumed s rest)
  | [] => match s with
          | [] => None
          | _ :: t => re_search r t
          end
  end.

Definition in_range (lo hi : Z) (c : Z) : bool := (lo <=? c) && (c <=? hi).

(** ** Numbers *)

(** [float(z)] for an [int]: CPython rounds to nearest, ties to even, and
    raises [OverflowError] when the result would be 2^1024 or more. *)
Definition FLOAT_INT_LIMIT : Z := 2 ^ 1024 - 2 ^ 970.

Definition float_of_int (z : Z) : outcome Q :=
  if Z.abs z <? FLOAT_INT_LIMIT then Ok (inject_Z z) else Raise OverflowError.

Fixpoint split_dot (s : str) : str * option str :=
  match s with
  | [] => ([], None)
  | c :: t =>
      if c =? 46 then ([], Some t)
      else let '(a, b) := split_dot t in (c :: a, b)
  end.

Section Numbers.
Context `{U : Runtime}.

Definition is_digit (c : Z) : bool := bool_decide (is_Some (decimal c)).

(** The value of a digit string read in base ten, most significant digit
    first, continuing from [acc]. *)
Fixpoint int_of_digits (acc : Z) (s : str) : option Z :=
  match s with
  | [] => Some acc
  | c :: t =>
      match decimal c with
      | Some d => int_of_digits (10 * acc + d) t
      | None => None
      end
  end.

(** [int(s)] for a non-empty digit string. *)
Definition int_of_str (s : str) : outcome Z :=
  match s, int_of_digits 0 s with
  | _ :: _, Some n => Ok n
  | _, _ => Raise ValueError
  end.

(** [float(s)] for text: an optional sign, digits, and optionally a point
    and digits, with a digit on at least one side of the point.  The
    other spellings [float] accepts (exponents, "inf", "nan", underscores,
    surrounding white space) are not modelled: the model raises there. *)
Definition float_of_body (neg : bool) (body : str) : outcome Q :=
  let '(ip, fp) := split_dot body in
  let fd := default [] fp in
  match ip ++ fd, int_of_digits 0 ip, int_of_digits 0 fd with
  | _ :: _, Some n, Some f =>
      let k := 10 ^ Z.of_nat (length fd) in
      let x := Qred ((n * k + f) # Z.to_pos k) in
      Ok (if neg then Qopp x else x)
  | _, _, _ => Raise ValueError
  end.

Definition float_of_str (s : str) : outcome Q :=
  match s with
  | c :: t =>
      if c =? 45 then float_of_body true t
      else if c =? 43 then float_of_body false t
      else float_of_body false s
  | [] => float_of_body false s
  end.

(** The pattern [-?\d+(?:\.\d+)?] of line 78. *)
Definition NUMBER : regex :=
  Cat (Opt (Chr 45))
      (Cat (Many1 is_digit) (Opt (Cat (Chr 46) (Many1 is_digit)))).

(** [to_number], lines 71-79. *)
Definition to_number (v : value) : outcome Q :=
  match v with
  | VNone => Ok 0%Q
  | VInt z => float_of_int z
  | VFloat x => Ok x
  | VStr _ =>
      let s := replace 44 46 (strip (str_of v)) in
      match re_search NUMBER s with
      | Some m => float_of_str m
      | None => Ok 0%Q
      end
  end.

End Numbers.

(** ** Dates *)

(** A [datetime] at midnight, which is all [strptime] with the format
    [%d.%m.%Y] produces. *)
Record datetime := { year : Z; month : Z; day : Z }.

Definition is_leap (y : Z) : bool :=
  (y mod 4 =? 0) && (negb (y mod 100 =? 0) || (y mod 400 =? 0)).

Definition days_in_month (y m : Z) : Z :=
  if m =? 2 then (if is_leap y then 29 else 28)
  else if (m =? 4) || (m =? 6) || (m =? 9) || (m =? 11) then 30
  else 31.

Definition valid_date (y m d : Z) : bool :=
  (1 <=? y) && (y <=? 9999) && (1 <=? m) && (m <=? 12)
  && (1 <=? d) && (d <=? days_in_month y m).

(** The constructor [datetime(y, m, d)]. *)
Definition make_datetime (y m d : Z) : outcome datetime :=
  if valid_date y m d then Ok {| year := y; month := m; day := d |}
  else Raise ValueError.

(** [a <= b] on datetimes. *)
Definition datetime_le (a b : datetime) : bool :=
  (year a <? year b)
  || ((year a =? year b)
      && ((month a <? month b)
          || ((month a =? month b) && (day a <=? day b)))).

Section Dates.
Context `{U : Runtime}.

(** [\d{2}\.\d{2}\.\d{4}], line 84. *)
Definition DATE_SHAPE : regex :=
  let d := Cls is_digit in
  Cat d (Cat d (Cat (Chr 46) (Cat d (Cat d (Cat (Chr 46)
    (Cat d (Cat d (Cat d d)))))))).

(** The patterns [_strptime] substitutes for [%d], [%m] and [%Y]:
    [3[0-1]|[1-2]\d|0[1-9]|[1-9]| [1-9]], [1[0-2]|0[1-9]|[1-9]] and
    [\d\d\d\d]. *)
Definition RE_d : regex :=
  Alt (Cat (Chr 51) (Cls (in_range 48 49)))
 (Alt (Cat (Cls (in_range 49 50)) (Cls is_digit))
 (Alt (Cat (Chr 48) (Cls (in_range 49 57)))
 (Alt (Cls (in_range 49 57))
      (Cat (Chr 32) (Cls (in_range 49 57)))))).

Definition RE_m : regex :=
  Alt (Cat (Chr 49) (Cls (in_range 48 50)))
 (Alt (Cat (Chr 48) (Cls (in_range 49 57)))
      (Cls (in_range 49 57))).

Definition RE_Y : regex :=
  Cat (Cls is_digit) (Cat (Cls is_digit) (Cat (Cls is_digit) (Cls is_digit))).

(** The matches of [(?P<d>..)\.(?P<m>..)\.(?P<Y>..)] at the start of [s],
    in the matcher's order: the three groups and what is left. *)
Definition strptime_matches (s : str) : list (str * str * str * str) :=
  flat_map (fun r1 =>
  flat_map (fun r2 =>
  flat_map (fun r3 =>
  flat_map (fun r4 =>
  map (fun r5 => (consumed s r1, consumed r2 r3, consumed r4 r5, r5))
      (run RE_Y r4))
    (run (Chr 46) r3))
    (run RE_m r2))
    (run (Chr 46) r1))
    (run RE_d s).

(** [datetime.strptime(s, "%d.%m.%Y")]: the first match decides; text left
    over, or a date that does not exist, is a [ValueError]. *)
Definition strptime (s : str) : outcome datetime :=
  match strptime_matches s with
  | [] => Raise ValueError
  | (d, m, y, rest) :: _ =>
      match rest, int_of_str y, int_of_str m, int_of_str d with
      | [], Ok y, Ok m, Ok d => make_datetime y m d
      | _, _, _, _ => Raise ValueError
      end
  end.

(** [is_date_sheet], lines 82-89. *)
Definition is_date_sheet (name : str) : option datetime :=
  if re_fullmatch DATE_SHAPE name then
    match strptime name with
    | Ok dt => Some dt
    | Raise _ => None
    end
  else None.

End Dates.

(** ** Worksheets *)

(** A merged range, as [openpyxl] keeps it. *)
Record CellRange := { min_row : Z; min_col : Z; max_row : Z; max_col : Z }.

(** What the scan uses of a worksheet: its title, the stored cells (a cell
    that is not stored reads as [None]), [ws.merged_cells.ranges] in
    iteration order, and the dimensions [ws.max_row], [ws.max_column]. *)
Record Worksheet := {
  title : str;
  cells : gmap (Z * Z) value;
  merged : list CellRange;
  ws_max_row : Z;
  ws_max_column : Z
}.

(** ** Computations: events and exceptions *)

Inductive event :=
| CellRead (sheet : str) (row col : Z)
| LogScanning (total : nat)
| LogFound (sheet : str) (tables : nat) (last_row last_col : Z)
| Progress (done total : nat).

Definition M (A : Type) : Type := list event * outcome A.

Definition ret {A} (a : A) : M A := ([], Ok a).

Definition bind {A B} (m : M A) (f : A -> M B) : M B :=
  match m with
  | (l, Ok a) => let '(l', r) := f a in (l ++ l', r)
  | (l, Raise e) => (l, Raise e)
  end.

Notation "x <- m ;; k" := (bind m (fun x => k))
  (at level 62, m at next level, right associativity, only parsing).

Definition lift {A} (o : outcome A) : M A := ([], o).

Definition emit (e : event) : M unit := ([e], Ok tt).

Definition events {A} (m : M A) : list event := fst m.
Definition result {A} (m : M A) : outcome A := snd m.

(** [for x in xs: s = body(x, s)]. *)
Fixpoint for_ {A S} (xs : list A) (body : A -> S -> M S) (s : S) : M S :=
  match xs with
  | [] => ret s
  | x :: t => s' <- body x s ;; for_ t body s'
  end.

(** [range(a, b)]. *)
Definition range (a b : Z) : list Z := seqZ a (b - a).

(** [ws.cell(row, col).value]: [openpyxl] raises [ValueError] for a row or
    column below 1. *)
Definition cell_value (ws : Worksheet) (row col : Z) : M value :=
  ([CellRead (title ws) row col],
   if (row <? 1) || (col <? 1) then Raise ValueError
   else Ok (default VNone (cells ws !! (row, col)))).

(** ** Merged cells *)

Definition contains (mr : CellRange) (row col : Z) : bool :=
  (min_row mr <=? row) && (row <=? max_row mr)
  && (min_col mr <=? col) && (col <=? max_col mr).

(** The loop of [cell_top_left_of_merge] over the ranges. *)
Fixpoint top_left (ranges : list CellRange) (row col : Z) : Z * Z :=
  match ranges with
  | mr :: rest =>
      if contains mr row col then (min_row mr, min_col mr)
      else top_left rest row col
  | [] => (row, col)
  end.

(** [cell_top_left_of_merge], lines 92-97. *)
Definition cell_top_left_of_merge (ws : Worksheet) (row col : Z) : Z * Z :=
  top_left (merged ws) row col.

(** [read_cell], lines 100-103. *)
Definition read_cell (ws : Worksheet) (row col : Z) : M value :=
  let '(r0, c0) := cell_top_left_of_merge ws row col in
  cell_value ws r0 c0.

(** ** Tables *)

Record StoreCols := { name : str; pka_col : Z; vat_col : Z }.

Section Tables.
Context `{U : Runtime}.

(** [find_table_anchors], lines 106-113. *)
Definition find_table_anchors (ws : Worksheet) (last_row last_col : Z)
  : M (list (Z * Z)) :=
  for_ (range 1 (last_row + 1)) (fun r anchors =>
    for_ (range 1 (last_col + 1)) (fun c anchors =>
      v <- read_cell ws r c ;;
      if bool_decide (norm_text v = ANCHOR_TEXT)
      then ret (anchors ++ [(r, c)])
      else ret anchors) anchors) [].

(** The [while] loop of [detect_store_columns].  Every iteration moves [c]
    to the right, so [last_col - c] iterations suffice; [fuel] counts
    them. *)
Fixpoint detect_loop (fuel : nat) (ws : Worksheet) (hdr_row sub_row last_col c : Z)
    (stores : list StoreCols) : M (list StoreCols) :=
  match fuel with
  | O => ret stores
  | S fuel =>
      if c <=? last_col - 1 then
        pka <- read_cell ws sub_row c ;;
        vat <- read_cell ws sub_row (c + 1) ;;
        if bool_decide (norm_text pka = SUB_PKA) && bool_decide (norm_text vat = SUB_VAT)
        then
          name_raw <- read_cell ws hdr_row c ;;
          let pretty := display name_raw in
          let st := {| name := if bool_decide (pretty = []) then UNNAMED else pretty;
                       pka_col := c; vat_col := c + 1 |} in
          detect_loop fuel ws hdr_row sub_row last_col (c + 3) (stores ++ [st])
        else
          detect_loop fuel ws hdr_row sub_row last_col (c + 1) stores
      else ret stores
  end.

(** [detect_store_columns], lines 116-131. *)
Definition detect_store_columns (ws : Worksheet) (hdr_row sub_row start_col last_col : Z)
  : M (list StoreCols) :=
  detect_loop (Z.to_nat (last_col - start_col)) ws hdr_row sub_row last_col start_col [].

(** The [while] loop of [data_row_end]; at most [last_row + 1 - r]
    iterations. *)
Fixpoint data_row_loop (fuel : nat) (ws : Worksheet) (bread_col last_row r blank : Z)
  : M Z :=
  match fuel with
  | O => ret (r - blank - 1)
  | S fuel =>
      if r <=? last_row then
        v <- read_cell ws r bread_col ;;
        if bool_decide (norm_text v = []) then
          let blank := blank + 1 in
          if 2 <=? blank then ret (r - blank - 1)
          else data_row_loop fuel ws bread_col last_row (r + 1) blank
        else
          data_row_loop fuel ws bread_col last_row (r + 1) 0
      else ret (r - blank - 1)
  end.

(** [data_row_end], lines 134-149. *)
Definition data_row_end (ws : Worksheet) (bread_col start_row last_row : Z) : M Z :=
  data_row_loop (Z.to_nat (last_row + 1 - start_row)) ws bread_col last_row start_row 0.

End Tables.

(** ** Totals *)

(** The inner dictionary [{"brought": .., "returned": ..}]. *)
Record totals := { brought : Q; returned : Q }.

Definition zero_totals : totals := {| brought := 0; returned := 0 |}.

(** [m[k]["brought"] += x] and [m[k]["returned"] += x] on a [defaultdict]:
    a missing key is first entered with zero totals. *)
Definition add_brought (m : gmap str totals) (k : str) (x : Q) : gmap str totals :=
  let t := default zero_totals (m !! k) in
  <[k := {| brought := (brought t + x)%Q; returned := returned t |}]> m.

Definition add_returned (m : gmap str totals) (k : str) (x : Q) : gmap str totals :=
  let t := default zero_totals (m !! k) in
  <[k := {| brought := brought t; returned := (returned t + x)%Q |}]> m.

(** The dictionary [meta] without the path of the file. *)
Record scan_meta := {
  sheets_scanned : nat;
  meta_from : datetime;
  meta_to : datetime;
  meta_max_rows : Z;
  meta_max_cols : Z
}.

(** [wb[name]]. *)
Definition wb_getitem (wb : list Worksheet) (sheet : str) : outcome Worksheet :=
  match List.find (fun ws => bool_decide (title ws = sheet)) wb with
  | Some ws => Ok ws
  | None => Raise KeyError
  end.

Section Scan.
Context `{U : Runtime}.

(** The body of the two summation loops, lines 206-216. *)
Definition sum_cell (ws : Worksheet) (has_driver : bool) (driver_display : str)
    (r : Z) (st : StoreCols) (acc : gmap str totals * gmap str totals)
  : M (gmap str totals * gmap str totals) :=
  let '(stores_totals, drivers_totals) := acc in
  vb <- read_cell ws r (pka_col st) ;;
  b <- lift (to_number vb) ;;
  vr <- read_cell ws r (vat_col st) ;;
  rv <- lift (to_number vr) ;;
  let stores_totals := add_brought stores_totals (name st) b in
  let stores_totals := add_returned stores_totals (name st) rv in
  if has_driver then
    let drivers_totals := add_brought drivers_totals driver_display b in
    let drivers_totals := add_returned drivers_totals driver_display rv in
    ret (stores_totals, drivers_totals)
  else ret (stores_totals, drivers_totals).

(** The two nested loops, lines 204-216. *)
Definition sum_rows (ws : Worksheet) (has_driver : bool) (driver_display : str)
    (stores : list StoreCols) (data_start data_end : Z)
    (acc : gmap str totals * gmap str totals)
  : M (gmap str totals * gmap str totals) :=
  for_ (range data_start (data_end + 1)) (fun r acc =>
    for_ stores (sum_cell ws has_driver driver_display r) acc) acc.

(** The body of the loop over the anchors, lines 182-216. *)
Definition scan_table (ws : Worksheet) (last_row last_col : Z) (anchor : Z * Z)
    (acc : gmap str totals * gmap str totals)
  : M (gmap str totals * gmap str totals) :=
  let '(anchor_row, anchor_col) := anchor in
  driver_raw <- read_cell ws (anchor_row - 1) anchor_col ;;
  let driver_display := display driver_raw in
  let has_driver := negb (bool_decide (norm_text driver_raw = [])) in
  let hdr_row := anchor_row - 1 in
  let sub_row := anchor_row in
  let data_start := anchor_row + 1 in
  let bread_col := anchor_col in
  let first_store_col := anchor_col + 2 in
  stores <- detect_store_columns ws hdr_row sub_row first_store_col last_col ;;
  if bool_decide (stores = []) then ret acc
  else
    data_end <- data_row_end ws bread_col data_start last_row ;;
    if data_end <? data_start then ret acc
    else sum_rows ws has_driver driver_display stores data_start data_end acc.

(** [x or y] for an integer [x]. *)
Definition int_or (x y : Z) : Z := if x =? 0 then y else x.

(** [get_column_letter(idx)] of [openpyxl], as far as the scan depends on
    it: the letters are looked up in a table of the columns 1 to 18278,
    and an index outside it is a [ValueError].  The letters themselves go
    into a log line only. *)
Definition get_column_letter (idx : Z) : outcome unit :=
  if (1 <=? idx) && (idx <=? 18278) then Ok tt else Raise ValueError.

(** The body of the loop over the sheets without its bookkeeping, lines
    172-216. *)
Definition scan_sheet (ws : Worksheet) (max_rows max_cols : Z)
    (acc : gmap str totals * gmap str totals)
  : M (gmap str totals * gmap str totals) :=
  let last_row := Z.min (int_or (ws_max_row ws) max_rows) max_rows in
  let last_col := Z.min (int_or (ws_max_column ws) max_cols) max_cols in
  anchors <- find_table_anchors ws last_row last_col ;;
  _ <- lift (get_column_letter last_col) ;;
  _ <- emit (LogFound (title ws) (length anchors) last_row last_col) ;;
  for_ anchors (scan_table ws last_row last_col) acc.

(** The condition of the comprehension of line 165. *)
Definition in_date_range (date_from date_to : datetime) (sheet : str) : bool :=
  match is_date_sheet sheet with
  | Some dt => datetime_le date_from dt && datetime_le dt date_to
  | None => false
  end.

(** The body of the loop over the selected sheets, lines 171-220. *)
Definition sheet_step (wb : list Worksheet) (max_rows max_cols : Z) (total : nat)
    (sheet : str) (st : gmap str totals * gmap str totals * nat)
  : M (gmap str totals * gmap str totals * nat) :=
  let '(acc, done) := st in
  ws <- lift (wb_getitem wb sheet) ;;
  acc <- scan_sheet ws max_rows max_cols acc ;;
  let done := S done in
  _ <- emit (Progress done total) ;;
  ret (acc, done).

(** [scan_workbook], lines 152-230, from the loaded workbook on; the two
    callbacks are taken to be supplied, their calls are events. *)
Definition scan_workbook (wb : list Worksheet) (date_from date_to : datetime)
    (max_rows max_cols : Z)
  : M (gmap str totals * gmap str totals * scan_meta) :=
  let sheets := List.filter (in_date_range date_from date_to) (map title wb) in
  let total := length sheets in
  _ <- emit (LogScanning total) ;;
  st <- for_ sheets (sheet_step wb max_rows max_cols total) ((∅, ∅), O) ;;
  let '((stores_totals, drivers_totals), _) := st in
  ret (stores_totals, drivers_totals,
       {| sheets_scanned := total; meta_from := date_from; meta_to := date_to;
          meta_max_rows := max_rows; meta_max_cols := max_cols |}).

(** [rate], lines 233-234. *)
Definition rate (returned brought : Q) : Q :=
  if Qlt_le_dec 0 brought then (returned / brought * 100)%Q else 0%Q.

End Scan.

(** * The window

    What the handlers of [BreadGUI] compute: the texts of the numbers and
    of the dates, the rows of the tables and of the exported files, the
    checks before a scan and the progress bar.  Of the widgets, their
    classes and masters are modelled, which is what the lookup of the two
    tables depends on; what a handler shows or writes is a list of
    events. *)

(** ** Dates as text *)

(** [n] in decimal, in [p] digits with leading zeros, as the [%d] and [%m]
    of [strftime] and the fraction of a fixed-point format print it
    ([n] from 0 to 10^p - 1). *)
Fixpoint zero_padded (p : nat) (n : Z) : str :=
  match p with
  | O => []
  | S p' => zero_padded p' (n / 10) ++ [48 + n mod 10]
  end.

(** [dt.strftime("%d.%m.%Y")], lines 225-226.  The C library prints the
    year; a year of four digits is printed as it is everywhere, an earlier
    one without padding by glibc. *)
Definition strftime (dt : datetime) : str :=
  zero_padded 2 (day dt) ++ [46] ++ zero_padded 2 (month dt) ++ [46]
  ++ (if 1000 <=? year dt then zero_padded 4 (year dt) else repr_int (year dt)).

(** ** The window: numbers as text *)

(** [x.is_integer()] and [int(x)], which truncates. *)
Definition is_integer (x : Q) : bool := Qnum x mod Zpos (Qden x) =? 0.

Definition int_of_float (x : Q) : Z := Z.quot (Qnum x) (Zpos (Qden x)).

(** The integer nearest to [x], the even one of two that are equally
    near: the rounding of [round] and of the fixed-point format. *)
Definition round_half_even (x : Q) : Z :=
  let d := Zpos (Qden x) in
  let q := Qnum x / d in
  let r := Qnum x mod d in
  if 2 * r <? d then q
  else if d <? 2 * r then q + 1
  else if Z.even q then q else q + 1.

(** [x] in tenths, hundredths, ... ([p] digits) rounded to a whole
    number. *)
Definition scaled (p : nat) (x : Q) : Z :=
  round_half_even ((Z.abs (Qnum x) * 10 ^ Z.of_nat p) # Qden x).

(** [format(x, ".pf")] for a finite [x]: a minus sign for a negative
    number (also when it rounds to zero), the integer part, and after a
    full stop [p] digits. *)
Definition format_fixed (p : nat) (x : Q) : str :=
  let k := 10 ^ Z.of_nat p in
  let n := scaled p x in
  (if Qnum x <? 0 then [45] else [])
  ++ repr_int (n / k)
  ++ match p with O => [] | _ => 46 :: zero_padded p (n mod k) end.

(** [round(x, p)]: [x] rounded to [p] decimals, ties to even. *)
Definition round_ndigits (p : nat) (x : Q) : Q :=
  let y := Qred (scaled p x # Z.to_pos (10 ^ Z.of_nat p)) in
  if Qnum x <? 0 then Qopp y else y.

(** A format specification, as [float.__format__] parses it:
    [[[fill]align][sign][z][#][0][width][grouping][.precision][type]]. *)
Record format_spec := {
  fmt_fill : option Z;
  fmt_align : option Z;
  fmt_sign : option Z;
  fmt_no_neg_0 : bool;
  fmt_alternate : bool;
  fmt_zero : bool;
  fmt_width : option Z;
  fmt_grouping : option Z;
  fmt_precision : option Z;
  fmt_type : option Z
}.

(** The specification [.pf]. *)
Definition fixed_spec (p : Z) : format_spec :=
  {| fmt_fill := None; fmt_align := None; fmt_sign := None; fmt_no_neg_0 := false;
     fmt_alternate := false; fmt_zero := false; fmt_width := None;
     fmt_grouping := None; fmt_precision := Some p; fmt_type := Some 102 |}.

(** How a float is rendered under a parsed specification is a parameter,
    but for the specifications [.pf], which are the valid ones the source
    uses. *)
Class FloatFormat := {
  render : format_spec -> Q -> str;
  render_fixed : forall p x, 0 <= p -> render (fixed_spec p) x = format_fixed (Z.to_nat p) x
}.

(** '<', '>', '=', '^' and '+', '-', ' '. *)
Definition is_align (c : Z) : bool := (c =? 60) || (c =? 62) || (c =? 61) || (c =? 94).

Definition is_sign (c : Z) : bool := (c =? 43) || (c =? 45) || (c =? 32).

(** The types a float accepts: e, E, f, F, g, G, n, %. *)
Definition is_float_type (c : Z) : bool :=
  (c =? 101) || (c =? 69) || (c =? 102) || (c =? 70) || (c =? 103) || (c =? 71)
  || (c =? 110) || (c =? 37).

(** One optional character of the class [p]. *)
Definition take_if (p : Z -> bool) (s : str) : option Z * str :=
  match s with
  | c :: t => if p c then (Some c, t) else (None, s)
  | [] => (None, s)
  end.

(** A width or a precision beyond what the formatter can hold. *)
Definition too_big (limit : Z) (n : option Z) : bool :=
  match n with
  | Some n => limit <=? n
  | None => false
  end.

Section FormatSpec.
Context `{U : Runtime}.

(** The decimal digits at the start of [s], read as a number; none when
    [s] starts with no digit. *)
Fixpoint get_integer (acc : option Z) (s : str) : option Z * str :=
  match s with
  | c :: t =>
      match decimal c with
      | Some d => get_integer (Some (10 * default 0 acc + d)) t
      | None => (acc, s)
      end
  | [] => (acc, s)
  end.

(** The parser of format specifications.  The first character is a fill
    character only when the second is an alignment; what is left after
    the precision must be at most one character, the type. *)
Definition parse_format_spec (spec : str) : outcome format_spec :=
  let '(fill, align, s) :=
    match spec with
    | f :: a :: t =>
        if is_align a then (Some f, Some a, t)
        else if is_align f then (None, Some f, a :: t)
        else (None, None, spec)
    | [a] => if is_align a then (None, Some a, []) else (None, None, spec)
    | [] => (None, None, [])
    end in
  let '(sign, s) := take_if is_sign s in
  let '(z, s) := take_if (Z.eqb 122) s in
  let '(alt, s) := take_if (Z.eqb 35) s in
  let '(zero, s) :=
    match fill with
    | None => take_if (Z.eqb 48) s
    | Some _ => (None, s)
    end in
  let '(width, s) := get_integer None s in
  let '(comma, s) := take_if (Z.eqb 44) s in
  let '(underscore, s) := take_if (Z.eqb 95) s in
  let '(comma', _) := take_if (Z.eqb 44) s in
  if bool_decide (is_Some underscore) && bool_decide (is_Some comma \/ is_Some comma')
  then Raise ValueError
  else if too_big (2 ^ 63) width then Raise ValueError
  else
    let '(dot, s) := take_if (Z.eqb 46) s in
    let '(precision, s) :=
      match dot with
      | Some _ => get_integer None s
      | None => (None, s)
      end in
    if bool_decide (is_Some dot) && bool_decide (precision = None) then Raise ValueError
    else if too_big (2 ^ 31) precision then Raise ValueError
    else
      match s with
      | _ :: _ :: _ => Raise ValueError
      | _ =>
          Ok {| fmt_fill := fill; fmt_align := align; fmt_sign := sign;
                fmt_no_neg_0 := bool_decide (is_Some z);
                fmt_alternate := bool_decide (is_Some alt);
                fmt_zero := bool_decide (is_Some zero);
                fmt_width := width;
                fmt_grouping := match underscore with Some c => Some c | None => comma end;
                fmt_precision := precision; fmt_type := head s |}
      end.

Context `{F : FloatFormat}.

(** [format(x, spec)] for a float [x]: a specification that does not
    parse, whose type is none of a float's, or that asks for a grouping
    with the type [n], is a [ValueError]. *)
Definition float_format (spec : str) (x : Q) : outcome str :=
  match parse_format_spec spec with
  | Raise e => Raise e
  | Ok fs =>
      match fmt_type fs with
      | Some c =>
          if is_float_type c && negb ((c =? 110) && bool_decide (is_Some (fmt_grouping fs)))
          then Ok (render fs x)
          else Raise ValueError
      | None => Ok (render fs x)
      end
  end.

(** [_fmt_num], lines 430-432. *)
Definition _fmt_num (x : Q) : outcome str :=
  if is_integer x then Ok (repr_int (int_of_float x))
  else float_format (text ".3f") x.

End FormatSpec.

(** ** The window: tables and exports *)

(** [a <= b] on strings: by code points, a proper prefix first. *)
Fixpoint str_leb (a b : str) : bool :=
  match a, b with
  | [], _ => true
  | _ :: _, [] => false
  | x :: a', y :: b' => (x <? y) || ((x =? y) && str_leb a' b')
  end.

Definition str_le (a b : str) : Prop := str_leb a b = true.

#[global] Instance str_le_dec : RelDecision str_le :=
  fun a b => decide (str_leb a b = true).

(** [sorted(m.keys())]. *)
Definition sorted_keys (m : gmap str totals) : list str :=
  merge_sort str_le (map fst (map_to_list m)).

(** What the window keeps of the last scan, lines 305-307. *)
Record window := {
  stores_totals : gmap str totals;
  drivers_totals : gmap str totals;
  last_meta : option scan_meta
}.

(** What a handler of the window does that can be seen from outside. *)
Inductive ui_event :=
| ShowInfo (title : string)
| ShowError (title : string)
| OpenFile (directory name : str)
| WriteRow (name : str) (row : list str)
| AppendRow (sheet : string) (row : list value)
| SaveWorkbook (path : str)
| LogLine (what : string).

Definition UI (A : Type) : Type := list ui_event * outcome A.

Definition ui_bind {A B} (m : UI A) (f : A -> UI B) : UI B :=
  match m with
  | (l, Ok a) => let '(l', r) := f a in (l ++ l', r)
  | (l, Raise e) => (l, Raise e)
  end.

Notation "x <~ m ;; k" := (ui_bind m (fun x => k))
  (at level 62, m at next level, right associativity, only parsing).

Definition ui_emit (e : ui_event) : UI unit := ([e], Ok tt).

(** [for k in keys: w.writerow(row(k))]: a row is written once its
    fields are computed. *)
Fixpoint write_rows (name : str) (rows : list (outcome (list str))) : UI unit :=
  match rows with
  | [] => ([], Ok tt)
  | Ok row :: rest => _ <~ ui_emit (WriteRow name row) ;; write_rows name rest
  | Raise e :: _ => ([], Raise e)
  end.

(** [s.replace(old, new)] for a non-empty [old]: the occurrences from
    left to right, without overlap. *)
Fixpoint starts_with (old s : str) : option str :=
  match old, s with
  | [], _ => Some s
  | a :: old', c :: s' => if a =? c then starts_with old' s' else None
  | _ :: _, [] => None
  end.

Fixpoint replace_text (fuel : nat) (old new s : str) : str :=
  match fuel, s with
  | S fuel', c :: t =>
      match starts_with old s with
      | Some rest => new ++ replace_text fuel' old new rest
      | None => c :: replace_text fuel' old new t
      end
  | _, _ => s
  end.

Section Rows.
Context `{U : Runtime} `{F : FloatFormat}.

(** The fields of a row of the two tables of the window, lines 417-428,
    and of the stores file, lines 451-454. *)
Definition table_row (m : gmap str totals) (k : str) : outcome (list str) :=
  let t := default zero_totals (m !! k) in
  match _fmt_num (brought t), _fmt_num (returned t),
        float_format (text ".2f") (rate (returned t) (brought t)) with
  | Ok b, Ok r, Ok pct => Ok [k; b; r; pct]
  | Raise e, _, _ | _, Raise e, _ | _, _, Raise e => Raise e
  end.

(** The fields of a row of the drivers file, lines 459-462. *)
Definition drivers_file_row (m : gmap str totals) (k : str) : outcome (list str) :=
  let t := default zero_totals (m !! k) in
  match _fmt_num (brought t), _fmt_num (returned t),
        float_format (text "* .2f") (rate (returned t) (brought t)) with
  | Ok b, Ok r, Ok pct =>
      Ok [k; b; r; replace_text (length pct) (text "* ") [] pct]
  | Raise e, _, _ | _, Raise e, _ | _, _, Raise e => Raise e
  end.

End Rows.

(** ** The window: widgets

    What the handlers depend on of Tk's widgets.  A widget is created
    with a class and a master and keeps both; [w.pack(in_=c)] makes [c]
    manage the geometry of [w] and changes neither.  [winfo_children]
    answers the widgets whose master the widget is, in the order of their
    creation.  The widgets of the application are numbered in that
    order. *)
Inductive widget_class :=
| Toplevel | Frame | Label | Entry | Button | Progressbar | Notebook
| Treeview | Scrollbar | Text.

Record widget := {
  w_class : widget_class;
  w_master : option nat;
  w_in : option nat
}.

(** [cls(master)]: the new widget and its number. *)
Definition create (tk : list widget) (cls : widget_class) (master : nat)
  : list widget * nat :=
  (tk ++ [{| w_class := cls; w_master := Some master; w_in := None |}], length tk).

(** Widgets of the classes [cs] created one after the other in [master]. *)
Definition creates (tk : list widget) (cs : list widget_class) (master : nat)
  : list widget :=
  foldl (fun tk cls => (create tk cls master).1) tk cs.

(** [w.pack(in_=container)]. *)
Definition pack_in (tk : list widget) (w container : nat) : list widget :=
  alter (fun x => {| w_class := w_class x; w_master := w_master x;
                     w_in := Some container |}) w tk.

(** [w.winfo_children()]. *)
Definition winfo_children (tk : list widget) (w : nat) : list nat :=
  List.filter (fun i => match tk !! i with
                        | Some x => bool_decide (w_master x = Some w)
                        | None => false
                        end) (seq 0 (length tk)).

(** [isinstance(ch, ttk.Treeview)]. *)
Definition is_treeview (tk : list widget) (ch : nat) : bool :=
  match tk !! ch with
  | Some {| w_class := Treeview |} => true
  | _ => false
  end.

(** [_make_tree], lines 312-324: the tree and its scrollbar are created
    in [parent], as the wrapper frame is, and packed into the wrapper. *)
Definition _make_tree (tk : list widget) (parent : nat) : list widget * nat :=
  let '(tk, tree) := create tk Treeview parent in
  let '(tk, vsb) := create tk Scrollbar parent in
  let '(tk, wrapper) := create tk Frame parent in
  let tk := pack_in tk tree wrapper in
  let tk := pack_in tk vsb wrapper in
  (tk, wrapper).

(** [_get_tree_widget], lines 326-331. *)
Definition _get_tree_widget (tk : list widget) (wrapper : nat) : option nat :=
  List.find (is_treeview tk) (winfo_children tk wrapper).

(** The widgets of the window and the two attributes [_populate_results]
    reads. *)
Record gui := {
  widgets : list widget;
  tree_stores : nat;
  tree_drivers : nat
}.

(** [__init__], lines 239-310, as far as it creates widgets: the controls
    in their frame, the buttons, the progress bar and the status, the
    notebook with its two tables, and the log. *)
Definition __init__ (tk : list widget) (root : nat) : gui :=
  let '(tk, frm) := create tk Frame root in
  let tk := creates tk [Label; Entry; Button; Label; Entry; Label; Entry;
                        Label; Entry; Label; Entry] frm in
  let '(tk, btns) := create tk Frame root in
  let tk := creates tk [Button; Button; Button] btns in
  let '(tk, prog) := create tk Frame root in
  let tk := creates tk [Progressbar; Label] prog in
  let '(tk, logf) := create tk Frame root in
  let '(tk, nb) := create tk Notebook logf in
  let '(tk, stores) := _make_tree tk nb in
  let '(tk, drivers) := _make_tree tk nb in
  let '(tk, log) := create tk Text logf in
  {| widgets := tk; tree_stores := stores; tree_drivers := drivers |}.

(** ** The window: handlers *)

Section Handlers.
Context `{U : Runtime} `{F : FloatFormat}.

(** [_populate_results], lines 408-428: the rows of the stores table and
    of the drivers table after the call.  The two tables are looked up in
    their wrappers first, and [t.get_children()] on a table that was not
    found, [None], is an [AttributeError]; the tables found are emptied
    and get one row for every key. *)
Definition _populate_results (g : gui) (w : window)
  : outcome (list (list str) * list (list str)) :=
  let rows m := foldr (fun k rest =>
                  match table_row m k, rest with
                  | Ok row, Ok rows => Ok (row :: rows)
                  | Raise e, _ | _, Raise e => Raise e
                  end) (Ok []) (sorted_keys m) in
  match _get_tree_widget (widgets g) (tree_stores g),
        _get_tree_widget (widgets g) (tree_drivers g) with
  | Some _, Some _ =>
      match rows (stores_totals w), rows (drivers_totals w) with
      | Ok rs, Ok rd => Ok (rs, rd)
      | Raise e, _ | _, Raise e => Raise e
      end
  | _, _ => Raise AttributeError
  end.

(** The names of the two files, lines 443-446. *)
Definition csv_suffix (w : window) : str :=
  match last_meta w with
  | Some meta => strftime (meta_from meta) ++ [95] ++ strftime (meta_to meta)
  | None => [95]
  end.

Definition stores_path (w : window) : str :=
  text "stores_summary_" ++ csv_suffix w ++ text ".csv".

Definition drivers_path (w : window) : str :=
  text "drivers_summary_" ++ csv_suffix w ++ text ".csv".

Definition stores_header : list str :=
  [text "Store"; text "Brought (П-ка)"; text "Returned (В-ат)"; text "Return rate %"].

Definition drivers_header : list str :=
  [text "Driver"; text "Brought (П-ка)"; text "Returned (В-ат)"; text "Return rate %"].

(** [export_csv], lines 435-465; [base] is what the directory dialog
    returned, the empty string when it was cancelled. *)
Definition export_csv (w : window) (base : str) : UI unit :=
  if bool_decide (stores_totals w = ∅) && bool_decide (drivers_totals w = ∅)
  then ui_emit (ShowInfo "Nothing to export")
  else if bool_decide (base = []) then ([], Ok tt)
  else
    _ <~ ui_emit (OpenFile base (stores_path w)) ;;
    _ <~ ui_emit (WriteRow (stores_path w) stores_header) ;;
    _ <~ write_rows (stores_path w)
           (map (table_row (stores_totals w)) (sorted_keys (stores_totals w))) ;;
    _ <~ ui_emit (OpenFile base (drivers_path w)) ;;
    _ <~ ui_emit (WriteRow (drivers_path w) drivers_header) ;;
    _ <~ write_rows (drivers_path w)
           (map (drivers_file_row (drivers_totals w)) (sorted_keys (drivers_totals w))) ;;
    _ <~ ui_emit (ShowInfo "CSV exported") ;;
    ui_emit (LogLine "CSV saved").

(** The cells of a row of the exported workbook, lines 489-497. *)
Definition excel_row (m : gmap str totals) (k : str) : list value :=
  let t := default zero_totals (m !! k) in
  [VStr k; VFloat (brought t); VFloat (returned t);
   VFloat (round_ndigits 2 (rate (returned t) (brought t)))].

Definition excel_header (first : string) : list value :=
  [VStr (text first); VStr (text "Brought (П-ка)"); VStr (text "Returned (В-ат)");
   VStr (text "Return rate %")].

(** [export_excel], lines 467-511; [fpath] is what the file dialog
    returned, the empty string when it was cancelled, and [saved] tells
    whether [wb.save] succeeded.  The frozen pane and the column widths of
    lines 499-503 fill no cell and are not part of the events. *)
Definition export_excel (w : window) (fpath : str) (saved : bool) : UI unit :=
  if bool_decide (stores_totals w = ∅) && bool_decide (drivers_totals w = ∅)
  then ui_emit (ShowInfo "Nothing to export")
  else if bool_decide (fpath = []) then ([], Ok tt)
  else
    _ <~ ui_emit (AppendRow "Stores" (excel_header "Store")) ;;
    _ <~ ui_emit (AppendRow "Drivers" (excel_header "Driver")) ;;
    _ <~ (map (fun k => AppendRow "Stores" (excel_row (stores_totals w) k))
            (sorted_keys (stores_totals w)), Ok tt) ;;
    _ <~ (map (fun k => AppendRow "Drivers" (excel_row (drivers_totals w) k))
            (sorted_keys (drivers_totals w)), Ok tt) ;;
    if saved then
      _ <~ ui_emit (SaveWorkbook fpath) ;;
      _ <~ ui_emit (ShowInfo "Excel exported") ;;
      ui_emit (LogLine "Excel saved")
    else
      _ <~ ui_emit (ShowError "Save failed") ;;
      ui_emit (LogLine "ERROR saving Excel").

End Handlers.

(** ** The window: scans *)

(** What [start_scan] does with what the user entered, lines 342-358: it
    shows an error, or goes on with these arguments, which the lines that
    follow log and start the scan with. *)
Inductive scan_request :=
| Refused (message : string)
| Scan (path : str) (date_from date_to : datetime) (max_rows max_cols : Z).

Section StartScan.
Context `{U : Runtime}.

Definition start_scan (path_var from_var to_var : str) (rows_var cols_var : Z)
  : scan_request :=
  let path := strip path_var in
  if bool_decide (path = []) then Refused "Please choose a workbook file."
  else
    match strptime (strip from_var), strptime (strip to_var) with
    | Ok date_from, Ok date_to =>
        if negb (datetime_le date_from date_to)
        then Refused "End date must be >= start date."
        else Scan path date_from date_to
               (Z.max 1 (int_or rows_var MAX_ROWS)) (Z.max 1 (int_or cols_var MAX_COLS))
    | _, _ => Refused "Please enter valid dates as DD.MM.YYYY."
    end.

End StartScan.

(** The progress callback of the window, lines 400-402: what it sets the
    bar's maximum and value to. *)
Record progressbar := { pb_maximum : Z; pb_value : Z }.

Definition _progress_cb (done total : nat) : progressbar :=
  {| pb_maximum := Z.max 1 (Z.of_nat total); pb_value := Z.of_nat done |}.

(** * Notions the statements use *)

(** ** Cells, ranges and windows *)

(** The value [read_cell] delivers when the cell request succeeds. *)
Definition peek (ws : Worksheet) (row col : Z) : value :=
  let '(r0, c0) := cell_top_left_of_merge ws row col in
  default VNone (cells ws !! (r0, c0)).

(** Resolving the result of a resolution. *)
Definition resolve_twice (ws : Worksheet) (row col : Z) : Z * Z :=
  let '(r0, c0) := cell_top_left_of_merge ws row col in
  cell_top_left_of_merge ws r0 c0.

(** Two ranges have a cell in common. *)
Definition share_cell (a b : CellRange) : bool :=
  (Z.max (min_row a) (min_row b) <=? Z.min (max_row a) (max_row b))
  && (Z.max (min_col a) (min_col b) <=? Z.min (max_col a) (max_col b)).

(** No two ranges of the list have a cell in common. *)
Fixpoint no_overlap (ranges : list CellRange) : bool :=
  match ranges with
  | [] => true
  | a :: rest => forallb (fun b => negb (share_cell a b)) rest && no_overlap rest
  end.

(** [openpyxl] validates that a range starts at row and column 1 or
    later. *)
Definition valid_range (mr : CellRange) : bool :=
  (1 <=? min_row mr) && (1 <=? min_col mr).


(** The window [1..last_row] x [1..last_col]. *)
Definition in_window (last_row last_col row col : Z) : bool :=
  (1 <=? row) && (row <=? last_row) && (1 <=? col) && (col <=? last_col).

(** The event is no cell request, or requests a cell of the window. *)
Definition within (last_row last_col : Z) (e : event) : Prop :=
  match e with
  | CellRead _ row col => 1 <= row <= last_row /\ 1 <= col <= last_col
  | _ => True
  end.

(** The two columns of a store pair are columns of the window. *)
Definition store_within (last_col : Z) (st : StoreCols) : Prop :=
  1 <= pka_col st <= last_col /\ 1 <= vat_col st <= last_col.

(** ** Text and numbers *)

(** What is left of [s] after its longest prefix of characters in [p]. *)
Fixpoint skip (p : Z -> bool) (s : str) : str :=
  match s with
  | c :: t => if p c then skip p t else s
  | [] => []
  end.

(** [s] is empty or starts with a character outside [p]. *)
Definition stops (p : Z -> bool) (s : str) : Prop :=
  match s with
  | c :: _ => p c = false
  | [] => True
  end.

Section Notions.
Context `{U : Runtime}.

(** A row is blank for [data_row_end] when the normalized text of the
    anchor column is empty. *)
Definition blank_row (ws : Worksheet) (bread_col r : Z) : bool :=
  bool_decide (norm_text (peek ws r bread_col) = []).

(** The cell at ([row], [col]) reads, through the resolver, as the anchor
    phrase. *)
Definition is_anchor (ws : Worksheet) (row col : Z) : bool :=
  bool_decide (norm_text (peek ws row col) = ANCHOR_TEXT).

(** The anchors of a row and of a window, cell by cell in scanning
    order. *)
Definition anchor_step (ws : Worksheet) (r : Z) (anchors : list (Z * Z)) (c : Z)
  : list (Z * Z) :=
  if is_anchor ws r c then anchors ++ [(r, c)] else anchors.

Definition anchor_row (ws : Worksheet) (cols : list Z) (anchors : list (Z * Z)) (r : Z)
  : list (Z * Z) :=
  foldl (anchor_step ws r) anchors cols.

(** The store the detector records at column [c] under the header value
    [name_raw]. *)
Definition store_at (name_raw : value) (c : Z) : StoreCols :=
  {| name := if bool_decide (display name_raw = []) then UNNAMED else display name_raw;
     pka_col := c; vat_col := c + 1 |}.

(** The subheader pair at [c], [c + 1] reads "brought", "returned". *)
Definition is_pair (pka vat : value) : bool :=
  bool_decide (norm_text pka = SUB_PKA) && bool_decide (norm_text vat = SUB_VAT).

(** The shape [DD.MM.YYYY]: eight decimal digits and two full stops. *)
Definition date_shape (s : str) : Prop :=
  exists d1 d2 m1 m2 y1 y2 y3 y4,
    s = [d1; d2; 46; m1; m2; 46; y1; y2; y3; y4]
    /\ Forall (fun c => is_digit c = true) [d1; d2; m1; m2; y1; y2; y3; y4].

(** The spellings of a two-digit day and month the patterns of [%d] and
    [%m] accept, the second character being a decimal digit. *)
Definition day_text (d1 d2 : Z) : bool :=
  ((d1 =? 51) && in_range 48 49 d2) || in_range 49 50 d1
  || ((d1 =? 48) && in_range 49 57 d2).

Definition month_text (m1 m2 : Z) : bool :=
  ((m1 =? 49) && in_range 48 50 m2) || ((m1 =? 48) && in_range 49 57 m2).

(** What the pattern [NUMBER] leaves of [s] at its first try: after the
    digits of the integer part, a full stop is taken only together with
    at least one digit. *)
Definition lex_fraction (u : str) : str :=
  match u with
  | x :: c :: w => if (x =? 46) && is_digit c then skip is_digit w else u
  | _ => u
  end.

Definition lex_unsigned (s : str) : option str :=
  match s with
  | c :: t => if is_digit c then Some (lex_fraction (skip is_digit t)) else None
  | [] => None
  end.

Definition lex_number (s : str) : option str :=
  match s with
  | c :: t => if c =? 45 then lex_unsigned t else lex_unsigned s
  | [] => None
  end.

(** The pattern [\d+(?:\.\d+)?], the part of [NUMBER] after the sign. *)
Definition UNSIGNED : regex :=
  Cat (Many1 is_digit) (Opt (Cat (Chr 46) (Many1 is_digit))).

(** One or more decimal digits. *)
Definition digit_run (ds : str) : Prop :=
  ds <> [] /\ Forall (fun c => is_digit c = true) ds.

(** An integer or a decimal without sign: digits, optionally followed by
    a full stop and digits. *)
Definition unsigned_text (t : str) : Prop :=
  exists ip fp, t = ip ++ fp /\ digit_run ip
                /\ (fp = [] \/ exists fd, fp = 46 :: fd /\ digit_run fd).

(** A signed integer or decimal: the same with an optional minus sign. *)
Definition number_text (t : str) : Prop :=
  unsigned_text t \/ exists t', t = 45 :: t' /\ unsigned_text t'.

(** The text holds no signed integer or decimal. *)
Definition no_number (s : str) : Prop :=
  forall pre t post, s = pre ++ t ++ post -> ~ number_text t.

(** [t] is the first signed integer or decimal of [s]: no other starts
    further left, and none that starts at the same place is longer. *)
Definition first_number (s t : str) : Prop :=
  exists pre post,
    s = pre ++ t ++ post /\ number_text t
    /\ forall pre' t' post', s = pre' ++ t' ++ post' -> number_text t' ->
         (length pre < length pre')%nat
         \/ length pre' = length pre /\ (length t' <= length t)%nat.

End Notions.

(** ** Computations *)

(** What holds of the value of a computation that ends normally. *)
Definition post {A} (m : M A) (P : A -> Prop) : Prop :=
  forall a, result m = Ok a -> P a.

(** Running [step] on each element and collecting the results in order. *)
Definition collect {A T} (xs : list A) (step : A -> M T) : M (list T) :=
  for_ xs (fun x ts => t <- step x ;; ret (ts ++ [t])) [].

(** The sheets the anchor finder was run on, read off the "found n
    table(s)" messages, which the scan logs right after each run (when
    the last column of the window has a name). *)
Definition visited (l : list event) : list str :=
  flat_map (fun e => match e with LogFound s _ _ _ => [s] | _ => [] end) l.

(** The event is a cell request on the sheet titled [t]. *)
Definition on_sheet (t : str) (e : event) : Prop :=
  match e with CellRead s _ _ => s = t | _ => False end.

(** The computation does nothing but request cells of the sheet [t]. *)
Definition reads_of {A} (t : str) (m : M A) : Prop := Forall (on_sheet t) (events m).

(** Every event of the computation satisfies [P]. *)
Definition always {A} (P : event -> Prop) (m : M A) : Prop := Forall P (events m).

(** ** Contributions and totals *)

(** One contribution of a table: a key, a brought and a returned number. *)
Definition entry : Type := str * Q * Q.

(** Adding one contribution, and a list of them, into a totals map. *)
Definition credit (m : gmap str totals) (e : entry) : gmap str totals :=
  let '(k, b, rv) := e in add_returned (add_brought m k b) k rv.

Definition credit_all (m : gmap str totals) (es : list entry) : gmap str totals :=
  foldl credit m es.

(** The same numbers under the driver's key. *)
Definition to_driver (driver : str) (es : list entry) : list entry :=
  map (fun e : entry => let '(_, b, rv) := e in (driver, b, rv)) es.

(** A contribution with numbers of at least zero. *)
Definition nonneg_entry (e : entry) : Prop := (0 <= e.1.2)%Q /\ (0 <= e.2)%Q.

(** Every entity of the map has a brought and a returned sum of at least
    zero. *)
Definition nonneg_totals (m : gmap str totals) : Prop :=
  forall k t, m !! k = Some t -> (0 <= brought t)%Q /\ (0 <= returned t)%Q.

Definition nonneg_pair (acc : gmap str totals * gmap str totals) : Prop :=
  nonneg_totals acc.1 /\ nonneg_totals acc.2.

Section Contributions.
Context `{U : Runtime}.

(** The contribution of one data row and one store pair. *)
Definition cell_entry (ws : Worksheet) (r : Z) (st : StoreCols) : M entry :=
  vb <- read_cell ws r (pka_col st) ;;
  b <- lift (to_number vb) ;;
  vr <- read_cell ws r (vat_col st) ;;
  rv <- lift (to_number vr) ;;
  ret (name st, b, rv).

(** The contributions of a table: one for every data row and every store
    pair, row by row. *)
Definition table_entries (ws : Worksheet) (stores : list StoreCols) (data_start data_end : Z)
  : M (list entry) :=
  ess <- collect (range data_start (data_end + 1))
           (fun r => collect stores (cell_entry ws r)) ;;
  ret (concat ess).

(** The contributions of the table at an anchor; none when no store pair
    is detected or the data extent is empty. *)
Definition anchor_entries (ws : Worksheet) (last_row last_col : Z) (anchor : Z * Z) : M (list entry) :=
  let '(anchor_row, anchor_col) := anchor in
  stores <- detect_store_columns ws (anchor_row - 1) anchor_row (anchor_col + 2) last_col ;;
  if bool_decide (stores = []) then ret []
  else
    data_end <- data_row_end ws anchor_col (anchor_row + 1) last_row ;;
    if data_end <? anchor_row + 1 then ret []
    else table_entries ws stores (anchor_row + 1) data_end.

(** What a table does to the two maps, given its contributions. *)
Definition attribute (has_driver : bool) (driver : str) (es : list entry)
    (acc : gmap str totals * gmap str totals)
  : gmap str totals * gmap str totals :=
  (credit_all acc.1 es,
   if has_driver then credit_all acc.2 (to_driver driver es) else acc.2).

(** The value does not convert to a negative number. *)
Definition nonneg_value (v : value) : bool :=
  match to_number v with
  | Ok x => Qle_bool 0 x
  | Raise _ => true
  end.

(** No stored cell of the sheet converts to a negative number. *)
Definition nonneg_cells (ws : Worksheet) : bool :=
  forallb (fun pv : Z * Z * value => nonneg_value pv.2) (map_to_list (cells ws)).

End Contributions.

(** ** Selected sheets *)

Section SelectedSheets.
Context `{U : Runtime}.
Variable wb : list Worksheet.
Variables date_from date_to : datetime.

(** The sheet name parses, with [is_date_sheet], to a date of the
    inclusive range. *)
Definition dated_within (sheet : str) : Prop :=
  exists dt, is_date_sheet sheet = Some dt
             /\ datetime_le date_from dt = true /\ datetime_le dt date_to = true.

#[global] Instance dated_within_dec k : Decision (dated_within k).
Proof.
  unfold dated_within. destruct (is_date_sheet k) as [dt |].
  - destruct (datetime_le date_from dt) eqn:H1, (datetime_le dt date_to) eqn:H2;
      [left; by exists dt | right; intros (dt' & [= <-] & ? & ?); congruence ..].
  - right. by intros (dt' & [=] & _).
Defined.

(** The sheets the specification selects: in workbook order, those whose
    name is a date of the range. *)
Definition selected : list str := filter dated_within (map title wb).

(** The event concerns a sheet of the list, or is a progress report. *)
Definition about (ks : list str) (e : event) : Prop :=
  match e with
  | CellRead s _ _ | LogFound s _ _ _ => s ∈ ks
  | Progress _ _ => True
  | LogScanning _ => False
  end.

End SelectedSheets.

(** ** Windows, requests and outcomes *)

(** The cells of the window, row by row. *)
Definition window_cells (last_row last_col : Z) : list (Z * Z) :=
  flat_map (fun r => map (pair r) (range 1 (last_col + 1))) (range 1 (last_row + 1)).

(** The request [read_cell] makes for a cell. *)
Definition request (ws : Worksheet) (p : Z * Z) : event :=
  let '(r0, c0) := cell_top_left_of_merge ws p.1 p.2 in CellRead (title ws) r0 c0.

(** The computation ends normally. *)
Definition succeeds {A} (m : M A) : Prop := exists a, result m = Ok a.

(** The computation raises no exception outside [P]. *)
Definition raises_only {A} (P : exn -> Prop) (m : M A) : Prop :=
  forall e, result m = Raise e -> P e.

(** The calls of the progress callback, in order. *)
Definition progress_of (l : list event) : list (nat * nat) :=
  flat_map (fun e => match e with Progress d t => [(d, t)] | _ => [] end) l.

(** The events of a scan cut at the calls of the progress callback: what
    came before each call, in order, and what came after the last one. *)
Fixpoint split_at_progress (l : list event) : list (list event) * list event :=
  match l with
  | [] => ([], [])
  | e :: t =>
      let '(blocks, rest) := split_at_progress t in
      match e, blocks with
      | Progress _ _, _ => ([] :: blocks, rest)
      | _, [] => ([], e :: rest)
      | _, b :: blocks' => ((e :: b) :: blocks', rest)
      end
  end.

Section SheetScans.
Context `{U : Runtime}.
Variable wb : list Worksheet.
Variables max_rows max_cols : Z.

(** [l] is what a scan of the sheet named [k] that ended normally
    caused, from some totals on. *)
Definition sheet_scanned (k : str) (l : list event) : Prop :=
  exists ws acc acc',
    wb_getitem wb k = Ok ws /\ scan_sheet ws max_rows max_cols acc = (l, Ok acc').

(** [l] is what a scan of the sheet named [k] that raised [e] caused. *)
Definition sheet_aborted (k : str) (e : exn) (l : list event) : Prop :=
  exists ws acc,
    wb_getitem wb k = Ok ws /\ scan_sheet ws max_rows max_cols acc = (l, Raise e).

End SheetScans.

(** An integer cell value has a float. *)
Definition float_sized (v : value) : bool :=
  match v with
  | VInt z => Z.abs z <? FLOAT_INT_LIMIT
  | _ => true
  end.

Definition float_sized_cells (ws : Worksheet) : bool :=
  forallb (fun pv : Z * Z * value => float_sized pv.2) (map_to_list (cells ws)).

(** The start columns of the detected pairs are at least three apart, the
    first one at [c] or later. *)
Fixpoint spaced_from (c : Z) (cols : list Z) : Prop :=
  match cols with
  | [] => True
  | a :: t => c <= a /\ spaced_from (a + 3) t
  end.

Section MoreNotions.
Context `{U : Runtime}.

(** No cell of row 1 reads, in the first [max_cols] columns, as the anchor
    phrase. *)
Definition top_row_clear (ws : Worksheet) (max_cols : Z) : bool :=
  forallb (fun c => negb (is_anchor ws 1 c)) (range 1 (max_cols + 1)).

(** The request for the cell in row 0 above a cell of row 1 that reads as
    the anchor phrase, on a sheet of the workbook and in one of its first
    [max_cols] columns. *)
Definition above_top_anchor (wb : list Worksheet) (max_cols : Z) (e : event) : Prop :=
  exists ws c,
    ws ∈ wb /\ 1 <= c <= max_cols /\ is_anchor ws 1 c = true
    /\ e = CellRead (title ws) 0 c.

(** Every cell the computation requests is a cell of the window; or every
    one but the last, which is the cell above an anchor of row 1, and that
    request ends the computation with [ValueError]. *)
Definition stays_within {A} (wb : list Worksheet) (max_rows max_cols : Z) (m : M A)
  : Prop :=
  always (within max_rows max_cols) m
  \/ exists l e,
       events m = l ++ [e] /\ Forall (within max_rows max_cols) l
       /\ above_top_anchor wb max_cols e /\ result m = Raise ValueError.

(** The store stands where the subheader row reads "brought", "returned",
    and is named after the header cell above. *)
Definition detected (ws : Worksheet) (hdr_row sub_row last_col : Z) (st : StoreCols) : Prop :=
  vat_col st = pka_col st + 1 /\ vat_col st <= last_col
  /\ is_pair (peek ws sub_row (pka_col st)) (peek ws sub_row (vat_col st)) = true
  /\ st = store_at (peek ws hdr_row (pka_col st)) (pka_col st).

End MoreNotions.

(** The window of a sheet: [last_row] and [last_col] of lines 174-175. *)
Definition window_of (ws : Worksheet) (max_rows max_cols : Z) : Z * Z :=
  (Z.min (int_or (ws_max_row ws) max_rows) max_rows,
   Z.min (int_or (ws_max_column ws) max_cols) max_cols).

(** The exceptions a scan can raise. *)
Definition scan_exn (e : exn) : Prop := e = ValueError \/ e = OverflowError.

(** No key of the map is the empty string. *)
Definition keys_named (m : gmap str totals) : Prop :=
  forall k, is_Some (m !! k) -> k <> [].

(** ** Text, continued *)

(** The digits of a decimal numeral as characters. *)
Fixpoint digits_of (d : Decimal.uint) : str :=
  match d with
  | Decimal.Nil => []
  | Decimal.D0 l => 48 :: digits_of l
  | Decimal.D1 l => 49 :: digits_of l
  | Decimal.D2 l => 50 :: digits_of l
  | Decimal.D3 l => 51 :: digits_of l
  | Decimal.D4 l => 52 :: digits_of l
  | Decimal.D5 l => 53 :: digits_of l
  | Decimal.D6 l => 54 :: digits_of l
  | Decimal.D7 l => 55 :: digits_of l
  | Decimal.D8 l => 56 :: digits_of l
  | Decimal.D9 l => 57 :: digits_of l
  end.

(** Every white-space character of the text is a single U+0020 that
    follows a character that is none; [after_space] tells that the text
    follows a white-space character. *)
Fixpoint single_spaced (after_space : bool) (t : str) : Prop :=
  match t with
  | [] => True
  | c :: t' =>
      (is_space c = true -> c = 32 /\ after_space = false)
      /\ single_spaced (is_space c) t'
  end.

(** The text has no white space at its start or end, single spaces
    inside, and none of the hyphens U+2011, U+2013, U+2014. *)
Definition tidy (t : str) : Prop :=
  single_spaced true t
  /\ (forall c, last t = Some c -> is_space c = false)
  /\ Forall (fun c => c <> 0x2011 /\ c <> 0x2013 /\ c <> 0x2014) t.

(** ** Rows and sums *)

(** The text [_fmt_num] answers, and the fields of a table row. *)
Definition fmt_num_text (x : Q) : str :=
  if is_integer x then repr_int (int_of_float x) else format_fixed 3 x.

Definition row_fields (m : gmap str totals) (k : str) : list str :=
  let t := default zero_totals (m !! k) in
  [k; fmt_num_text (brought t); fmt_num_text (returned t);
   format_fixed 2 (rate (returned t) (brought t))].

(** ** Where totals come from *)

Section Provenance.
Context `{U : Runtime}.
Variable sheets : list Worksheet.

(** [k] is the name of a store of a table of one of the sheets: the
    display text, or the placeholder, of the cell above a "brought",
    "returned" pair that stands in the row of an anchor, two columns or
    more to its right. *)
Definition store_of_table (k : str) : Prop :=
  exists ws r c c',
    ws ∈ sheets /\ is_anchor ws r c = true /\ c + 2 <= c'
    /\ is_pair (peek ws r c') (peek ws r (c' + 1)) = true
    /\ k = name (store_at (peek ws (r - 1) c') c').

(** [k] is the driver of a table of one of the sheets: the display text
    of the cell above an anchor, which is not blank. *)
Definition driver_of_table (k : str) : Prop :=
  exists ws r c,
    ws ∈ sheets /\ is_anchor ws r c = true
    /\ norm_text (peek ws (r - 1) c) <> []
    /\ k = display (peek ws (r - 1) c).

(** Every key of the two maps is accounted for by a table. *)
Definition accounted (acc : gmap str totals * gmap str totals) : Prop :=
  (forall k, is_Some (acc.1 !! k) -> store_of_table k)
  /\ (forall k, is_Some (acc.2 !! k) -> driver_of_table k).

End Provenance.

(** ** Widgets *)

(** Some table has the widget [w] as its master. *)
Definition has_tree_child (tk : list widget) (w : nat) : Prop :=
  exists i x, tk !! i = Some x /\ w_class x = Treeview /\ w_master x = Some w.

(** Every master was created before its widgets: it has a number among
    those of [tk]. *)
Definition masters_exist (tk : list widget) : Prop :=
  Forall (fun x => forall m, w_master x = Some m -> (m < length tk)%nat) tk.

(** ** A runtime for evaluating examples

    [basic] implements the parameters for text made of ASCII and of the
    Cyrillic letters U+0400..U+044F, on which NFKC changes nothing, and
    prints the floats that have a short exact decimal expansion.  On such
    inputs it agrees with CPython; the general theorems do not use it. *)

Definition basic_lower (c : Z) : Z :=
  if in_range 65 90 c then c + 32
  else if in_range 0x410 0x42F c then c + 32
  else if in_range 0x400 0x40F c then c + 80
  else c.

Definition basic_decimal (c : Z) : option Z :=
  if in_range 48 57 c then Some (c - 48) else None.

Fixpoint frac_digits (fuel : nat) (num den : Z) : str :=
  match fuel with
  | O => []
  | S f =>
      if num =? 0 then []
      else (48 + (10 * num) / den) :: frac_digits f ((10 * num) mod den) den
  end.

Definition basic_repr_float (x : Q) : str :=
  let a := Z.abs (Qnum x) in
  let d := Zpos (Qden x) in
  (if Qnum x <? 0 then [45] else [])
  ++ repr_int (a / d) ++ [46]
  ++ match frac_digits 17 (a mod d) d with [] => [48] | ds => ds end.

Definition basic : Runtime :=
  {| nfkc := fun s => s;
     lower := map basic_lower;
     decimal := basic_decimal;
     repr_float := basic_repr_float;
     decimal_ascii := ltac:(
       intros c H; unfold basic_decimal, in_range;
       destruct (Z.leb_spec 48 c), (Z.leb_spec c 57); simpl; auto; lia);
     decimal_ascii_only := ltac:(
       intros c _ [d Hd]; unfold basic_decimal, in_range in Hd;
       destruct (Z.leb_spec 48 c), (Z.leb_spec c 57); simpl in Hd;
       try discriminate; lia);
     decimal_range := ltac:(
       intros c d Hd; unfold basic_decimal, in_range in Hd;
       destruct (Z.leb_spec 48 c), (Z.leb_spec c 57); simpl in Hd;
       try discriminate; injection Hd as <-; lia) |}.

(** ** Example worksheets *)

Definition cell_list := list (Z * Z * value).

Definition sheet (name : string) (cs : cell_list) (ranges : list CellRange)
    (rows cols : Z) : Worksheet :=
  {| title := text name; cells := list_to_map cs; merged := ranges;
     ws_max_row := rows; ws_max_column := cols |}.

(** Two merged ranges that overlap in the cell (2, 2). *)
Definition overlapping_sheet : Worksheet :=
  sheet "01.01.2024" []
    [ {| min_row := 1; min_col := 1; max_row := 2; max_col := 2 |};
      {| min_row := 2; min_col := 2; max_row := 3; max_col := 3 |} ] 3 3.

(** A bread column with data in rows 3 to 5 and nothing below. *)
Definition bread_column_sheet : Worksheet :=
  sheet "01.01.2024"
    [ (3, 1, VStr (text "white")); (4, 1, VStr (text "rye"));
      (5, 1, VStr (text "bun")) ] [] 5 1.

(** A table whose anchor stands in row 1. *)
Definition top_row_sheet : Worksheet :=
  sheet "01.01.2024"
    [ (1, 1, VStr (text "Вид Хлеба")); (1, 3, VStr (text "П-ка"));
      (1, 4, VStr (text "В-ат")); (2, 1, VStr (text "white"));
      (2, 3, VInt 5); (2, 4, VInt 2) ] [] 2 4.

(** The end-to-end example of the specification: anchor at (2, 1), driver
    above it, one store with its three subheaders, data in rows 3 to 5. *)
Definition delivery_cells : cell_list :=
  [ (1, 1, VStr (text "Ivanov")); (1, 3, VStr (text "Store A"));
    (2, 1, VStr (text "Вид Хлеба")); (2, 2, VStr (text "К-во Хлеба"));
    (2, 3, VStr (text "П-ка")); (2, 4, VStr (text "В-ат")); (2, 5, VStr (text "Ост"));
    (3, 1, VStr (text "white")); (3, 3, VInt 5); (3, 4, VInt 2);
    (4, 1, VStr (text "rye")); (4, 3, VInt 3); (4, 4, VInt 1);
    (5, 1, VStr (text "bun")); (5, 3, VInt 0); (5, 4, VInt 0) ].

Definition delivery_sheet : Worksheet := sheet "05.01.2024" delivery_cells [] 5 5.

(** The same table with a negative quantity in the brought column. *)
Definition negative_sheet : Worksheet :=
  sheet "05.01.2024"
    [ (1, 3, VStr (text "Store A"));
      (2, 1, VStr (text "Вид Хлеба"));
      (2, 3, VStr (text "П-ка")); (2, 4, VStr (text "В-ат"));
      (3, 1, VStr (text "white")); (3, 3, VInt (-3)); (3, 4, VInt 0) ] [] 3 4.



(** A title cell merged over two columns. *)
Definition merged_title_sheet : Worksheet :=
  sheet "01.01.2024" [ (2, 1, VStr (text "Вид Хлеба")) ]
    [ {| min_row := 2; min_col := 1; max_row := 2; max_col := 2 |} ] 4 4.

Definition jan_1 : datetime := {| year := 2024; month := 1; day := 1 |}.

Definition dec_31 : datetime := {| year := 2024; month := 12; day := 31 |}.

(** The two maps a scan answers with. *)
Definition scan_run : Type := M (gmap str totals * gmap str totals * scan_meta).

Definition stores_of (run : scan_run) : gmap str totals :=
  match result run with Ok (st, _, _) => st | Raise _ => ∅ end.

Definition drivers_of (run : scan_run) : gmap str totals :=
  match result run with Ok (_, dr, _) => dr | Raise _ => ∅ end.

(** A renderer for evaluating examples: every specification is rendered
    as the fixed-point format of its precision, which is right for the
    specifications [.pf]. *)
Definition basic_format : FloatFormat :=
  {| render := fun fs x => format_fixed (Z.to_nat (default 6 (fmt_precision fs))) x;
     render_fixed := ltac:(intros p x Hp; reflexivity) |}.

(** The window after the scan of the end-to-end example. *)
Definition delivery_window : window :=
  let run := scan_workbook (U := basic) [delivery_sheet] jan_1 dec_31 MAX_ROWS MAX_COLS in
  {| stores_totals := stores_of run; drivers_totals := drivers_of run;
     last_meta := Some {| sheets_scanned := 1; meta_from := jan_1; meta_to := dec_31;
                          meta_max_rows := MAX_ROWS; meta_max_cols := MAX_COLS |} |}.

(** The application when the window is built: [tk.Tk()] alone. *)
Definition root_only : list widget :=
  [{| w_class := Toplevel; w_master := None; w_in := None |}].

(** * Properties *)

(** ** Computations: laws *)

Lemma bind_ret_l {A B} (a : A) (f : A -> M B) : bind (ret a) f = f a.
Proof. unfold bind, ret. destruct (f a) as [l r]. reflexivity. Qed.

Lemma bind_ret_r {A} (m : M A) : bind m ret = m.
Proof.
  destruct m as [l [a | e]]; simpl; [| reflexivity].
  by rewrite app_nil_r.
Qed.

Lemma bind_assoc {A B C} (m : M A) (f : A -> M B) (g : B -> M C) :
  bind (bind m f) g = bind m (fun a => bind (f a) g).
Proof.
  destruct m as [l [a | e]]; simpl; [| reflexivity].
  destruct (f a) as [l1 [b | e1]]; simpl; [| reflexivity].
  destruct (g b) as [l2 r2]. by rewrite app_assoc.
Qed.

Lemma bind_ext {A B} (m : M A) (f g : A -> M B) :
  (forall a, f a = g a) -> bind m f = bind m g.
Proof.
  intros H. destruct m as [l [a | e]]; simpl; [| reflexivity]. by rewrite H.
Qed.

Lemma bind_ok {A B} l (a : A) (f : A -> M B) :
  bind (l, Ok a) f = (l ++ events (f a), result (f a)).
Proof. simpl. by destruct (f a). Qed.

Lemma bind_raise {A B} l e (f : A -> M B) : bind (l, Raise e) f = (l, Raise e).
Proof. reflexivity. Qed.

Lemma bind_lift_ok {A B} (a : A) (f : A -> M B) : bind (lift (Ok a)) f = f a.
Proof. unfold bind, lift. destruct (f a) as [l r]. reflexivity. Qed.

Lemma bind_lift_raise {A B} e (f : A -> M B) : bind (lift (Raise e)) f = ([], Raise e).
Proof. reflexivity. Qed.

Lemma for_nil {A S} (body : A -> S -> M S) (s : S) : for_ [] body s = ret s.
Proof. reflexivity. Qed.

Lemma for_cons {A S} x (xs : list A) (body : A -> S -> M S) (s : S) :
  for_ (x :: xs) body s = bind (body x s) (for_ xs body).
Proof. reflexivity. Qed.

Arguments bind : simpl never.
Arguments ret : simpl never.

(** ** The merged-region resolver *)

Lemma contains_spec mr row col :
  contains mr row col = true <->
  min_row mr <= row <= max_row mr /\ min_col mr <= col <= max_col mr.
Proof. unfold contains. rewrite !andb_true_iff, !Z.leb_le. lia. Qed.

Lemma share_cell_spec a b row col :
  contains a row col = true -> contains b row col = true -> share_cell a b = true.
Proof.
  rewrite !contains_spec. intros Ha Hb. unfold share_cell.
  rewrite andb_true_iff, !Z.leb_le. lia.
Qed.

(** The resolver answers with the point itself or with the corner of a
    range that holds the point. *)
Lemma top_left_cases ranges row col :
  top_left ranges row col = (row, col)
  \/ exists mr, mr ∈ ranges /\ contains mr row col = true
                /\ top_left ranges row col = (min_row mr, min_col mr).
Proof.
  induction ranges as [| a rest IH]; simpl; [by left |].
  destruct (contains a row col) eqn:Ha.
  - right. exists a. split; [left | done].
  - destruct IH as [IH | (mr & Hin & Hc & IH)]; [by left |].
    right. exists mr. split; [by right | done].
Qed.

(** The corner of a range that holds some point is in the range. *)
Lemma contains_corner mr row col :
  contains mr row col = true -> contains mr (min_row mr) (min_col mr) = true.
Proof. rewrite !contains_spec. lia. Qed.

Lemma top_left_idempotent ranges row col :
  no_overlap ranges = true ->
  forall r0 c0, top_left ranges row col = (r0, c0) ->
  top_left ranges r0 c0 = (r0, c0).
Proof.
  induction ranges as [| a rest IH]; simpl; intros Hno r0 c0 Hres.
  - by injection Hres as <- <-.
  - apply andb_true_iff in Hno as [Ha Hrest].
    destruct (contains a row col) eqn:Hc.
    + injection Hres as <- <-. by rewrite (contains_corner _ _ _ Hc).
    + destruct (contains a r0 c0) eqn:Hc0; [| by apply IH].
      destruct (top_left_cases rest row col) as [Hsame | (mr & Hin & Hmr & Hcorner)].
      * rewrite Hsame in Hres. injection Hres as <- <-. congruence.
      * rewrite Hcorner in Hres. injection Hres as <- <-.
        rewrite forallb_forall in Ha.
        assert (negb (share_cell a mr) = true) as Hneg
          by (apply Ha; by apply list_elem_of_In).
        rewrite (share_cell_spec a mr _ _ Hc0 (contains_corner _ _ _ Hmr)) in Hneg.
        discriminate.
Qed.

(** C9, as the specification states it, fails: with the ranges A1:B2 and
    B2:C3, in this order, the point (3, 3) resolves to (2, 2), and (2, 2)
    resolves to (1, 1). *)
Lemma resolve_not_idempotent_on_overlap :
  cell_top_left_of_merge overlapping_sheet 3 3 = (2, 2)
  /\ resolve_twice overlapping_sheet 3 3 = (1, 1).
Proof. split; reflexivity. Qed.

(** C9, amended: on a sheet no two of whose merged ranges have a cell in
    common, resolving the result of a resolution changes nothing, for
    every coordinate (the corner of a range included). *)
Theorem resolve_idempotent (ws : Worksheet) (row col : Z) :
  no_overlap (merged ws) = true ->
  resolve_twice ws row col = cell_top_left_of_merge ws row col.
Proof.
  intros Hno. unfold resolve_twice, cell_top_left_of_merge.
  destruct (top_left (merged ws) row col) as [r0 c0] eqn:Hres.
  by apply (top_left_idempotent _ row col).
Qed.

(** The sheet with the merged title has one range, and there the theorem
    applies. *)
Lemma resolve_idempotent_witness :
  no_overlap (merged merged_title_sheet) = true
  /\ resolve_twice merged_title_sheet 2 2 = cell_top_left_of_merge merged_title_sheet 2 2.
Proof.
  split; [reflexivity |].
  apply (resolve_idempotent merged_title_sheet 2 2). reflexivity.
Defined.

(** ** Reading cells *)

Lemma top_left_valid ranges row col r0 c0 :
  forallb valid_range ranges = true -> 1 <= row -> 1 <= col ->
  top_left ranges row col = (r0, c0) -> 1 <= r0 <= row /\ 1 <= c0 <= col.
Proof.
  intros Hv Hr Hc Hres.
  destruct (top_left_cases ranges row col) as [Hsame | (mr & Hin & Hmr & Hcorner)].
  - rewrite Hsame in Hres. injection Hres as <- <-. lia.
  - rewrite Hcorner in Hres. injection Hres as <- <-.
    rewrite forallb_forall in Hv.
    assert (valid_range mr = true) as Hvalid by (apply Hv; by apply list_elem_of_In).
    unfold valid_range in Hvalid.
    apply andb_true_iff in Hvalid as [H1 H2].
    apply Z.leb_le in H1, H2. apply contains_spec in Hmr. lia.
Qed.

(** Inside the sheet a read requests one cell, the resolved one, and
    delivers its value. *)
Lemma read_cell_ok ws row col :
  forallb valid_range (merged ws) = true -> 1 <= row -> 1 <= col ->
  exists r0 c0,
    cell_top_left_of_merge ws row col = (r0, c0)
    /\ 1 <= r0 <= row /\ 1 <= c0 <= col
    /\ read_cell ws row col = ([CellRead (title ws) r0 c0], Ok (peek ws row col)).
Proof.
  intros Hv Hr Hc. unfold read_cell, peek.
  destruct (cell_top_left_of_merge ws row col) as [r0 c0] eqn:Hres.
  exists r0, c0. split; [done |].
  destruct (top_left_valid _ _ _ _ _ Hv Hr Hc Hres) as [H1 H2].
  split; [done |]. split; [done |].
  unfold cell_value.
  destruct (Z.ltb_spec r0 1); [lia |]. destruct (Z.ltb_spec c0 1); [lia |].
  reflexivity.
Qed.

(** The result of a computation that continues after a read. *)
Lemma result_bind_read {A} ws row col (k : value -> M A) :
  forallb valid_range (merged ws) = true -> 1 <= row -> 1 <= col ->
  result (bind (read_cell ws row col) k) = result (k (peek ws row col)).
Proof.
  intros Hv Hr Hc.
  destruct (read_cell_ok ws row col Hv Hr Hc) as (r0 & c0 & _ & _ & _ & ->).
  by rewrite bind_ok.
Qed.

(** ** The data extent *)

Section DataExtent.
Context `{U : Runtime}.
Variable ws : Worksheet.
Variables bread_col last_row : Z.
Hypothesis merged_valid : forallb valid_range (merged ws) = true.
Hypothesis bread_col_pos : 1 <= bread_col.

(** One iteration of the loop, as the source writes it. *)
Lemma data_row_loop_step fuel r blank :
  data_row_loop (S fuel) ws bread_col last_row r blank =
  if r <=? last_row then
    bind (read_cell ws r bread_col) (fun v =>
      if bool_decide (norm_text v = []) then
        if 2 <=? blank + 1 then ret (r - (blank + 1) - 1)
        else data_row_loop fuel ws bread_col last_row (r + 1) (blank + 1)
      else data_row_loop fuel ws bread_col last_row (r + 1) 0)
  else ret (r - blank - 1).
Proof. reflexivity. Qed.

(** Fuel beyond the number of rows left in the window changes nothing. *)
Lemma data_row_loop_fuel fuel1 fuel2 r blank :
  (Z.to_nat (last_row + 1 - r) <= fuel1)%nat ->
  (Z.to_nat (last_row + 1 - r) <= fuel2)%nat ->
  data_row_loop fuel1 ws bread_col last_row r blank =
  data_row_loop fuel2 ws bread_col last_row r blank.
Proof.
  revert fuel2 r blank.
  induction fuel1 as [| fuel1 IH]; intros fuel2 r blank H1 H2.
  - destruct fuel2 as [| fuel2]; simpl; [done |].
    destruct (Z.leb_spec r last_row); [lia | done].
  - destruct fuel2 as [| fuel2]; simpl.
    + destruct (Z.leb_spec r last_row); [lia | done].
    + destruct (Z.leb_spec r last_row); [| done].
      apply bind_ext. intros v.
      destruct (bool_decide _); [| apply IH; lia].
      destruct (2 <=? blank + 1); [done | apply IH; lia].
Qed.

(** The loop from a state in which the first two consecutive blank rows,
    [b] and [b + 1], are still ahead: it answers [b - 2]. *)
Lemma data_row_loop_blank_run b fuel r blank :
  1 <= r -> r <= b + 1 -> b + 1 <= last_row ->
  (Z.to_nat (b + 2 - r) <= fuel)%nat ->
  blank_row ws bread_col b = true ->
  blank_row ws bread_col (b + 1) = true ->
  (forall r', r <= r' < b ->
     blank_row ws bread_col r' && blank_row ws bread_col (r' + 1) = false) ->
  (blank = 0 /\ r <= b
   \/ blank = 1 /\ blank_row ws bread_col (r - 1) = true
      /\ (r <= b -> blank_row ws bread_col r = false)) ->
  result (data_row_loop fuel ws bread_col last_row r blank) = Ok (b - 2).
Proof.
  intros Hr1 Hrb Hlast Hfuel Hb Hb1. revert r blank Hr1 Hrb Hfuel.
  induction fuel as [| fuel IH]; intros r blank Hr1 Hrb Hfuel Hfirst Hstate; [lia |].
  rewrite data_row_loop_step.
  destruct (Z.leb_spec r last_row); [| lia].
  rewrite result_bind_read by done.
  fold (blank_row ws bread_col r).
  destruct Hstate as [[-> Hle] | (-> & Hprev & Hcur)].
  - destruct (blank_row ws bread_col r) eqn:Hblank; simpl.
    + apply IH; [lia | lia | lia | intros; apply Hfirst; lia |].
      right. split; [done |]. replace (r + 1 - 1) with r by lia. split; [done |].
      intros Hle'. specialize (Hfirst r ltac:(lia)).
      rewrite Hblank in Hfirst. simpl in Hfirst. done.
    + assert (r <> b) by (intros ->; congruence).
      apply IH; [lia | lia | lia | intros; apply Hfirst; lia |].
      left. split; [done | lia].
  - destruct (Z.eq_dec r (b + 1)) as [-> | Hne].
    + rewrite Hb1. simpl. f_equal. lia.
    + rewrite Hcur by lia. simpl.
      assert (r <> b) by (intros ->; specialize (Hcur ltac:(lia)); congruence).
      apply IH; [lia | lia | lia | intros; apply Hfirst; lia |].
      left. split; [done | lia].
Qed.

(** What [data_row_end] answers when the scan ends at the first run of two
    consecutive blank rows [b], [b + 1]: the row before the last row that
    is not blank. *)
Lemma data_row_end_blank_run start_row b :
  1 <= start_row -> start_row <= b -> b + 1 <= last_row ->
  blank_row ws bread_col b = true ->
  blank_row ws bread_col (b + 1) = true ->
  (forall r', start_row <= r' < b ->
     blank_row ws bread_col r' && blank_row ws bread_col (r' + 1) = false) ->
  result (data_row_end ws bread_col start_row last_row) = Ok (b - 2).
Proof.
  intros Hs Hsb Hlast Hb Hb1 Hfirst. unfold data_row_end.
  apply data_row_loop_blank_run with (b := b); try done; lia.
Qed.

(** The loop when no two consecutive blank rows lie between [r] and the
    end of the window: it runs to the end and answers the last row that is
    not blank. *)
Lemma data_row_loop_window fuel r blank :
  1 <= r -> r <= last_row + 1 ->
  (Z.to_nat (last_row + 1 - r) <= fuel)%nat ->
  (forall r', r <= r' < last_row ->
     blank_row ws bread_col r' && blank_row ws bread_col (r' + 1) = false) ->
  (blank = 0 \/ blank = 1 /\ (r <= last_row -> blank_row ws bread_col r = false)) ->
  result (data_row_loop fuel ws bread_col last_row r blank) =
  Ok (last_row - (if r <=? last_row
                  then (if blank_row ws bread_col last_row then 1 else 0)
                  else blank)).
Proof.
  revert r blank.
  induction fuel as [| fuel IH]; intros r blank Hr1 Hrl Hfuel Hfirst Hstate.
  - simpl. destruct (Z.leb_spec r last_row); [lia |]. f_equal. lia.
  - rewrite data_row_loop_step.
    destruct (Z.leb_spec r last_row) as [Hle | Hgt]; [| simpl; f_equal; lia].
    rewrite result_bind_read by done.
    fold (blank_row ws bread_col r).
    assert (blank + 1 = 1 \/ blank_row ws bread_col r = false) as Hone
      by (destruct Hstate as [-> | [-> Hcur]]; [by left | right; by apply Hcur]).
    destruct (blank_row ws bread_col r) eqn:Hblank; simpl.
    + destruct Hone as [Hone | ?]; [| done].
      rewrite Hone. simpl.
      rewrite IH; [| lia | lia | lia | intros; apply Hfirst; lia |].
      * destruct (Z.leb_spec (r + 1) last_row); [done |].
        replace last_row with r by lia. by rewrite Hblank.
      * right. split; [done |]. intros Hle'.
        specialize (Hfirst r ltac:(lia)). by rewrite Hblank in Hfirst.
    + rewrite IH; [| lia | lia | lia | intros; apply Hfirst; lia | by left].
      destruct (Z.leb_spec (r + 1) last_row); [done |].
      replace last_row with r by lia. by rewrite Hblank.
Qed.

(** What [data_row_end] answers when no two consecutive blank rows lie
    between the start row and the end of the window: the last row of the
    window, or the row before it when the last row is blank. *)
Lemma data_row_end_window start_row :
  1 <= start_row -> start_row <= last_row + 1 ->
  (forall r', start_row <= r' < last_row ->
     blank_row ws bread_col r' && blank_row ws bread_col (r' + 1) = false) ->
  result (data_row_end ws bread_col start_row last_row) =
  Ok (last_row - (if (start_row <=? last_row) && blank_row ws bread_col last_row
                  then 1 else 0)).
Proof.
  intros Hs Hsl Hfirst. unfold data_row_end.
  rewrite data_row_loop_window; [| done | done | lia | done | by left].
  by destruct (start_row <=? last_row), (blank_row ws bread_col last_row).
Qed.

End DataExtent.

(** The same column in a window that ends with the data, at row 5. *)
Lemma data_row_end_window_witness :
  result (data_row_end (U := basic) bread_column_sheet 1 3 5) = Ok 5.
Proof.
  rewrite (data_row_end_window (U := basic) bread_column_sheet 1 5 eq_refl
             ltac:(lia) 3); try lia; [vm_compute; reflexivity |].
  intros r' Hr'. assert (r' = 3 \/ r' = 4) as [-> | ->] by lia; vm_compute; reflexivity.
Defined.

(** Data in rows 3 to 5, rows 6 and 7 blank: the answer is row 4. *)
Lemma data_row_end_blank_run_witness :
  result (data_row_end (U := basic) bread_column_sheet 1 3 320) = Ok (6 - 2).
Proof.
  apply (data_row_end_blank_run (U := basic) bread_column_sheet 1 320 eq_refl
           ltac:(lia) 3 6); try lia; try (vm_compute; reflexivity).
  intros r' Hr'. assert (r' = 3 \/ r' = 4 \/ r' = 5) as [-> | [-> | ->]] by lia;
    vm_compute; reflexivity.
Defined.

(** C1: the answer of [data_row_end] at the first run of two blank rows.
    In the example the bread column holds data in rows 3, 4 and 5, rows 6
    and 7 are blank, and the window reaches row 320: the function answers
    4, the row before the last row with data. *)
Theorem data_row_end_drops_last_row :
  map (blank_row (U := basic) bread_column_sheet 1) [3; 4; 5; 6; 7]
    = [false; false; false; true; true]
  /\ result (data_row_end (U := basic) bread_column_sheet 1 3 320) = Ok 4.
Proof. split; vm_compute; reflexivity. Qed.

(** ** The column-block detector *)

Section Detector.
Context `{U : Runtime}.
Variable ws : Worksheet.
Variables hdr_row sub_row last_col : Z.

(** The stores found so far are only ever extended. *)
Lemma detect_loop_acc fuel c stores :
  detect_loop fuel ws hdr_row sub_row last_col c stores =
  bind (detect_loop fuel ws hdr_row sub_row last_col c [])
       (fun found => ret (stores ++ found)).
Proof.
  revert c stores. induction fuel as [| fuel IH]; intros c stores; simpl.
  - by rewrite bind_ret_l, app_nil_r.
  - destruct (c <=? last_col - 1); [| by rewrite bind_ret_l, app_nil_r].
    rewrite !bind_assoc. apply bind_ext. intros pka.
    rewrite !bind_assoc. apply bind_ext. intros vat.
    destruct (_ && _).
    + rewrite !bind_assoc. apply bind_ext. intros name_raw.
      rewrite (IH _ (stores ++ _)), (IH _ [_]), bind_assoc.
      apply bind_ext. intros found. by rewrite bind_ret_l, <- app_assoc.
    + apply IH.
Qed.

(** Fuel beyond the number of columns left changes nothing. *)
Lemma detect_loop_fuel fuel1 fuel2 c stores :
  (Z.to_nat (last_col - c) <= fuel1)%nat ->
  (Z.to_nat (last_col - c) <= fuel2)%nat ->
  detect_loop fuel1 ws hdr_row sub_row last_col c stores =
  detect_loop fuel2 ws hdr_row sub_row last_col c stores.
Proof.
  revert fuel2 c stores.
  induction fuel1 as [| fuel1 IH]; intros fuel2 c stores H1 H2.
  - destruct fuel2 as [| fuel2]; simpl; [done |].
    destruct (Z.leb_spec c (last_col - 1)); [lia | done].
  - destruct fuel2 as [| fuel2]; simpl.
    + destruct (Z.leb_spec c (last_col - 1)); [lia | done].
    + destruct (Z.leb_spec c (last_col - 1)); [| done].
      apply bind_ext. intros pka. apply bind_ext. intros vat.
      destruct (_ && _).
      * apply bind_ext. intros name_raw. apply IH; lia.
      * apply IH; lia.
Qed.

(** C3: the detector, scanning from column [c].  With fewer than two
    columns left in the window it ends.  Otherwise it reads the subheader
    row at [c] and at [c + 1]; when these are the "brought" and "returned"
    labels it reads the store name from the header row at [c] (through
    the merged-cell resolver, with the placeholder for an empty name),
    records the pair ([c], [c + 1]) and goes on at [c + 3]; when not, it
    records nothing and goes on at [c + 1]. *)
Theorem detect_store_columns_unfold c :
  detect_store_columns ws hdr_row sub_row c last_col =
  if c <=? last_col - 1 then
    pka <- read_cell ws sub_row c ;;
    vat <- read_cell ws sub_row (c + 1) ;;
    if is_pair pka vat then
      name_raw <- read_cell ws hdr_row c ;;
      rest <- detect_store_columns ws hdr_row sub_row (c + 3) last_col ;;
      ret (store_at name_raw c :: rest)
    else detect_store_columns ws hdr_row sub_row (c + 1) last_col
  else ret [].
Proof.
  unfold detect_store_columns.
  destruct (Z.leb_spec c (last_col - 1)) as [Hle | Hgt].
  - destruct (Z.to_nat (last_col - c)) as [| fuel] eqn:Hfuel; [lia |].
    simpl. destruct (Z.leb_spec c (last_col - 1)); [| lia].
    apply bind_ext. intros pka. apply bind_ext. intros vat.
    unfold is_pair. destruct (_ && _).
    + apply bind_ext. intros name_raw.
      rewrite detect_loop_acc.
      rewrite (detect_loop_fuel fuel (Z.to_nat (last_col - (c + 3)))) by lia.
      reflexivity.
    + apply detect_loop_fuel; lia.
  - destruct (Z.to_nat (last_col - c)); simpl; [done |].
    destruct (Z.leb_spec c (last_col - 1)); [lia | done].
Qed.

End Detector.

(** ** Results and events of composed computations *)

Lemma result_bind {A B} (m : M A) (k : A -> M B) a :
  result m = Ok a -> result (bind m k) = result (k a).
Proof. destruct m as [l r]. simpl. intros ->. by rewrite bind_ok. Qed.

Lemma result_bind_raise {A B} (m : M A) (k : A -> M B) e :
  result m = Raise e -> result (bind m k) = Raise e.
Proof. destruct m as [l r]. simpl. intros ->. reflexivity. Qed.

Lemma events_bind {A B} (m : M A) (k : A -> M B) :
  events (bind m k) =
  events m ++ match result m with Ok a => events (k a) | Raise _ => [] end.
Proof.
  destruct m as [l [a | e]].
  - by rewrite bind_ok.
  - rewrite bind_raise. simpl. by rewrite app_nil_r.
Qed.

Lemma result_bind_inv {A B} (m : M A) (k : A -> M B) b :
  result (bind m k) = Ok b -> exists a, result m = Ok a /\ result (k a) = Ok b.
Proof.
  destruct m as [l [a | e]].
  - rewrite bind_ok. simpl. eauto.
  - rewrite bind_raise. discriminate.
Qed.

(** A loop whose body always succeeds with a pure update of the state. *)
Lemma for_result {A S} (xs : list A) (body : A -> S -> M S) (f : S -> A -> S) s :
  (forall x s, x ∈ xs -> result (body x s) = Ok (f s x)) ->
  result (for_ xs body s) = Ok (foldl f s xs).
Proof.
  revert s. induction xs as [| x xs IH]; intros s Hbody; [done |].
  rewrite for_cons. rewrite (result_bind _ _ (f s x)) by (apply Hbody; left).
  apply IH. intros y s' Hy. apply Hbody. by right.
Qed.

Lemma elem_of_range a b x : x ∈ range a b <-> a <= x < b.
Proof. unfold range. rewrite elem_of_seqZ. lia. Qed.

(** ** The anchor finder *)

Section Anchors.
Context `{U : Runtime}.
Variable ws : Worksheet.
Hypothesis merged_valid : forallb valid_range (merged ws) = true.





(** With well-formed ranges the finder always answers: the cells of the
    window that read as the anchor phrase, row by row. *)
Lemma find_table_anchors_result last_row last_col :
  result (find_table_anchors ws last_row last_col) =
  Ok (foldl (anchor_row ws (range 1 (last_col + 1))) [] (range 1 (last_row + 1))).
Proof.
  unfold find_table_anchors. apply for_result. intros r anchors Hr.
  apply elem_of_range in Hr.
  unfold anchor_row. apply for_result. intros c anchors' Hc.
  apply elem_of_range in Hc.
  rewrite result_bind_read by (done || lia).
  unfold anchor_step, is_anchor. by destruct (bool_decide _).
Qed.

(** A point of a range of the sheet resolves to the corner of that range
    when the ranges do not overlap. *)
Lemma top_left_of_member ranges mr row col :
  no_overlap ranges = true -> mr ∈ ranges -> contains mr row col = true ->
  top_left ranges row col = (min_row mr, min_col mr).
Proof.
  induction ranges as [| a rest IH]; intros Hno Hin Hc.
  - by apply elem_of_nil in Hin.
  - simpl in *. apply andb_true_iff in Hno as [Ha Hrest].
    destruct (contains a row col) eqn:Hca.
    + apply elem_of_cons in Hin as [-> | Hin]; [done |].
      rewrite forallb_forall in Ha.
      assert (negb (share_cell a mr) = true) as Hneg
        by (apply Ha; by apply list_elem_of_In).
      by rewrite (share_cell_spec a mr row col) in Hneg.
    + apply elem_of_cons in Hin as [-> | Hin]; [congruence | by apply IH].
Qed.

(** The scan of a sheet runs [scan_table] once for every anchor the finder
    returns, in the finder's order. *)
Lemma scan_sheet_tables max_rows max_cols acc :
  scan_sheet ws max_rows max_cols acc =
  (let last_row := Z.min (int_or (ws_max_row ws) max_rows) max_rows in
   let last_col := Z.min (int_or (ws_max_column ws) max_cols) max_cols in
   anchors <- find_table_anchors ws last_row last_col ;;
   _ <- lift (get_column_letter last_col) ;;
   _ <- emit (LogFound (title ws) (length anchors) last_row last_col) ;;
   for_ anchors (scan_table ws last_row last_col) acc).
Proof. reflexivity. Qed.


End Anchors.



(** ** The aggregator *)

Lemma collect_acc {A T} (xs : list A) (step : A -> M T) ts0 :
  for_ xs (fun x ts => t <- step x ;; ret (ts ++ [t])) ts0 =
  bind (collect xs step) (fun ts => ret (ts0 ++ ts)).
Proof.
  unfold collect. revert ts0. induction xs as [| x xs IH]; intros ts0.
  - by rewrite !for_nil, bind_ret_l, app_nil_r.
  - rewrite !for_cons, !bind_assoc. apply bind_ext. intros t.
    rewrite !bind_ret_l, IH, (IH ([] ++ _)), bind_assoc.
    apply bind_ext. intros ts. by rewrite bind_ret_l, <- app_assoc.
Qed.

Lemma collect_cons {A T} x (xs : list A) (step : A -> M T) :
  collect (x :: xs) step =
  (t <- step x ;; ts <- collect xs step ;; ret (t :: ts)).
Proof.
  unfold collect at 1. rewrite for_cons, bind_assoc. apply bind_ext. intros t.
  by rewrite bind_ret_l, collect_acc.
Qed.

(** A loop whose body performs a step that does not depend on the state
    and then updates the state with the step's result: the steps can be
    run first and the updates applied afterwards. *)
Lemma for_fuse {A S T} (xs : list A) (body : A -> S -> M S)
    (step : A -> M T) (upd : S -> T -> S) s :
  (forall x s, body x s = bind (step x) (fun t => ret (upd s t))) ->
  for_ xs body s = bind (collect xs step) (fun ts => ret (foldl upd s ts)).
Proof.
  intros Hbody. revert s. induction xs as [| x xs IH]; intros s.
  - unfold collect. by rewrite !for_nil, bind_ret_l.
  - rewrite for_cons, collect_cons, Hbody, !bind_assoc.
    apply bind_ext. intros t. rewrite bind_ret_l, IH, bind_assoc.
    apply bind_ext. intros ts. by rewrite bind_ret_l.
Qed.

Section Aggregator.
Context `{U : Runtime}.
Variable ws : Worksheet.

(** Re-keying to the driver leaves the numbers as they are. *)
Lemma to_driver_numbers driver (es : list entry) :
  map (fun e : entry => (e.1.2, e.2)) (to_driver driver es)
  = map (fun e : entry => (e.1.2, e.2)) es.
Proof.
  unfold to_driver. rewrite map_map. apply map_ext. by intros [[k b] rv].
Qed.

Lemma attribute_nil has_driver driver acc : attribute has_driver driver [] acc = acc.
Proof. unfold attribute. destruct acc, has_driver; reflexivity. Qed.

Lemma attribute_app has_driver driver es1 es2 acc :
  attribute has_driver driver (es1 ++ es2) acc =
  attribute has_driver driver es2 (attribute has_driver driver es1 acc).
Proof.
  unfold attribute, credit_all, to_driver. simpl.
  rewrite map_app, !foldl_app. by destruct has_driver.
Qed.

Lemma attribute_concat has_driver driver ess acc :
  foldl (fun acc es => attribute has_driver driver es acc) acc ess =
  attribute has_driver driver (concat ess) acc.
Proof.
  revert acc. induction ess as [| es ess IH]; intros acc; simpl.
  - by rewrite attribute_nil.
  - by rewrite IH, attribute_app.
Qed.

Lemma attribute_each has_driver driver es acc :
  foldl (fun acc e => attribute has_driver driver [e] acc) acc es =
  attribute has_driver driver es acc.
Proof.
  revert acc. induction es as [| e es IH]; intros acc; simpl.
  - by rewrite attribute_nil.
  - rewrite IH. change (e :: es) with ([e] ++ es). by rewrite attribute_app.
Qed.

Lemma sum_cell_entry has_driver driver r st acc :
  sum_cell ws has_driver driver r st acc =
  bind (cell_entry ws r st) (fun e => ret (attribute has_driver driver [e] acc)).
Proof.
  unfold sum_cell, cell_entry. destruct acc as [stores_totals drivers_totals].
  rewrite !bind_assoc. apply bind_ext. intros vb.
  rewrite !bind_assoc. apply bind_ext. intros b.
  rewrite !bind_assoc. apply bind_ext. intros vr.
  rewrite !bind_assoc. apply bind_ext. intros rv.
  rewrite bind_ret_l. by destruct has_driver.
Qed.

Lemma sum_rows_entries has_driver driver stores data_start data_end acc :
  sum_rows ws has_driver driver stores data_start data_end acc =
  bind (table_entries ws stores data_start data_end)
       (fun es => ret (attribute has_driver driver es acc)).
Proof.
  unfold sum_rows, table_entries.
  rewrite (for_fuse _ _ (fun r => collect stores (cell_entry ws r))
             (fun acc es => attribute has_driver driver es acc)).
  - rewrite bind_assoc. apply bind_ext. intros ess.
    by rewrite bind_ret_l, attribute_concat.
  - intros r acc'.
    rewrite (for_fuse _ _ (cell_entry ws r)
               (fun acc e => attribute has_driver driver [e] acc)).
    + apply bind_ext. intros es. by rewrite attribute_each.
    + intros st acc''. apply sum_cell_entry.
Qed.

(** The scan of a table gathers the table's contributions and attributes
    them. *)
Lemma scan_table_entries (last_row last_col : Z) (anchor : Z * Z)
    (acc : gmap str totals * gmap str totals) :
  scan_table ws last_row last_col anchor acc =
  (driver_raw <- read_cell ws (anchor.1 - 1) anchor.2 ;;
   es <- anchor_entries ws last_row last_col anchor ;;
   ret (attribute (negb (bool_decide (norm_text driver_raw = [])))
          (display driver_raw) es acc)).
Proof.
  unfold scan_table, anchor_entries. destruct anchor as [anchor_row anchor_col].
  simpl. apply bind_ext. intros driver_raw.
  rewrite bind_assoc. apply bind_ext. intros stores.
  destruct (bool_decide (stores = [])).
  - by rewrite bind_ret_l, attribute_nil.
  - rewrite bind_assoc. apply bind_ext. intros data_end.
    destruct (data_end <? anchor_row + 1).
    + by rewrite bind_ret_l, attribute_nil.
    + by rewrite sum_rows_entries.
Qed.


End Aggregator.

(** ** Signs of the totals *)

Lemma post_ret {A} (a : A) (P : A -> Prop) : P a -> post (ret a) P.
Proof. intros Ha b Hb. unfold ret in Hb. simpl in Hb. by injection Hb as <-. Qed.

Lemma post_bind {A B} (m : M A) (k : A -> M B) (Q : A -> Prop) (P : B -> Prop) :
  post m Q -> (forall a, Q a -> post (k a) P) -> post (bind m k) P.
Proof.
  intros Hm Hk b Hb. apply result_bind_inv in Hb as (a & Ha & Hb).
  by apply (Hk a (Hm a Ha)).
Qed.

Lemma post_lift {A} (o : outcome A) (P : A -> Prop) :
  (forall a, o = Ok a -> P a) -> post (lift o) P.
Proof. intros Ho a Ha. by apply Ho. Qed.

(** A loop keeps what every run of its body keeps. *)
Lemma post_for {A S} (xs : list A) (body : A -> S -> M S) (I : S -> Prop) s :
  I s -> (forall x s, x ∈ xs -> I s -> post (body x s) I) ->
  post (for_ xs body s) I.
Proof.
  revert s. induction xs as [| x xs IH]; intros s Hs Hbody.
  - by apply post_ret.
  - rewrite for_cons. apply (post_bind _ _ I).
    + apply Hbody; [left | done].
    + intros s' Hs'. apply IH; [done |]. intros y s'' Hy. apply Hbody. by right.
Qed.

Lemma post_collect {A T} (xs : list A) (step : A -> M T) (P : T -> Prop) :
  (forall x, x ∈ xs -> post (step x) P) -> post (collect xs step) (Forall P).
Proof.
  intros Hstep. unfold collect. apply post_for; [constructor |].
  intros x ts Hx Hts. apply (post_bind _ _ P); [by apply Hstep |].
  intros t Ht. apply post_ret. apply Forall_app. split; [done |].
  by constructor.
Qed.

Section Signs.
Context `{U : Runtime}.

Lemma post_read_nonneg ws row col :
  nonneg_cells ws = true ->
  post (read_cell ws row col) (fun v => nonneg_value v = true).
Proof.
  intros Hws v. unfold read_cell.
  destruct (cell_top_left_of_merge ws row col) as [r0 c0].
  unfold cell_value, result. simpl.
  destruct ((r0 <? 1) || (c0 <? 1)); [discriminate |].
  intros [= <-]. destruct (cells ws !! (r0, c0)) as [v |] eqn:Hv; simpl.
  - unfold nonneg_cells in Hws. rewrite forallb_forall in Hws.
    apply (Hws ((r0, c0), v)). apply list_elem_of_In.
    by apply elem_of_map_to_list.
  - reflexivity.
Qed.

Lemma post_number_nonneg ws row col :
  nonneg_cells ws = true ->
  post (v <- read_cell ws row col ;; lift (to_number v)) (fun x => (0 <= x)%Q).
Proof.
  intros Hws. eapply post_bind; [by apply post_read_nonneg |].
  intros v Hv. apply post_lift. intros x Hx.
  unfold nonneg_value in Hv. rewrite Hx in Hv. by apply Qle_bool_imp_le.
Qed.

Lemma post_cell_entry ws r st :
  nonneg_cells ws = true -> post (cell_entry ws r st) nonneg_entry.
Proof.
  intros Hws. unfold cell_entry.
  rewrite <- bind_assoc.
  eapply post_bind; [by apply post_number_nonneg |]. intros b Hb.
  rewrite <- bind_assoc.
  eapply post_bind; [by apply post_number_nonneg |]. intros rv Hrv.
  by apply post_ret.
Qed.

Lemma post_table_entries ws stores data_start data_end :
  nonneg_cells ws = true ->
  post (table_entries ws stores data_start data_end) (Forall nonneg_entry).
Proof.
  intros Hws. unfold table_entries.
  eapply post_bind.
  - apply post_collect. intros r _. apply post_collect. intros st _.
    by apply post_cell_entry.
  - intros ess Hess. apply post_ret. by apply Forall_concat.
Qed.

Lemma post_anchor_entries ws last_row last_col anchor :
  nonneg_cells ws = true ->
  post (anchor_entries ws last_row last_col anchor) (Forall nonneg_entry).
Proof.
  intros Hws. unfold anchor_entries. destruct anchor as [anchor_row anchor_col].
  apply (post_bind _ _ (fun _ => True)); [done |]. intros stores _.
  destruct (bool_decide (stores = [])); [by apply post_ret |].
  apply (post_bind _ _ (fun _ => True)); [done |]. intros data_end _.
  destruct (data_end <? anchor_row + 1); [by apply post_ret |].
  by apply post_table_entries.
Qed.

End Signs.

Lemma add_brought_nonneg m k x :
  nonneg_totals m -> (0 <= x)%Q -> nonneg_totals (add_brought m k x).
Proof.
  intros Hm Hx k' t. unfold add_brought.
  destruct (decide (k = k')) as [<- | Hne].
  - rewrite lookup_insert_eq. intros [= <-]. simpl.
    assert ((0 <= brought (default zero_totals (m !! k)))%Q
            /\ (0 <= returned (default zero_totals (m !! k)))%Q) as [H1 H2].
    { destruct (m !! k) as [t |] eqn:Hk; simpl; [by apply (Hm k) | done]. }
    split; [| done].
    apply (Qle_trans _ (0 + 0)); [done | by apply Qplus_le_compat].
  - rewrite lookup_insert_ne by done. apply Hm.
Qed.

Lemma add_returned_nonneg m k x :
  nonneg_totals m -> (0 <= x)%Q -> nonneg_totals (add_returned m k x).
Proof.
  intros Hm Hx k' t. unfold add_returned.
  destruct (decide (k = k')) as [<- | Hne].
  - rewrite lookup_insert_eq. intros [= <-]. simpl.
    assert ((0 <= brought (default zero_totals (m !! k)))%Q
            /\ (0 <= returned (default zero_totals (m !! k)))%Q) as [H1 H2].
    { destruct (m !! k) as [t |] eqn:Hk; simpl; [by apply (Hm k) | done]. }
    split; [done |].
    apply (Qle_trans _ (0 + 0)); [done | by apply Qplus_le_compat].
  - rewrite lookup_insert_ne by done. apply Hm.
Qed.

Lemma credit_all_nonneg m es :
  nonneg_totals m -> Forall nonneg_entry es -> nonneg_totals (credit_all m es).
Proof.
  intros Hm Hes. revert m Hm. unfold credit_all.
  induction Hes as [| [[k b] rv] es [Hb Hrv] _ IH]; intros m Hm; [done |].
  simpl. apply IH. apply add_returned_nonneg; [| done]. by apply add_brought_nonneg.
Qed.

Lemma to_driver_nonneg driver es :
  Forall nonneg_entry es -> Forall nonneg_entry (to_driver driver es).
Proof.
  intros Hes. unfold to_driver. apply Forall_map.
  eapply Forall_impl; [done |]. by intros [[k b] rv].
Qed.

Section SignsOfScan.
Context `{U : Runtime}.

Lemma post_scan_table ws last_row last_col anchor acc :
  nonneg_cells ws = true -> nonneg_pair acc ->
  post (scan_table ws last_row last_col anchor acc) nonneg_pair.
Proof.
  intros Hws [Hst Hdr]. rewrite scan_table_entries.
  apply (post_bind _ _ (fun _ => True)); [done |]. intros driver_raw _.
  eapply post_bind; [by apply post_anchor_entries |]. intros es Hes.
  apply post_ret. unfold attribute. split; simpl.
  - by apply credit_all_nonneg.
  - destruct (negb _); [| done].
    by apply credit_all_nonneg, to_driver_nonneg.
Qed.

Lemma post_scan_sheet ws max_rows max_cols acc :
  nonneg_cells ws = true -> nonneg_pair acc ->
  post (scan_sheet ws max_rows max_cols acc) nonneg_pair.
Proof.
  intros Hws Hacc. unfold scan_sheet.
  apply (post_bind _ _ (fun _ => True)); [done |]. intros anchors _.
  apply (post_bind _ _ (fun _ => True)); [done |]. intros _ _.
  apply (post_bind _ _ (fun _ => True)); [done |]. intros _ _.
  apply post_for; [done |]. intros anchor acc' _ Hacc'.
  by apply post_scan_table.
Qed.

Lemma wb_getitem_elem wb k ws : wb_getitem wb k = Ok ws -> ws ∈ wb /\ title ws = k.
Proof.
  unfold wb_getitem.
  destruct (List.find _ wb) as [ws' |] eqn:Hfind; [| discriminate].
  intros [= <-]. apply find_some in Hfind as [Hin Ht].
  split; [by apply list_elem_of_In | by apply bool_decide_eq_true in Ht].
Qed.

(** C5, amended: when no stored cell of the workbook converts to a
    negative number, every entity of the stores map and of the drivers map
    at the end of a scan has a brought sum and a returned sum of at least
    zero. *)
Theorem totals_nonneg (wb : list Worksheet) (date_from date_to : datetime)
    (max_rows max_cols : Z) st dr meta :
  forallb nonneg_cells wb = true ->
  result (scan_workbook wb date_from date_to max_rows max_cols) = Ok (st, dr, meta) ->
  nonneg_totals st /\ nonneg_totals dr.
Proof.
  intros Hwb.
  assert (post (scan_workbook wb date_from date_to max_rows max_cols)
            (fun r => nonneg_totals r.1.1 /\ nonneg_totals r.1.2)) as Hpost.
  { unfold scan_workbook.
    apply (post_bind _ _ (fun _ => True)); [done |]. intros _ _.
    apply (post_bind _ _ (fun st => nonneg_pair st.1)).
    - apply post_for; [by split |].
      intros k [acc done] _ Hacc.
      apply (post_bind _ _ (fun ws => ws ∈ wb)).
      { apply post_lift. intros ws Hws. by apply wb_getitem_elem in Hws as [? _]. }
      intros ws Hin.
      apply (post_bind _ _ nonneg_pair).
      { apply post_scan_sheet; [| done].
        rewrite forallb_forall in Hwb. apply Hwb. by apply list_elem_of_In. }
      intros acc' Hacc'.
      apply (post_bind _ _ (fun _ => True)); [done |]. intros _ _.
      by apply post_ret.
    - intros [[st' dr'] done] Hacc. by apply post_ret. }
  intros Hres. apply (Hpost _ Hres).
Qed.

End SignsOfScan.

(** C5, as the specification states it, fails: a brought cell holding -3
    gives the store a brought sum of -3. *)
Lemma negative_brought_sum :
  stores_of (scan_workbook (U := basic) [negative_sheet] jan_1 dec_31 MAX_ROWS MAX_COLS)
    !! text "Store A"
  = Some {| brought := -3; returned := 0 |}.
Proof. vm_compute. reflexivity. Qed.

(** The end-to-end example of the specification: the totals are 8 and 3
    for the store and for the driver, and none is negative. *)
Lemma totals_nonneg_witness :
  let run := scan_workbook (U := basic) [delivery_sheet] jan_1 dec_31 MAX_ROWS MAX_COLS in
  stores_of run !! text "Store A" = Some {| brought := 8; returned := 3 |}
  /\ drivers_of run !! text "Ivanov" = Some {| brought := 8; returned := 3 |}
  /\ nonneg_totals (stores_of run) /\ nonneg_totals (drivers_of run).
Proof.
  split; [vm_compute; reflexivity |]. split; [vm_compute; reflexivity |].
  apply (totals_nonneg (U := basic) [delivery_sheet] jan_1 dec_31 MAX_ROWS MAX_COLS
           _ _ {| sheets_scanned := 1; meta_from := jan_1; meta_to := dec_31;
                  meta_max_rows := MAX_ROWS; meta_max_cols := MAX_COLS |}).
  - vm_compute. reflexivity.
  - vm_compute. reflexivity.
Defined.

(** ** The sheets a scan visits *)

Lemma visited_app l1 l2 : visited (l1 ++ l2) = visited l1 ++ visited l2.
Proof. unfold visited. apply flat_map_app. Qed.

Lemma visited_reads t l : Forall (on_sheet t) l -> visited l = [].
Proof.
  induction 1 as [| e l He _ IH]; [done |].
  destruct e; simpl in *; done.
Qed.

Lemma reads_ret {A} t (a : A) : reads_of t (ret a).
Proof. constructor. Qed.

Lemma reads_lift {A} t (o : outcome A) : reads_of t (lift o).
Proof. constructor. Qed.

Lemma reads_bind {A B} t (m : M A) (k : A -> M B) :
  reads_of t m -> (forall a, reads_of t (k a)) -> reads_of t (bind m k).
Proof.
  unfold reads_of. intros Hm Hk. rewrite events_bind. apply Forall_app.
  split; [done |]. destruct (result m); [apply Hk | constructor].
Qed.

Lemma reads_for {A S} t (xs : list A) (body : A -> S -> M S) s :
  (forall x s, reads_of t (body x s)) -> reads_of t (for_ xs body s).
Proof.
  intros Hbody. revert s. induction xs as [| x xs IH]; intros s.
  - apply reads_ret.
  - rewrite for_cons. by apply reads_bind.
Qed.

Lemma reads_read_cell ws row col : reads_of (title ws) (read_cell ws row col).
Proof.
  unfold read_cell. destruct (cell_top_left_of_merge ws row col) as [r0 c0].
  unfold reads_of, cell_value. simpl. by repeat constructor.
Qed.

Section Visits.
Context `{U : Runtime}.

Lemma reads_find_table_anchors ws last_row last_col :
  reads_of (title ws) (find_table_anchors ws last_row last_col).
Proof.
  unfold find_table_anchors. apply reads_for. intros r anchors.
  apply reads_for. intros c anchors'.
  apply reads_bind; [apply reads_read_cell |]. intros v.
  destruct (bool_decide _); apply reads_ret.
Qed.

Lemma reads_detect_loop fuel ws hdr_row sub_row last_col c stores :
  reads_of (title ws) (detect_loop fuel ws hdr_row sub_row last_col c stores).
Proof.
  revert c stores. induction fuel as [| fuel IH]; intros c stores; simpl.
  - apply reads_ret.
  - destruct (c <=? last_col - 1); [| apply reads_ret].
    apply reads_bind; [apply reads_read_cell |]. intros pka.
    apply reads_bind; [apply reads_read_cell |]. intros vat.
    destruct (_ && _); [| apply IH].
    apply reads_bind; [apply reads_read_cell |]. intros name_raw. apply IH.
Qed.

Lemma reads_data_row_loop fuel ws bread_col last_row r blank :
  reads_of (title ws) (data_row_loop fuel ws bread_col last_row r blank).
Proof.
  revert r blank. induction fuel as [| fuel IH]; intros r blank; simpl.
  - apply reads_ret.
  - destruct (r <=? last_row); [| apply reads_ret].
    apply reads_bind; [apply reads_read_cell |]. intros v.
    destruct (bool_decide _); [| apply IH].
    destruct (2 <=? blank + 1); [apply reads_ret | apply IH].
Qed.

Lemma reads_sum_cell ws has_driver driver r st acc :
  reads_of (title ws) (sum_cell ws has_driver driver r st acc).
Proof.
  unfold sum_cell. destruct acc as [stores_totals drivers_totals].
  apply reads_bind; [apply reads_read_cell |]. intros vb.
  apply reads_bind; [apply reads_lift |]. intros b.
  apply reads_bind; [apply reads_read_cell |]. intros vr.
  apply reads_bind; [apply reads_lift |]. intros rv.
  destruct has_driver; apply reads_ret.
Qed.

Lemma reads_scan_table ws last_row last_col anchor acc :
  reads_of (title ws) (scan_table ws last_row last_col anchor acc).
Proof.
  unfold scan_table. destruct anchor as [anchor_row anchor_col].
  apply reads_bind; [apply reads_read_cell |]. intros driver_raw.
  apply reads_bind; [apply reads_detect_loop |]. intros stores.
  destruct (bool_decide _); [apply reads_ret |].
  apply reads_bind; [apply reads_data_row_loop |]. intros data_end.
  destruct (data_end <? _); [apply reads_ret |].
  unfold sum_rows. apply reads_for. intros r acc'.
  apply reads_for. intros st acc''. apply reads_sum_cell.
Qed.

(** The events of the scan of one sheet: cell requests on that sheet and,
    unless the anchor finder was interrupted, one "found" message. *)
Lemma scan_sheet_events ws max_rows max_cols acc :
  Forall (fun e => match e with
                   | CellRead s _ _ | LogFound s _ _ _ => s = title ws
                   | _ => False
                   end)
         (events (scan_sheet ws max_rows max_cols acc))
  /\ (visited (events (scan_sheet ws max_rows max_cols acc)) = [title ws]
      \/ visited (events (scan_sheet ws max_rows max_cols acc)) = []
         /\ exists e, result (scan_sheet ws max_rows max_cols acc) = Raise e).
Proof.
  unfold scan_sheet.
  set (last_row := Z.min _ max_rows). set (last_col := Z.min _ max_cols).
  pose proof (reads_find_table_anchors ws last_row last_col) as Hfind.
  rewrite events_bind.
  destruct (result (find_table_anchors ws last_row last_col)) as [anchors | e] eqn:Hres.
  - destruct (get_column_letter last_col) as [[] | e].
    + rewrite bind_lift_ok, events_bind. simpl.
      assert (reads_of (title ws)
                (for_ anchors (scan_table ws last_row last_col) acc)) as Hloop
        by (apply reads_for; intros; apply reads_scan_table).
      split.
      * apply Forall_app. split.
        -- eapply Forall_impl; [exact Hfind |]. by intros [].
        -- constructor; [done |]. eapply Forall_impl; [exact Hloop |]. by intros [].
      * left. rewrite visited_app, (visited_reads _ _ Hfind). simpl.
        by rewrite (visited_reads _ _ Hloop).
    + rewrite bind_lift_raise. simpl. rewrite app_nil_r. split.
      * eapply Forall_impl; [exact Hfind |]. by intros [].
      * right. split; [by apply (visited_reads (title ws)) |].
        exists e. by rewrite (result_bind _ _ _ Hres).
  - rewrite app_nil_r. split.
    + eapply Forall_impl; [exact Hfind |]. by intros [].
    + right. split; [by apply (visited_reads (title ws)) |].
      exists e. by apply result_bind_raise.
Qed.

End Visits.

Section Selection.
Context `{U : Runtime}.
Variable wb : list Worksheet.
Variables date_from date_to : datetime.
Variables max_rows max_cols : Z.

Lemma in_date_range_spec k :
  in_date_range date_from date_to k = true <-> dated_within date_from date_to k.
Proof.
  unfold in_date_range, dated_within. destruct (is_date_sheet k) as [dt |].
  - rewrite andb_true_iff. split.
    + intros [H1 H2]. by exists dt.
    + by intros (dt' & [= <-] & H1 & H2).
  - split; [done |]. by intros (dt' & [=] & _).
Qed.

Lemma filter_in_date_range (l : list str) :
  List.filter (in_date_range date_from date_to) l = filter (dated_within date_from date_to) l.
Proof.
  induction l as [| k l IH]; [done |]. simpl. rewrite filter_cons.
  destruct (in_date_range date_from date_to k) eqn:H.
  - rewrite decide_True by (by apply in_date_range_spec). by rewrite IH.
  - rewrite decide_False; [done |].
    intros Hd. apply in_date_range_spec in Hd. congruence.
Qed.

Lemma wb_getitem_ok k :
  k ∈ map title wb -> exists ws, wb_getitem wb k = Ok ws /\ title ws = k.
Proof.
  intros Hk. unfold wb_getitem.
  destruct (List.find _ wb) as [ws |] eqn:Hfind.
  - exists ws. split; [done |]. apply find_some in Hfind as [_ Ht].
    by apply bool_decide_eq_true in Ht.
  - apply list_elem_of_fmap in Hk as (ws & -> & Hin).
    apply list_elem_of_In in Hin.
    pose proof (find_none _ _ Hfind ws Hin) as Hnone. simpl in Hnone.
    by rewrite bool_decide_eq_false in Hnone.
Qed.

Lemma sheet_step_events total k st :
  k ∈ map title wb ->
  Forall (about [k]) (events (sheet_step wb max_rows max_cols total k st))
  /\ (visited (events (sheet_step wb max_rows max_cols total k st)) = [k]
      \/ visited (events (sheet_step wb max_rows max_cols total k st)) = []
         /\ exists e, result (sheet_step wb max_rows max_cols total k st) = Raise e).
Proof.
  intros Hk. destruct (wb_getitem_ok k Hk) as (ws & Hget & Htitle).
  unfold sheet_step. destruct st as [acc done]. rewrite Hget.
  unfold lift. rewrite bind_ok. simpl.
  destruct (scan_sheet_events ws max_rows max_cols acc) as [Hall Hvis].
  rewrite Htitle in Hall, Hvis.
  assert (Forall (about [k]) (events (scan_sheet ws max_rows max_cols acc))) as Hall'.
  { eapply Forall_impl; [exact Hall |]. intros [] He; simpl in *; try done;
      subst; by left. }
  rewrite events_bind.
  destruct (result (scan_sheet ws max_rows max_cols acc)) as [acc' | e] eqn:Hres.
  - destruct Hvis as [Hvis | [_ [e He]]]; [| congruence].
    rewrite events_bind. simpl. split.
    + apply Forall_app. split; [done |]. by repeat constructor.
    + left. rewrite visited_app, Hvis. reflexivity.
  - rewrite app_nil_r. split; [done |].
    destruct Hvis as [Hvis | [Hvis _]]; [by left |].
    right. split; [done |]. exists e. by apply result_bind_raise.
Qed.

Lemma sheet_loop_events total ks st :
  (forall k, k ∈ ks -> k ∈ map title wb) ->
  Forall (about ks) (events (for_ ks (sheet_step wb max_rows max_cols total) st))
  /\ visited (events (for_ ks (sheet_step wb max_rows max_cols total) st)) `prefix_of` ks
  /\ (forall x, result (for_ ks (sheet_step wb max_rows max_cols total) st) = Ok x ->
      visited (events (for_ ks (sheet_step wb max_rows max_cols total) st)) = ks).
Proof.
  revert st. induction ks as [| k ks IH]; intros st Hks.
  - rewrite for_nil. split; [constructor |]. split; [done | done].
  - rewrite for_cons, events_bind.
    destruct (sheet_step_events total k st) as [Hall Hvis]; [apply Hks; left |].
    assert (forall l, Forall (about [k]) l -> Forall (about (k :: ks)) l) as Hk.
    { intros l Hl. eapply Forall_impl; [exact Hl |].
      intros [] He; simpl in *; try done;
        apply list_elem_of_singleton in He as ->; by left. }
    assert (forall l, Forall (about ks) l -> Forall (about (k :: ks)) l) as Hks'.
    { intros l Hl. eapply Forall_impl; [exact Hl |].
      intros [] He; simpl in *; try done; by right. }
    destruct (result (sheet_step wb max_rows max_cols total k st)) as [st' | e] eqn:Hres.
    + destruct Hvis as [Hvis | [_ [e He]]]; [| congruence].
      destruct (IH st') as (IH1 & IH2 & IH3); [intros; apply Hks; by right |].
      rewrite visited_app, Hvis. split; [| split].
      * apply Forall_app. split; [by apply Hk | by apply Hks'].
      * simpl. by apply prefix_cons.
      * intros x Hx. rewrite (result_bind _ _ st' Hres) in Hx.
        simpl. f_equal. by apply (IH3 x).
    + rewrite app_nil_r. split; [by apply Hk |]. split.
      * destruct Hvis as [-> | [-> _]]; [| apply prefix_nil].
        apply prefix_cons, prefix_nil.
      * intros x Hx. by rewrite (result_bind_raise _ _ e Hres) in Hx.
Qed.

(** C8: the sheets on which the scan runs the anchor finder are sheets the
    specification selects, in workbook order and without a gap; they are
    all of them when the scan ends normally, and then the scan reports
    their number; and every cell the scan requests is a cell of a selected
    sheet. *)
Theorem scan_visits_selected_sheets :
  let run := scan_workbook wb date_from date_to max_rows max_cols in
  visited (events run) `prefix_of` selected wb date_from date_to
  /\ (forall x, result run = Ok x ->
      visited (events run) = selected wb date_from date_to
      /\ sheets_scanned x.2 = length (selected wb date_from date_to))
  /\ (forall s r c,
      CellRead s r c ∈ events run -> s ∈ selected wb date_from date_to).
Proof.
  simpl. unfold scan_workbook, selected.
  rewrite filter_in_date_range.
  set (ks := filter (dated_within date_from date_to) (map title wb)).
  assert (forall k, k ∈ ks -> k ∈ map title wb) as Hks
    by (intros k Hk; by apply list_elem_of_filter in Hk as [_ ?]).
  destruct (sheet_loop_events (length ks) ks (∅, ∅, O) Hks) as (Hall & Hpre & Hok).
  rewrite events_bind. unfold emit at 1 2. simpl.
  rewrite events_bind.
  destruct (result (for_ ks (sheet_step wb max_rows max_cols (length ks)) (∅, ∅, O)))
    as [[[st dr] done] | e] eqn:Hres.
  - simpl. rewrite app_nil_r. split; [done |]. split.
    + intros x Hx. rewrite (result_bind _ _ tt) in Hx by reflexivity.
      rewrite (result_bind _ _ _ Hres) in Hx.
      injection Hx as <-. split; [by apply (Hok _ eq_refl) | done].
    + intros s r c [Heq | Hin]%elem_of_cons; [done |].
      rewrite Forall_forall in Hall. apply (Hall _ Hin).
  - rewrite app_nil_r. split; [done |]. split.
    + intros x Hx. rewrite (result_bind _ _ tt) in Hx by reflexivity.
      by rewrite (result_bind_raise _ _ _ Hres) in Hx.
    + intros s r c [Heq | Hin]%elem_of_cons; [done |].
      rewrite Forall_forall in Hall. apply (Hall _ Hin).
Qed.

End Selection.

(** ** Sheet names that are dates *)

Lemma run_cat_cls p r s :
  run (Cat (Cls p) r) s =
  match s with x :: t => if p x then run r t else [] | [] => [] end.
Proof.
  simpl. destruct s as [| x t]; [done |].
  destruct (p x); simpl; [by rewrite app_nil_r | done].
Qed.

Lemma run_cat_chr c r s :
  run (Cat (Chr c) r) s =
  match s with x :: t => if x =? c then run r t else [] | [] => [] end.
Proof.
  simpl. destruct s as [| x t]; [done |].
  destruct (x =? c); simpl; [by rewrite app_nil_r | done].
Qed.

Section DateNames.
Context `{U : Runtime}.

Lemma is_digit_spec c : is_digit c = true <-> exists v, decimal c = Some v.
Proof. unfold is_digit. rewrite bool_decide_eq_true. reflexivity. Qed.

(** A decimal digit is not the full stop. *)
Lemma digit_not_dot c : is_digit c = true -> (c =? 46) = false.
Proof.
  intros Hc. apply Z.eqb_neq. intros ->.
  apply bool_decide_eq_true in Hc.
  pose proof (decimal_ascii_only 46 ltac:(lia) Hc). lia.
Qed.

Lemma fullmatch_date_shape s : re_fullmatch DATE_SHAPE s = true <-> date_shape s.
Proof.
  unfold re_fullmatch, DATE_SHAPE. split.
  - intros H.
    do 9 (rewrite ?run_cat_cls, ?run_cat_chr in H;
          destruct s as [| ? s]; [by simpl in H |];
          match type of H with
          | context [if ?b then _ else _] =>
              destruct b eqn:?; [cbv iota in H | by simpl in H]
          end).
    destruct s as [| ? s]; [by simpl in H |]. simpl in H.
    match type of H with
    | context [if ?b then _ else _] => destruct b eqn:?; [| by simpl in H]
    end.
    simpl in H. rewrite orb_false_r in H. apply bool_decide_eq_true in H as ->.
    repeat match goal with
           | E : (_ =? 46) = true |- _ => apply Z.eqb_eq in E as ->
           end.
    do 8 eexists. split; [reflexivity |]. by repeat constructor.
  - intros (d1 & d2 & m1 & m2 & y1 & y2 & y3 & y4 & -> & Hd).
    repeat match goal with
           | H : Forall _ (_ :: _) |- _ => apply Forall_cons in H as [? H]
           end.
    do 9 (rewrite ?run_cat_cls, ?run_cat_chr;
          repeat match goal with E : is_digit _ = true |- _ => rewrite E; clear E end;
          simpl (46 =? 46)).
    simpl. by rewrite H6.
Qed.

Lemma run_RE_d d1 d2 rest :
  is_digit d1 = true -> is_digit d2 = true ->
  run RE_d (d1 :: d2 :: rest) =
  (if day_text d1 d2 then [rest] else [])
  ++ (if in_range 49 57 d1 then [d2 :: rest] else []).
Proof.
  intros Hd1 Hd2.
  assert (d1 <> 32) as Hsp.
  { intros ->. apply bool_decide_eq_true in Hd1.
    pose proof (decimal_ascii_only 32 ltac:(lia) Hd1). lia. }
  unfold RE_d, day_text. cbn -[is_digit in_range].
  unfold in_range.
  destruct (Z.eqb_spec d1 51), (Z.eqb_spec d1 48), (Z.eqb_spec d1 32),
    (Z.leb_spec 49 d1), (Z.leb_spec d1 50), (Z.leb_spec d1 57);
    try lia; cbn -[is_digit]; rewrite ?Hd2; try reflexivity;
    destruct (_ && _); reflexivity.
Qed.

Lemma run_RE_m m1 m2 rest :
  run RE_m (m1 :: m2 :: rest) =
  (if month_text m1 m2 then [rest] else [])
  ++ (if in_range 49 57 m1 then [m2 :: rest] else []).
Proof.
  unfold RE_m, month_text. cbn -[in_range]. unfold in_range.
  destruct (Z.eqb_spec m1 49), (Z.eqb_spec m1 48),
    (Z.leb_spec 49 m1), (Z.leb_spec m1 57);
    try lia; cbn; try reflexivity; destruct (_ && _); reflexivity.
Qed.

Lemma run_RE_Y y1 y2 y3 y4 rest :
  Forall (fun c => is_digit c = true) [y1; y2; y3; y4] ->
  run RE_Y (y1 :: y2 :: y3 :: y4 :: rest) = [rest].
Proof.
  intros Hy.
  repeat match goal with
         | H : Forall _ (_ :: _) |- _ => apply Forall_cons in H as [? H]
         end.
  unfold RE_Y. rewrite !run_cat_cls. simpl.
  repeat match goal with E : is_digit _ = true |- _ => rewrite E; clear E end.
  reflexivity.
Qed.

(** The matches of the [strptime] pattern on a name of the shape: at most
    one, with the three fields as written. *)
Lemma strptime_matches_shape d1 d2 m1 m2 y1 y2 y3 y4 :
  Forall (fun c => is_digit c = true) [d1; d2; m1; m2; y1; y2; y3; y4] ->
  strptime_matches [d1; d2; 46; m1; m2; 46; y1; y2; y3; y4] =
  if day_text d1 d2 && month_text m1 m2
  then [([d1; d2], [m1; m2], [y1; y2; y3; y4], [])]
  else [].
Proof.
  intros Hd.
  apply Forall_cons in Hd as [Hd1 Hd]. apply Forall_cons in Hd as [Hd2 Hd].
  apply Forall_cons in Hd as [Hm1 Hd]. apply Forall_cons in Hd as [Hm2 Hy].
  unfold strptime_matches.
  assert (forall (A B : Type) (f : A -> list B) (b : bool) x,
            flat_map f (if b then [x] else []) = if b then f x else []) as Hif
    by (intros A B f [] x; simpl; by rewrite ?app_nil_r).
  assert (forall (A : Type) (b : bool), (if b then [] else []) = @nil A) as Hnil
    by (by intros A []).
  rewrite run_RE_d, flat_map_app, !Hif by done.
  cbn [run]. rewrite (digit_not_dot d2 Hd2). cbn [flat_map].
  rewrite Hnil, app_nil_r, Z.eqb_refl. cbn [flat_map].
  rewrite run_RE_m, app_nil_r, flat_map_app, !Hif.
  cbn [run]. rewrite (digit_not_dot m2 Hm2). cbn [flat_map].
  rewrite Hnil, (run_RE_Y _ _ _ _ [] Hy).
  destruct (day_text d1 d2), (month_text m1 m2); reflexivity.
Qed.

Lemma int_of_digits_digits acc s n :
  int_of_digits acc s = Some n -> Forall (fun c => is_digit c = true) s.
Proof.
  revert acc. induction s as [| c s IH]; intros acc H; [constructor |].
  simpl in H. destruct (decimal c) as [v |] eqn:Hc; [| discriminate].
  constructor; [apply is_digit_spec; eauto | by apply (IH _ H)].
Qed.

Lemma strptime_shape d1 d2 m1 m2 y1 y2 y3 y4 :
  Forall (fun c => is_digit c = true) [d1; d2; m1; m2; y1; y2; y3; y4] ->
  strptime [d1; d2; 46; m1; m2; 46; y1; y2; y3; y4] =
  if day_text d1 d2 && month_text m1 m2 then
    match int_of_digits 0 [y1; y2; y3; y4], int_of_digits 0 [m1; m2],
          int_of_digits 0 [d1; d2] with
    | Some Y, Some M, Some D => make_datetime Y M D
    | _, _, _ => Raise ValueError
    end
  else Raise ValueError.
Proof.
  intros Hd. unfold strptime. rewrite strptime_matches_shape by done.
  destruct (_ && _); [| reflexivity].
  unfold int_of_str.
  destruct (int_of_digits 0 [y1; y2; y3; y4]); [| reflexivity].
  destruct (int_of_digits 0 [m1; m2]); [| reflexivity].
  destruct (int_of_digits 0 [d1; d2]); reflexivity.
Qed.

(** C7: [is_date_sheet] answers a date exactly for the names of the shape
    DD.MM.YYYY (eight decimal digits, two full stops) whose day and month
    are spelt as [strptime] reads them and whose three numbers are a date
    of the calendar; the answer is that date.  Every other name, of the
    shape or not, gets no date. *)
Theorem is_date_sheet_spec (sheet : str) (dt : datetime) :
  is_date_sheet sheet = Some dt <->
  exists d1 d2 m1 m2 y1 y2 y3 y4 D M Y,
    sheet = [d1; d2; 46; m1; m2; 46; y1; y2; y3; y4]
    /\ int_of_digits 0 [d1; d2] = Some D
    /\ int_of_digits 0 [m1; m2] = Some M
    /\ int_of_digits 0 [y1; y2; y3; y4] = Some Y
    /\ day_text d1 d2 = true /\ month_text m1 m2 = true
    /\ valid_date Y M D = true
    /\ dt = {| year := Y; month := M; day := D |}.
Proof.
  unfold is_date_sheet. split.
  - destruct (re_fullmatch DATE_SHAPE sheet) eqn:Hshape; [| discriminate].
    apply fullmatch_date_shape in Hshape
      as (d1 & d2 & m1 & m2 & y1 & y2 & y3 & y4 & -> & Hd).
    rewrite strptime_shape by done.
    destruct (day_text d1 d2) eqn:Hday; [| discriminate].
    destruct (month_text m1 m2) eqn:Hmonth; [| discriminate].
    cbn [andb].
    destruct (int_of_digits 0 [y1; y2; y3; y4]) as [Y |] eqn:HY; [| discriminate].
    destruct (int_of_digits 0 [m1; m2]) as [M |] eqn:HM; [| discriminate].
    destruct (int_of_digits 0 [d1; d2]) as [D |] eqn:HD; [| discriminate].
    unfold make_datetime.
    destruct (valid_date Y M D) eqn:Hvalid; [| discriminate].
    intros [= <-]. by exists d1, d2, m1, m2, y1, y2, y3, y4, D, M, Y.
  - intros (d1 & d2 & m1 & m2 & y1 & y2 & y3 & y4 & D & M & Y
            & -> & HD & HM & HY & Hday & Hmonth & Hvalid & ->).
    assert (Forall (fun c => is_digit c = true) [d1; d2; m1; m2; y1; y2; y3; y4])
      as Hd.
    { apply int_of_digits_digits in HD, HM, HY.
      change [d1; d2; m1; m2; y1; y2; y3; y4]
        with ([d1; d2] ++ [m1; m2] ++ [y1; y2; y3; y4]).
      by rewrite !Forall_app. }
    assert (re_fullmatch DATE_SHAPE [d1; d2; 46; m1; m2; 46; y1; y2; y3; y4] = true)
      as -> by (apply fullmatch_date_shape; by exists d1, d2, m1, m2, y1, y2, y3, y4).
    rewrite strptime_shape by done.
    rewrite Hday, Hmonth, HY, HM, HD. cbn [andb].
    unfold make_datetime. by rewrite Hvalid.
Qed.

End DateNames.

(** The examples of the specification. *)
Example is_date_sheet_examples :
  is_date_sheet (U := basic) (text "01.01.2024")
    = Some {| year := 2024; month := 1; day := 1 |}
  /\ is_date_sheet (U := basic) (text "31.02.2024") = None
  /\ is_date_sheet (U := basic) (text "01.13.2024") = None
  /\ is_date_sheet (U := basic) (text "2024.01.01") = None.
Proof. repeat split; vm_compute; reflexivity. Qed.

(** ** Numbers in text *)

Lemma skip_split p s :
  exists pre, s = pre ++ skip p s /\ Forall (fun c => p c = true) pre /\ stops p (skip p s).
Proof.
  induction s as [| c t (pre & Heq & Hpre & Hstop)]; [by exists [] |].
  simpl. destruct (p c) eqn:Hc.
  - exists (c :: pre). split; [by rewrite Heq at 1 |]. split; [by constructor | done].
  - by exists [].
Qed.

(** A run of characters of [p] that is followed by a stop is the longest
    such prefix. *)
Lemma run_prefix_le p pre u pre' u' :
  pre ++ u = pre' ++ u' ->
  Forall (fun c => p c = true) pre -> stops p u ->
  Forall (fun c => p c = true) pre' ->
  (length pre' <= length pre)%nat.
Proof.
  revert pre'. induction pre as [| c pre IH]; intros pre' Heq Hpre Hstop Hpre'.
  - destruct pre' as [| c' pre']; [done |]. simpl in Heq. subst u.
    apply Forall_cons in Hpre' as [Hc' _]. simpl in Hstop. congruence.
  - destruct pre' as [| c' pre']; [simpl; lia |].
    injection Heq as <- Heq. apply Forall_cons in Hpre as [_ Hpre].
    apply Forall_cons in Hpre' as [_ Hpre'].
    simpl. pose proof (IH pre' Heq Hpre Hstop Hpre'). lia.
Qed.

Lemma run_prefix_eq p pre u pre' u' :
  pre ++ u = pre' ++ u' ->
  Forall (fun c => p c = true) pre -> stops p u ->
  Forall (fun c => p c = true) pre' -> stops p u' ->
  pre = pre' /\ u = u'.
Proof.
  intros Heq Hpre Hu Hpre' Hu'.
  pose proof (run_prefix_le p pre u pre' u' Heq Hpre Hu Hpre') as H1.
  pose proof (run_prefix_le p pre' u' pre u (eq_sym Heq) Hpre' Hu' Hpre) as H2.
  apply app_inj_1 in Heq; [done | lia].
Qed.

Lemma many1_stops p s : stops p s -> many1 p s = [].
Proof. destruct s as [| c t]; simpl; [done |]. by intros ->. Qed.

(** The first suffix the greedy repetition offers is the one after the
    longest run. *)
Lemma many1_head p c t :
  p c = true -> exists l, many1 p (c :: t) = skip p t :: l.
Proof.
  revert c. induction t as [| c' t IH]; intros c Hc; simpl; rewrite Hc.
  - by exists [].
  - destruct (p c') eqn:Hc'.
    + destruct (IH c' Hc') as [l Hl]. simpl in Hl. rewrite Hc' in Hl.
      rewrite Hl. by exists (l ++ [c' :: t]).
    + by exists [].
Qed.

Section NumberText.
Context `{U : Runtime}.

Lemma minus_not_digit : is_digit 45 = false.
Proof.
  apply bool_decide_eq_false. intros H.
  pose proof (decimal_ascii_only 45 ltac:(lia) H). lia.
Qed.

Lemma dot_not_digit : is_digit 46 = false.
Proof.
  apply bool_decide_eq_false. intros H.
  pose proof (decimal_ascii_only 46 ltac:(lia) H). lia.
Qed.

Lemma run_fraction_head u :
  exists l, run (Opt (Cat (Chr 46) (Many1 is_digit))) u = lex_fraction u :: l.
Proof.
  cbn [run]. fold (run (Cat (Chr 46) (Many1 is_digit)) u). rewrite run_cat_chr.
  cbn [run]. unfold lex_fraction.
  destruct u as [| x w]; [by exists [] |].
  destruct w as [| c w]; [destruct (x =? 46); by exists [] |].
  destruct (x =? 46); [| by exists []]. cbn [andb].
  destruct (is_digit c) eqn:Hc.
  - destruct (many1_head is_digit c w Hc) as [l ->]. by eexists.
  - rewrite many1_stops by done. by exists [].
Qed.

Lemma run_unsigned_head s : head (run UNSIGNED s) = lex_unsigned s.
Proof.
  unfold UNSIGNED. cbn [run]. destruct s as [| c t]; [done |].
  unfold lex_unsigned. destruct (is_digit c) eqn:Hc.
  - destruct (many1_head is_digit c t Hc) as [l ->]. cbn [flat_map].
    destruct (run_fraction_head (skip is_digit t)) as [l' Hl'].
    cbn [run] in Hl'. by rewrite Hl'.
  - by rewrite many1_stops.
Qed.

Lemma run_number_head s : head (run NUMBER s) = lex_number s.
Proof.
  change NUMBER with (Cat (Opt (Chr 45)) UNSIGNED). cbn [run].
  destruct s as [| c t]; [done |]. unfold lex_number.
  destruct (Z.eqb_spec c 45) as [-> | Hc]; cbn [app flat_map].
  - pose proof (run_unsigned_head t) as Ht.
    pose proof (run_unsigned_head (45 :: t)) as Hs.
    unfold lex_unsigned at 1 in Hs. rewrite minus_not_digit in Hs.
    rewrite app_nil_r.
    destruct (run UNSIGNED t) as [| r l]; [| done].
    by rewrite <- Ht.
  - rewrite app_nil_r. apply run_unsigned_head.
Qed.

Lemma unsigned_text_head t :
  unsigned_text t -> exists c t', t = c :: t' /\ is_digit c = true.
Proof.
  intros (ip & fp & -> & [Hne Hip] & _).
  destruct ip as [| c ip]; [done |]. apply Forall_cons in Hip as [Hc _].
  by exists c, (ip ++ fp).
Qed.

Lemma lex_unsigned_none s t post :
  lex_unsigned s = None -> s = t ++ post -> ~ unsigned_text t.
Proof.
  intros Hlex -> Ht. apply unsigned_text_head in Ht as (c & t' & -> & Hc).
  simpl in Hlex. by rewrite Hc in Hlex.
Qed.

(** The first try of the pattern takes the longest unsigned number at the
    start of the text. *)
Lemma lex_unsigned_some s rest :
  lex_unsigned s = Some rest ->
  exists t, s = t ++ rest /\ unsigned_text t
            /\ forall t' post', s = t' ++ post' -> unsigned_text t' ->
                 (length t' <= length t)%nat.
Proof.
  destruct s as [| c t0]; [done |]. simpl.
  destruct (is_digit c) eqn:Hc; [| done]. intros [= <-].
  destruct (skip_split is_digit t0) as (pre & Ht0 & Hpre & Hstop).
  set (u := skip is_digit t0) in *.
  assert (digit_run (c :: pre)) as Hip by (split; [done | by constructor]).
  assert (forall ip' fp' post', c :: t0 = (ip' ++ fp') ++ post' -> digit_run ip' ->
            (length ip' <= length (c :: pre))%nat) as Hint.
  { intros ip' fp' post' Heq [_ Hip']. rewrite Ht0, <- app_assoc in Heq.
    apply (run_prefix_le is_digit (c :: pre) u ip' (fp' ++ post'));
      [exact Heq | by destruct Hip | done | done]. }
  assert (forall ip' fd' post', c :: t0 = (ip' ++ 46 :: fd') ++ post' -> digit_run ip' ->
            ip' = c :: pre /\ u = 46 :: fd' ++ post') as Hfrac.
  { intros ip' fd' post' Heq [_ Hip']. rewrite Ht0, <- app_assoc in Heq.
    destruct (run_prefix_eq is_digit (c :: pre) u ip' (46 :: fd' ++ post'))
      as [<- <-]; [exact Heq | by destruct Hip | done | done | | done].
    simpl. apply dot_not_digit. }
  unfold lex_fraction.
  destruct u as [| x [| c' w]] eqn:Hu.
  - exists (c :: pre). split; [by rewrite Ht0 |]. split.
    { exists (c :: pre), []. by rewrite app_nil_r; auto. }
    intros t' post' Heq (ip' & fp' & -> & Hip' & [-> | (fd' & -> & Hfd')]).
    + rewrite app_nil_r. by apply (Hint ip' [] post').
    + by destruct (Hfrac ip' fd' post' Heq Hip') as [_ ?].
  - exists (c :: pre). split; [by rewrite Ht0 |]. split.
    { exists (c :: pre), []. by rewrite app_nil_r; auto. }
    intros t' post' Heq (ip' & fp' & -> & Hip' & [-> | (fd' & -> & Hfd')]).
    + rewrite app_nil_r. by apply (Hint ip' [] post').
    + destruct (Hfrac ip' fd' post' Heq Hip') as [_ Hu'].
      destruct Hfd' as [Hne _]. destruct fd'; [done | discriminate].
  - destruct ((x =? 46) && is_digit c') eqn:Hdot.
    + apply andb_true_iff in Hdot as [->%Z.eqb_eq Hc'].
      destruct (skip_split is_digit w) as (pre2 & Hw & Hpre2 & Hstop2).
      exists ((c :: pre) ++ 46 :: c' :: pre2). split.
      { rewrite Ht0, <- app_assoc. simpl. by rewrite Hw at 1. }
      split.
      { exists (c :: pre), (46 :: c' :: pre2). split; [done |]. split; [done |].
        right. exists (c' :: pre2). split; [done |]. split; [done | by constructor]. }
      intros t' post' Heq (ip' & fp' & -> & Hip' & [-> | (fd' & -> & Hfd')]).
      * rewrite app_nil_r, length_app.
        pose proof (Hint ip' [] post' Heq Hip'). lia.
      * destruct (Hfrac ip' fd' post' Heq Hip') as [-> Hu'].
        injection Hu' as Hu'. rewrite Hw in Hu'.
        rewrite !length_app. simpl.
        pose proof (run_prefix_le is_digit (c' :: pre2) (skip is_digit w) fd' post')
          as Hle.
        simpl in Hle. specialize (Hle Hu' ltac:(by constructor) Hstop2).
        destruct Hfd' as [_ Hfd']. specialize (Hle Hfd'). lia.
    + exists (c :: pre). split; [by rewrite Ht0 |]. split.
      { exists (c :: pre), []. by rewrite app_nil_r; auto. }
      intros t' post' Heq (ip' & fp' & -> & Hip' & [-> | (fd' & -> & Hfd')]).
      * rewrite app_nil_r. by apply (Hint ip' [] post').
      * destruct (Hfrac ip' fd' post' Heq Hip') as [_ Hu'].
        destruct Hfd' as [Hne Hfd']. destruct fd' as [| c'' fd']; [done |].
        injection Hu' as -> -> _. apply Forall_cons in Hfd' as [Hc'' _].
        simpl in Hdot. congruence.
Qed.

Lemma lex_number_none s t post :
  lex_number s = None -> s = t ++ post -> ~ number_text t.
Proof.
  intros Hlex -> [Ht | (t' & -> & Ht')].
  - destruct (unsigned_text_head t Ht) as (c & t' & -> & Hc).
    unfold lex_number in Hlex. cbn [app] in Hlex.
    destruct (Z.eqb_spec c 45) as [-> | _].
    + by rewrite minus_not_digit in Hc.
    + by apply (lex_unsigned_none _ (c :: t') post Hlex).
  - unfold lex_number in Hlex. cbn [app] in Hlex. rewrite Z.eqb_refl in Hlex.
    by apply (lex_unsigned_none _ t' post Hlex).
Qed.

Lemma lex_number_some s rest :
  lex_number s = Some rest ->
  exists t, s = t ++ rest /\ number_text t
            /\ forall t' post', s = t' ++ post' -> number_text t' ->
                 (length t' <= length t)%nat.
Proof.
  destruct s as [| c t0]; [done |]. unfold lex_number.
  destruct (Z.eqb_spec c 45) as [-> | Hc]; intros Hlex.
  - destruct (lex_unsigned_some t0 rest Hlex) as (t & -> & Ht & Hmax).
    exists (45 :: t). split; [done |]. split; [right; by exists t |].
    intros t' post' Heq [Ht' | (t'' & -> & Ht'')].
    + destruct (unsigned_text_head t' Ht') as (c & t'' & -> & Hc).
      injection Heq as <- _. by rewrite minus_not_digit in Hc.
    + injection Heq as Heq. simpl. pose proof (Hmax t'' post' Heq Ht''). lia.
  - destruct (lex_unsigned_some (c :: t0) rest Hlex) as (t & Heq & Ht & Hmax).
    exists t. split; [done |]. split; [by left |].
    intros t' post' Heq' [Ht' | (t'' & -> & Ht'')]; [by apply (Hmax t' post') |].
    by injection Heq' as -> _.
Qed.

Lemma consumed_app t rest : consumed (t ++ rest) rest = t.
Proof.
  unfold consumed. rewrite length_app.
  replace (length t + length rest - length rest)%nat with (length t) by lia.
  by rewrite take_app_length.
Qed.

(** The search finds the first number of the text, and finds nothing only
    when there is none. *)
Lemma re_search_number s :
  match re_search NUMBER s with
  | Some t => first_number s t
  | None => no_number s
  end.
Proof.
  induction s as [| c s IH].
  - simpl. pose proof (run_number_head []) as Hhead.
    destruct (run NUMBER []) as [| rest l]; [| done].
    intros pre t post Heq.
    destruct pre; [| done]. by apply (lex_number_none [] t post).
  - cbn [re_search]. pose proof (run_number_head (c :: s)) as Hhead.
    destruct (run NUMBER (c :: s)) as [| rest l].
    + assert (forall t post, c :: s = t ++ post -> ~ number_text t) as Hnone
        by (intros t post; by apply lex_number_none).
      destruct (re_search NUMBER s) as [t |].
      * destruct IH as (pre & post & -> & Ht & Hfirst).
        exists (c :: pre), post. split; [done |]. split; [done |].
        intros pre' t' post' Heq Ht'. destruct pre' as [| c' pre'].
        { by destruct (Hnone t' post' Heq). }
        injection Heq as <- Heq. simpl.
        destruct (Hfirst pre' t' post' Heq Ht') as [? | [? ?]]; [left | right]; lia.
      * intros pre t post Heq. destruct pre as [| c' pre].
        { by apply (Hnone t post). }
        injection Heq as <- Heq. by apply (IH pre t post).
    + cbn [head] in Hhead. symmetry in Hhead.
      destruct (lex_number_some _ _ Hhead) as (t & Heq & Ht & Hmax).
      rewrite Heq, consumed_app. exists [], rest. split; [done |]. split; [done |].
      intros pre' t' post' Heq' Ht'. destruct pre' as [| c' pre'].
      * right. split; [done |]. rewrite <- Heq in Heq'. by apply (Hmax t' post').
      * left. simpl. lia.
Qed.

Lemma int_of_digits_total acc ds :
  Forall (fun c => is_digit c = true) ds -> exists n, int_of_digits acc ds = Some n.
Proof.
  intros Hds. revert acc. induction Hds as [| c ds Hc _ IH]; intros acc.
  - by exists acc.
  - simpl. apply is_digit_spec in Hc as [v ->]. apply IH.
Qed.

Lemma split_dot_digits ip rest :
  Forall (fun c => is_digit c = true) ip ->
  split_dot (ip ++ rest) = ((ip ++ (split_dot rest).1), (split_dot rest).2).
Proof.
  induction 1 as [| c ip Hc _ IH]; simpl; [by destruct (split_dot rest) |].
  rewrite (digit_not_dot c Hc), IH. reflexivity.
Qed.

(** [float] reads every unsigned integer or decimal. *)
Lemma float_of_body_total neg body :
  unsigned_text body -> exists x, float_of_body neg body = Ok x.
Proof.
  intros (ip & fp & -> & [Hne Hip] & Hfp). unfold float_of_body.
  rewrite (split_dot_digits ip fp Hip).
  destruct (int_of_digits_total 0 ip Hip) as [n Hn].
  destruct ip as [| c ip]; [done |].
  destruct Hfp as [-> | (fd & -> & [_ Hfd])].
  - cbn [split_dot fst snd default]. rewrite !app_nil_r, Hn.
    cbn [app int_of_digits]. by eexists.
  - cbn [split_dot fst snd default]. rewrite Z.eqb_refl.
    cbn [fst snd default]. rewrite !app_nil_r, Hn. unfold id.
    destruct (int_of_digits_total 0 fd Hfd) as [f ->].
    cbn [app]. by eexists.
Qed.

Lemma plus_not_digit : is_digit 43 = false.
Proof.
  apply bool_decide_eq_false. intros H.
  pose proof (decimal_ascii_only 43 ltac:(lia) H). lia.
Qed.

(** [float] reads every signed integer or decimal: it does not raise. *)
Lemma float_of_str_total t : number_text t -> exists x, float_of_str t = Ok x.
Proof.
  intros [Ht | (t' & -> & Ht')].
  - destruct (unsigned_text_head t Ht) as (c & t' & -> & Hc).
    unfold float_of_str.
    destruct (Z.eqb_spec c 45) as [-> | _]; [by rewrite minus_not_digit in Hc |].
    destruct (Z.eqb_spec c 43) as [-> | _]; [by rewrite plus_not_digit in Hc |].
    by apply float_of_body_total.
  - unfold float_of_str. rewrite Z.eqb_refl. by apply float_of_body_total.
Qed.

(** What [to_number] answers, case by case: 0 for an absent value, the
    value itself for a float, the value as a float for an integer of
    magnitude below 2^1024 - 2^970 and [OverflowError] for a larger one;
    for text it never raises: it answers the float reading of the first
    signed integer or decimal in the stripped text with commas replaced by
    full stops, and 0 when the text holds none.  (Floats being the numbers
    they denote, the rounding of a large integer or of a long decimal is
    not part of the statement.) *)
Theorem to_number_spec :
  to_number VNone = Ok 0%Q
  /\ (forall x, to_number (VFloat x) = Ok x)
  /\ (forall z, Z.abs z < FLOAT_INT_LIMIT -> to_number (VInt z) = Ok (inject_Z z))
  /\ (forall z, FLOAT_INT_LIMIT <= Z.abs z -> to_number (VInt z) = Raise OverflowError)
  /\ (forall s, exists x, to_number (VStr s) = Ok x)
  /\ (forall s t, first_number (replace 44 46 (strip s)) t ->
        to_number (VStr s) = float_of_str t)
  /\ (forall s, no_number (replace 44 46 (strip s)) -> to_number (VStr s) = Ok 0%Q).
Proof.
  assert (forall s,
            match re_search NUMBER (replace 44 46 (strip s)) with
            | Some t => first_number (replace 44 46 (strip s)) t
                        /\ to_number (VStr s) = float_of_str t
            | None => no_number (replace 44 46 (strip s))
                      /\ to_number (VStr s) = Ok 0%Q
            end) as Hsearch.
  { intros s. pose proof (re_search_number (replace 44 46 (strip s))) as H.
    unfold to_number, str_of.
    by destruct (re_search NUMBER (replace 44 46 (strip s))). }
  split; [done |]. split; [done |].
  split.
  { intros z Hz. unfold to_number, float_of_int.
    destruct (Z.ltb_spec (Z.abs z) FLOAT_INT_LIMIT); [done | lia]. }
  split.
  { intros z Hz. unfold to_number, float_of_int.
    destruct (Z.ltb_spec (Z.abs z) FLOAT_INT_LIMIT); [lia | done]. }
  split; [| split].
  - intros s. specialize (Hsearch s).
    destruct (re_search NUMBER (replace 44 46 (strip s))) as [t |].
    + destruct Hsearch as [(pre & post & _ & Ht & _) ->]. by apply float_of_str_total.
    + destruct Hsearch as [_ ->]. by eexists.
  - intros s t (pre & post & Heq & Ht & Hfirst). specialize (Hsearch s).
    destruct (re_search NUMBER (replace 44 46 (strip s))) as [t0 |].
    + destruct Hsearch as [(pre0 & post0 & Heq0 & Ht0 & Hfirst0) ->].
      destruct (Hfirst0 pre t post Heq Ht) as [Hlt | [Hpre Hlen]];
        destruct (Hfirst pre0 t0 post0 Heq0 Ht0) as [Hlt' | [Hpre' Hlen']]; try lia.
      rewrite Heq0 in Heq.
      apply app_inj_1 in Heq as [_ Heq]; [| done].
      apply app_inj_1 in Heq as [-> _]; [done | lia].
    + destruct Hsearch as [Hnone _]. by destruct (Hnone pre t post Heq).
  - intros s Hnone. specialize (Hsearch s).
    destruct (re_search NUMBER (replace 44 46 (strip s))) as [t |].
    + destruct Hsearch as [(pre & post & Heq & Ht & _) _].
      by destruct (Hnone pre t post Heq).
    + by destruct Hsearch as [_ ->].
Qed.

End NumberText.

(** C6: [to_number] does raise.  An integer cell value too large for a
    float, here 10^400, goes to [float] unguarded and ends the conversion
    with [OverflowError], where the function is to answer a float for
    every value. *)
Lemma to_number_raises_on_huge_int :
  to_number (U := basic) (VInt (10 ^ 400)) = Raise OverflowError.
Proof. vm_compute. reflexivity. Qed.

(** The examples of the specification: [to_number(7)], [to_number("abc")]
    and [to_number("1,5")]. *)
Lemma to_number_examples :
  to_number (U := basic) (VInt 7) = Ok 7%Q
  /\ to_number (U := basic) (VStr (text "abc")) = Ok 0%Q
  /\ to_number (U := basic) (VStr (text "1,5")) = Ok (3 # 2)%Q.
Proof.
  destruct (to_number_spec (U := basic))
    as (_ & _ & Hint & _ & _ & Hfirst & Hnone).
  split; [apply (Hint 7); vm_compute; reflexivity |].
  split.
  - apply Hnone. intros pre t post Heq Ht.
    assert (exists c t', t = c :: t' /\ (c = 45 \/ is_digit (U := basic) c = true))
      as (c & t' & -> & Hc).
    { destruct Ht as [Ht | (t' & -> & _)].
      - destruct (unsigned_text_head t Ht) as (c & t' & -> & Hc). eauto.
      - eauto. }
    assert (c ∈ text "abc") as Hin.
    { change (replace 44 46 (strip (text "abc"))) with (text "abc") in Heq.
      rewrite Heq. apply elem_of_app. right. by left. }
    vm_compute in Hin.
    repeat (apply elem_of_cons in Hin as [-> | Hin]);
      try (by apply elem_of_nil in Hin);
      destruct Hc as [? | Hc]; try lia; vm_compute in Hc; discriminate.
  - rewrite (Hfirst (text "1,5") (text "1.5")); [vm_compute; reflexivity |].
    pose proof (re_search_number (U := basic) (replace 44 46 (strip (text "1,5")))) as H.
    vm_compute in H. exact H.
Defined.

(** ** The scan window *)

Lemma always_ret {A} P (a : A) : always P (ret a).
Proof. constructor. Qed.

Lemma always_lift {A} P (o : outcome A) : always P (lift o).
Proof. constructor. Qed.

Lemma always_bind {A B} P (m : M A) (k : A -> M B) :
  always P m -> (forall a, result m = Ok a -> always P (k a)) -> always P (bind m k).
Proof.
  unfold always. intros Hm Hk. rewrite events_bind. apply Forall_app.
  split; [done |]. destruct (result m) as [a | e]; [by apply Hk | constructor].
Qed.

(** A loop whose body keeps an invariant of the state and causes only
    events of [P]. *)
Lemma always_for {A S} P (I : S -> Prop) (xs : list A) (body : A -> S -> M S) s :
  I s ->
  (forall x s, x ∈ xs -> I s -> always P (body x s) /\ post (body x s) I) ->
  always P (for_ xs body s) /\ post (for_ xs body s) I.
Proof.
  revert s. induction xs as [| x xs IH]; intros s Hs Hbody.
  - split; [apply always_ret | by apply post_ret].
  - rewrite for_cons.
    destruct (Hbody x s ltac:(left) Hs) as [Hev Hpost].
    assert (forall s', I s' ->
              always P (for_ xs body s') /\ post (for_ xs body s') I) as Hrest.
    { intros s' Hs'. apply IH; [done |]. intros y s'' Hy. apply Hbody. by right. }
    split.
    + apply always_bind; [done |]. intros s' Hs'. by apply Hrest, Hpost.
    + apply (post_bind _ _ I); [done |]. intros s' Hs'. by apply Hrest.
Qed.

Section Window.
Context `{U : Runtime}.
Variable ws : Worksheet.
Variables last_row last_col : Z.
Hypothesis merged_valid : forallb valid_range (merged ws) = true.

Lemma always_read_cell row col :
  1 <= row <= last_row -> 1 <= col <= last_col ->
  always (within last_row last_col) (read_cell ws row col).
Proof.
  intros Hr Hc. unfold read_cell, cell_top_left_of_merge.
  destruct (top_left (merged ws) row col) as [r0 c0] eqn:Hres.
  unfold always, cell_value. simpl. constructor; [| constructor]. simpl.
  destruct (top_left_cases (merged ws) row col) as [Hsame | (mr & Hin & Hmr & Hcorner)].
  - rewrite Hsame in Hres. injection Hres as <- <-. lia.
  - rewrite Hcorner in Hres. injection Hres as <- <-.
    rewrite forallb_forall in merged_valid.
    assert (valid_range mr = true) as Hvalid
      by (apply merged_valid; by apply list_elem_of_In).
    unfold valid_range in Hvalid. apply andb_true_iff in Hvalid as [H1 H2].
    apply Z.leb_le in H1, H2. apply contains_spec in Hmr. lia.
Qed.

(** The anchors the finder returns are cells of the window. *)
Lemma find_table_anchors_window :
  always (within last_row last_col) (find_table_anchors ws last_row last_col)
  /\ post (find_table_anchors ws last_row last_col)
       (Forall (fun p : Z * Z => in_window last_row last_col p.1 p.2 = true)).
Proof.
  unfold find_table_anchors.
  apply always_for; [constructor |]. intros r anchors Hr Hanchors.
  apply elem_of_range in Hr.
  apply always_for; [done |]. intros c anchors' Hc Hanchors'.
  apply elem_of_range in Hc. split.
  - apply always_bind; [apply always_read_cell; lia |]. intros v _.
    destruct (bool_decide _); apply always_ret.
  - apply (post_bind _ _ (fun _ => True)); [done |]. intros v _.
    destruct (bool_decide _); apply post_ret; [| done].
    apply Forall_app. split; [done |]. constructor; [| constructor].
    unfold in_window. simpl. rewrite !andb_true_iff, !Z.leb_le. lia.
Qed.

(** The detector stays in the window and records columns of the window. *)
Lemma detect_loop_window fuel hdr_row sub_row c stores :
  1 <= hdr_row <= last_row -> 1 <= sub_row <= last_row -> 1 <= c ->
  Forall (store_within last_col) stores ->
  always (within last_row last_col)
    (detect_loop fuel ws hdr_row sub_row last_col c stores)
  /\ post (detect_loop fuel ws hdr_row sub_row last_col c stores)
       (Forall (store_within last_col)).
Proof.
  intros Hhdr Hsub. revert c stores.
  induction fuel as [| fuel IH]; intros c stores Hc Hstores; simpl.
  - split; [apply always_ret | by apply post_ret].
  - destruct (Z.leb_spec c (last_col - 1));
      [| split; [apply always_ret | by apply post_ret]].
    split.
    + apply always_bind; [apply always_read_cell; lia |]. intros pka _.
      apply always_bind; [apply always_read_cell; lia |]. intros vat _.
      destruct (_ && _); [| apply IH; [lia | done]].
      apply always_bind; [apply always_read_cell; lia |]. intros name_raw _.
      apply IH; [lia |].
      apply Forall_app. split; [done |]. constructor; [unfold store_within; simpl; lia | constructor].
    + apply (post_bind _ _ (fun _ => True)); [done |]. intros pka _.
      apply (post_bind _ _ (fun _ => True)); [done |]. intros vat _.
      destruct (_ && _); [| apply IH; [lia | done]].
      apply (post_bind _ _ (fun _ => True)); [done |]. intros name_raw _.
      apply IH; [lia |].
      apply Forall_app. split; [done |]. constructor; [unfold store_within; simpl; lia | constructor].
Qed.

(** The extent finder stays in the window and answers a row of the window
    or an earlier one. *)
Lemma data_row_loop_window_rows fuel bread_col r blank :
  1 <= bread_col <= last_col -> 1 <= r <= last_row + 1 -> 0 <= blank ->
  always (within last_row last_col) (data_row_loop fuel ws bread_col last_row r blank)
  /\ post (data_row_loop fuel ws bread_col last_row r blank)
       (fun data_end => data_end <= last_row).
Proof.
  intros Hcol. revert r blank.
  induction fuel as [| fuel IH]; intros r blank Hr Hblank; simpl.
  - split; [apply always_ret | apply post_ret; lia].
  - destruct (Z.leb_spec r last_row);
      [| split; [apply always_ret | apply post_ret; lia]].
    split.
    + apply always_bind; [apply always_read_cell; lia |]. intros v _.
      destruct (bool_decide _); [| apply IH; lia].
      destruct (2 <=? blank + 1); [apply always_ret | apply IH; lia].
    + apply (post_bind _ _ (fun _ => True)); [done |]. intros v _.
      destruct (bool_decide _); [| apply IH; lia].
      destruct (2 <=? blank + 1); [apply post_ret; lia | apply IH; lia].
Qed.

Lemma sum_cell_window has_driver driver r st acc :
  1 <= r <= last_row -> store_within last_col st ->
  always (within last_row last_col) (sum_cell ws has_driver driver r st acc).
Proof.
  intros Hr [H1 H2]. unfold sum_cell. destruct acc as [stores_totals drivers_totals].
  apply always_bind; [apply always_read_cell; lia |]. intros vb _.
  apply always_bind; [apply always_lift |]. intros b _.
  apply always_bind; [apply always_read_cell; lia |]. intros vr _.
  apply always_bind; [apply always_lift |]. intros rv _.
  destruct has_driver; apply always_ret.
Qed.

(** The scan of the table at an anchor of the window, below row 1,
    requests cells of the window. *)
Lemma scan_table_window anchor acc :
  2 <= anchor.1 ->
  in_window last_row last_col anchor.1 anchor.2 = true ->
  always (within last_row last_col) (scan_table ws last_row last_col anchor acc).
Proof.
  destruct anchor as [anchor_row anchor_col]. simpl. intros Hrow Hw.
  unfold in_window in Hw. rewrite !andb_true_iff, !Z.leb_le in Hw.
  unfold scan_table.
  apply always_bind; [apply always_read_cell; lia |]. intros driver_raw _.
  destruct (detect_loop_window (Z.to_nat (last_col - (anchor_col + 2)))
              (anchor_row - 1) anchor_row (anchor_col + 2) [])
    as [Hdetect Hstores]; [lia | lia | lia | constructor |].
  apply always_bind; [exact Hdetect |]. intros stores Hres.
  apply Hstores in Hres.
  destruct (bool_decide (stores = [])); [apply always_ret |].
  destruct (data_row_loop_window_rows (Z.to_nat (last_row + 1 - (anchor_row + 1)))
              anchor_col (anchor_row + 1) 0)
    as [Hextent Hend]; [lia | lia | lia |].
  apply always_bind; [exact Hextent |]. intros data_end Hdata.
  apply Hend in Hdata.
  destruct (data_end <? anchor_row + 1); [apply always_ret |].
  unfold sum_rows.
  apply (always_for _ (fun _ => True)); [done |]. intros r acc' Hr _.
  apply elem_of_range in Hr. split; [| done].
  apply (always_for _ (fun _ => True)); [done |]. intros st acc'' Hst _.
  split; [| done]. apply sum_cell_window; [lia |].
  rewrite Forall_forall in Hres. by apply Hres.
Qed.

End Window.

Lemma always_weaken {A} (P Q : event -> Prop) (m : M A) :
  (forall e, P e -> Q e) -> always P m -> always Q m.
Proof. intros HPQ Hm. unfold always in *. by eapply Forall_impl. Qed.

(** C4: for a table whose anchor stands in row 1 the scan asks the
    worksheet for the cell in row 0 above it, outside the window, and the
    request ends the scan with [ValueError]. *)
Theorem scan_requests_row_zero :
  let run := scan_workbook (U := basic) [top_row_sheet] jan_1 dec_31 MAX_ROWS MAX_COLS in
  In (CellRead (title top_row_sheet) 0 1) (events run)
  /\ in_window MAX_ROWS MAX_COLS 0 1 = false
  /\ result run = Raise ValueError.
Proof.
  vm_compute. split; [| by split].
  repeat (first [by left | right]).
Qed.

(** ** Reading cells, continued *)

Lemma top_left_outside ranges row col :
  forallb valid_range ranges = true -> row < 1 \/ col < 1 ->
  top_left ranges row col = (row, col).
Proof.
  intros Hvalid Hout.
  destruct (top_left_cases ranges row col) as [H | (mr & Hin & Hc & _)]; [done |].
  rewrite forallb_forall in Hvalid.
  assert (valid_range mr = true) as Hmr by (apply Hvalid; by apply list_elem_of_In).
  unfold valid_range in Hmr. apply andb_true_iff in Hmr as [H1 H2].
  apply Z.leb_le in H1, H2. apply contains_spec in Hc. lia.
Qed.

(** A read above or left of the sheet raises. *)
Lemma read_cell_outside ws row col :
  forallb valid_range (merged ws) = true -> row < 1 \/ col < 1 ->
  read_cell ws row col = ([CellRead (title ws) row col], Raise ValueError).
Proof.
  intros Hvalid Hout. unfold read_cell, cell_top_left_of_merge.
  rewrite top_left_outside by done. unfold cell_value.
  destruct (Z.ltb_spec row 1), (Z.ltb_spec col 1); simpl; (done || lia).
Qed.

Lemma read_cell_request ws row col :
  forallb valid_range (merged ws) = true -> 1 <= row -> 1 <= col ->
  read_cell ws row col = ([request ws (row, col)], Ok (peek ws row col)).
Proof.
  intros Hvalid Hr Hc.
  destruct (read_cell_ok ws row col Hvalid Hr Hc) as (r0 & c0 & Hres & _ & _ & ->).
  unfold request. simpl. by rewrite Hres.
Qed.

(** On a sheet whose merged ranges start at row and column 1 or later, a
    read requests exactly one cell, the resolved one, which never lies
    below or right of the cell asked for; it raises [ValueError] exactly
    when the row or the column asked for is below 1, and otherwise
    delivers the value stored at the resolved cell, [None] when nothing is
    stored there. *)
Theorem read_cell_outcome ws row col :
  forallb valid_range (merged ws) = true ->
  exists r0 c0,
    cell_top_left_of_merge ws row col = (r0, c0)
    /\ r0 <= row /\ c0 <= col
    /\ read_cell ws row col =
       ([CellRead (title ws) r0 c0],
        if (row <? 1) || (col <? 1) then Raise ValueError
        else Ok (default VNone (cells ws !! (r0, c0)))).
Proof.
  intros Hvalid.
  destruct (Z.ltb_spec row 1) as [Hr | Hr]; [| destruct (Z.ltb_spec col 1) as [Hc | Hc]].
  - exists row, col. unfold cell_top_left_of_merge.
    rewrite top_left_outside by (done || lia).
    repeat split; [lia | lia |]. apply read_cell_outside; [done | lia].
  - exists row, col. unfold cell_top_left_of_merge.
    rewrite top_left_outside by (done || lia).
    repeat split; [lia | lia |]. rewrite orb_true_r. apply read_cell_outside; [done | lia].
  - destruct (read_cell_ok ws row col Hvalid Hr Hc) as (r0 & c0 & Hres & H1 & H2 & ->).
    exists r0, c0. repeat split; [done | lia | lia |].
    unfold peek. by rewrite Hres.
Qed.

(** The second cell of the merged title: the request goes to (2, 1). *)
Lemma read_cell_outcome_witness :
  exists r0 c0,
    cell_top_left_of_merge merged_title_sheet 2 2 = (r0, c0)
    /\ r0 <= 2 /\ c0 <= 2
    /\ read_cell merged_title_sheet 2 2 =
       ([CellRead (title merged_title_sheet) r0 c0],
        if (2 <? 1) || (2 <? 1) then Raise ValueError
        else Ok (default VNone (cells merged_title_sheet !! (r0, c0)))).
Proof. apply (read_cell_outcome merged_title_sheet 2 2). reflexivity. Defined.

(** On a sheet whose merged ranges do not overlap, reading any cell of a
    merged range is reading the range's top-left cell. *)
Theorem merged_cell_reads_corner ws mr row col :
  no_overlap (merged ws) = true -> mr ∈ merged ws -> contains mr row col = true ->
  read_cell ws row col = cell_value ws (min_row mr) (min_col mr).
Proof.
  intros Hno Hin Hc. unfold read_cell, cell_top_left_of_merge.
  by rewrite (top_left_of_member _ mr).
Qed.

(** The second cell of the merged title reads as the first. *)
Lemma merged_cell_reads_corner_witness :
  read_cell merged_title_sheet 2 2 = cell_value merged_title_sheet 2 1.
Proof.
  apply (merged_cell_reads_corner merged_title_sheet
           {| min_row := 2; min_col := 1; max_row := 2; max_col := 2 |} 2 2);
    [reflexivity | by left | reflexivity].
Defined.

(** ** Loops that succeed *)

Lemma succeeds_ret {A} (a : A) : succeeds (ret a).
Proof. by exists a. Qed.

Lemma succeeds_bind {A B} (m : M A) (k : A -> M B) :
  succeeds m -> (forall a, result m = Ok a -> succeeds (k a)) -> succeeds (bind m k).
Proof.
  intros [a Ha] Hk. destruct (Hk a Ha) as [b Hb]. exists b.
  by rewrite (result_bind _ _ a).
Qed.

Lemma succeeds_for {A S} (I : S -> Prop) (xs : list A) (body : A -> S -> M S) s :
  I s ->
  (forall x s, x ∈ xs -> I s -> succeeds (body x s) /\ post (body x s) I) ->
  succeeds (for_ xs body s) /\ post (for_ xs body s) I.
Proof.
  revert s. induction xs as [| x xs IH]; intros s Hs Hbody.
  - split; [apply succeeds_ret | by apply post_ret].
  - rewrite for_cons.
    destruct (Hbody x s ltac:(left) Hs) as [Hok Hpost].
    assert (forall s', I s' ->
              succeeds (for_ xs body s') /\ post (for_ xs body s') I) as Hrest.
    { intros s' Hs'. apply IH; [done |]. intros y s'' Hy. apply Hbody. by right. }
    split.
    + apply succeeds_bind; [done |]. intros s' Hs'. by apply Hrest, Hpost.
    + apply (post_bind _ _ I); [done |]. intros s' Hs'. by apply Hrest.
Qed.

(** The events of a loop whose runs all succeed. *)
Lemma for_events {A S} (xs : list A) (body : A -> S -> M S) (ev : A -> list event) s :
  (forall x s, x ∈ xs -> events (body x s) = ev x /\ succeeds (body x s)) ->
  events (for_ xs body s) = flat_map ev xs /\ succeeds (for_ xs body s).
Proof.
  revert s. induction xs as [| x xs IH]; intros s Hbody.
  - split; [done | apply succeeds_ret].
  - rewrite for_cons. destruct (Hbody x s ltac:(left)) as [Hev [s' Hs']].
    destruct (IH s') as [Hevs Hok]; [intros y s'' Hy; apply Hbody; by right |].
    split.
    + rewrite events_bind, Hs', Hev, Hevs. done.
    + destruct Hok as [s'' Hs'']. exists s''. by rewrite (result_bind _ _ s').
Qed.

(** ** The anchors of a window *)

Section AnchorList.
Context `{U : Runtime}.
Variable ws : Worksheet.
Hypothesis merged_valid : forallb valid_range (merged ws) = true.

Lemma anchor_row_filter cols anchors r :
  anchor_row ws cols anchors r =
  anchors ++ List.filter (fun p : Z * Z => is_anchor ws p.1 p.2) (map (pair r) cols).
Proof.
  unfold anchor_row. revert anchors.
  induction cols as [| c cols IH]; intros anchors; simpl.
  - by rewrite app_nil_r.
  - rewrite IH. unfold anchor_step.
    destruct (is_anchor ws r c); [| done]. by rewrite <- app_assoc.
Qed.

Lemma anchors_filter rows cols anchors :
  foldl (anchor_row ws cols) anchors rows =
  anchors ++ List.filter (fun p : Z * Z => is_anchor ws p.1 p.2)
               (flat_map (fun r => map (pair r) cols) rows).
Proof.
  revert anchors. induction rows as [| r rows IH]; intros anchors; simpl.
  - by rewrite app_nil_r.
  - rewrite IH, anchor_row_filter, List.filter_app. by rewrite <- app_assoc.
Qed.

Lemma find_table_anchors_list last_row last_col :
  result (find_table_anchors ws last_row last_col) =
  Ok (List.filter (fun p : Z * Z => is_anchor ws p.1 p.2) (window_cells last_row last_col)).
Proof.
  rewrite find_table_anchors_result by done. by rewrite anchors_filter.
Qed.

Lemma elem_of_window_cells last_row last_col r c :
  (r, c) ∈ window_cells last_row last_col <-> in_window last_row last_col r c = true.
Proof.
  unfold window_cells, in_window. rewrite !andb_true_iff, !Z.leb_le.
  rewrite list_elem_of_In, in_flat_map. split.
  - intros (r' & Hr & Hc). apply list_elem_of_In, elem_of_range in Hr.
    apply in_map_iff in Hc as (c' & [= <- <-] & Hc).
    apply list_elem_of_In, elem_of_range in Hc. lia.
  - intros Hw. exists r. split.
    + apply list_elem_of_In, elem_of_range. lia.
    + apply in_map, list_elem_of_In, elem_of_range. lia.
Qed.

(** The anchor finder never raises on a sheet whose merged ranges start at
    row and column 1 or later: it answers the cells of the window that
    read, through the resolver, as the anchor phrase, each once, in
    row-major order. *)
Theorem find_table_anchors_exact last_row last_col :
  exists anchors,
    result (find_table_anchors ws last_row last_col) = Ok anchors
    /\ anchors = List.filter (fun p : Z * Z => is_anchor ws p.1 p.2)
                   (window_cells last_row last_col)
    /\ forall r c, (r, c) ∈ anchors <->
         in_window last_row last_col r c = true /\ is_anchor ws r c = true.
Proof.
  eexists. split; [apply find_table_anchors_list |]. split; [done |].
  intros r c. rewrite list_elem_of_In, filter_In, <- list_elem_of_In.
  by rewrite elem_of_window_cells.
Qed.

(** The finder requests every cell of the window once, row by row, each
    through the resolver, and nothing else. *)
Theorem find_table_anchors_requests last_row last_col :
  events (find_table_anchors ws last_row last_col)
  = map (request ws) (window_cells last_row last_col)
  /\ length (events (find_table_anchors ws last_row last_col))
     = (Z.to_nat last_row * Z.to_nat last_col)%nat.
Proof.
  assert (events (find_table_anchors ws last_row last_col)
          = map (request ws) (window_cells last_row last_col)) as Hev.
  { unfold find_table_anchors, window_cells.
    rewrite flat_map_concat_map, concat_map, map_map, <- flat_map_concat_map.
    apply for_events. intros r anchors Hr. apply elem_of_range in Hr.
    rewrite map_map.
    replace (map (fun c => request ws (r, c)) (range 1 (last_col + 1)))
      with (flat_map (fun c => [request ws (r, c)]) (range 1 (last_col + 1)))
      by (rewrite flat_map_concat_map; induction (range 1 (last_col + 1)); simpl; congruence).
    apply for_events. intros c anchors' Hc. apply elem_of_range in Hc.
    rewrite read_cell_request by (done || lia). rewrite bind_ok.
    destruct (bool_decide _); simpl; (split; [done | by eexists]). }
  split; [done |]. rewrite Hev, length_map. unfold window_cells.
  rewrite flat_map_constant_length with (c := Z.to_nat last_col).
  - unfold range. rewrite length_seqZ. lia.
  - intros r _. rewrite length_map. unfold range. rewrite length_seqZ. lia.
Qed.

End AnchorList.

(** A window of 4 by 4: sixteen requests. *)
Lemma find_table_anchors_requests_witness :
  length (events (find_table_anchors (U := basic) merged_title_sheet 4 4)) = 16%nat.
Proof.
  destruct (find_table_anchors_requests (U := basic) merged_title_sheet eq_refl 4 4)
    as [_ ->].
  reflexivity.
Defined.

(** The merged title of two cells in a window of 4 by 4: two anchors. *)
Lemma find_table_anchors_exact_witness :
  result (find_table_anchors (U := basic) merged_title_sheet 4 4) = Ok [(2, 1); (2, 2)].
Proof.
  destruct (find_table_anchors_exact (U := basic) merged_title_sheet eq_refl 4 4)
    as (anchors & -> & -> & _).
  vm_compute. reflexivity.
Defined.

(** ** The stores the detector records *)

Section DetectedStores.
Context `{U : Runtime}.
Variable ws : Worksheet.
Variables hdr_row sub_row last_col : Z.
Hypothesis merged_valid : forallb valid_range (merged ws) = true.
Hypothesis hdr_row_pos : 1 <= hdr_row.
Hypothesis sub_row_pos : 1 <= sub_row.

Lemma detect_loop_sound fuel c :
  1 <= c ->
  exists found,
    result (detect_loop fuel ws hdr_row sub_row last_col c []) = Ok found
    /\ Forall (detected ws hdr_row sub_row last_col) found
    /\ spaced_from c (map pka_col found).
Proof.
  revert c. induction fuel as [| fuel IH]; intros c Hc; simpl.
  - exists []. by repeat split.
  - destruct (Z.leb_spec c (last_col - 1)) as [Hlast | Hlast];
      [| exists []; by repeat split].
    rewrite !result_bind_read by (done || lia).
    fold (is_pair (peek ws sub_row c) (peek ws sub_row (c + 1))).
    destruct (is_pair (peek ws sub_row c) (peek ws sub_row (c + 1))) eqn:Hpair.
    + rewrite result_bind_read by (done || lia).
      rewrite detect_loop_acc.
      destruct (IH (c + 3) ltac:(lia)) as (found & Hres & Hfound & Hcols).
      rewrite (result_bind _ _ found) by done.
      eexists. split; [reflexivity |]. split.
      * constructor; [| done]. unfold detected. simpl. by repeat split; try lia.
      * simpl. split; [lia | done].
    + destruct (IH (c + 1) ltac:(lia)) as (found & Hres & Hfound & Hcols).
      exists found. repeat split; [done | done |].
      destruct found as [| st found]; [done |]. simpl in *. split; [lia | tauto].
Qed.

Lemma store_at_named name_raw c : name (store_at name_raw c) <> [].
Proof.
  unfold store_at. simpl.
  destruct (bool_decide (display name_raw = [])) eqn:H; [done |].
  by apply bool_decide_eq_false in H.
Qed.

(** With the header and the subheader row on the sheet, the detector never
    raises.  Every store it records stands on a pair of adjacent columns,
    within the last column, whose subheaders read "brought" and
    "returned"; its name is the display text of the header cell above the
    first of them, or the placeholder, and never empty; the pairs are
    recorded from left to right, from the start column on, at least three
    columns apart. *)
Theorem detect_store_columns_sound start_col :
  1 <= start_col ->
  exists stores,
    result (detect_store_columns ws hdr_row sub_row start_col last_col) = Ok stores
    /\ Forall (detected ws hdr_row sub_row last_col) stores
    /\ Forall (fun st => name st <> []) stores
    /\ spaced_from start_col (map pka_col stores).
Proof.
  intros Hstart. unfold detect_store_columns.
  destruct (detect_loop_sound (Z.to_nat (last_col - start_col)) start_col Hstart)
    as (stores & Hres & Hstores & Hcols).
  exists stores. repeat split; [done | done | | done].
  eapply Forall_impl; [exact Hstores |].
  intros st (_ & _ & _ & ->). apply store_at_named.
Qed.

End DetectedStores.

(** The end-to-end example: one store, on the columns 3 and 4. *)
Lemma detect_store_columns_sound_witness :
  exists stores,
    result (detect_store_columns (U := basic) delivery_sheet 1 2 3 5) = Ok stores
    /\ Forall (detected (U := basic) delivery_sheet 1 2 5) stores
    /\ Forall (fun st => name st <> []) stores
    /\ spaced_from 3 (map pka_col stores).
Proof.
  apply (detect_store_columns_sound (U := basic) delivery_sheet 1 2 5 eq_refl); lia.
Defined.

(** ** Scans that succeed, scans that fail *)

Lemma raises_only_ret {A} P (a : A) : raises_only P (ret a).
Proof. intros e He. discriminate. Qed.

Lemma raises_only_bind {A B} P (m : M A) (k : A -> M B) :
  raises_only P m -> (forall a, result m = Ok a -> raises_only P (k a)) ->
  raises_only P (bind m k).
Proof.
  intros Hm Hk e He. destruct (result m) as [a | e'] eqn:Hres.
  - rewrite (result_bind _ _ a) in He by done. by apply (Hk a).
  - rewrite (result_bind_raise _ _ e') in He by done. injection He as <-. by apply Hm.
Qed.

Lemma raises_only_for {A S} P (I : S -> Prop) (xs : list A) (body : A -> S -> M S) s :
  I s ->
  (forall x s, x ∈ xs -> I s -> raises_only P (body x s) /\ post (body x s) I) ->
  raises_only P (for_ xs body s) /\ post (for_ xs body s) I.
Proof.
  revert s. induction xs as [| x xs IH]; intros s Hs Hbody.
  - split; [apply raises_only_ret | by apply post_ret].
  - rewrite for_cons.
    destruct (Hbody x s ltac:(left) Hs) as [Hraise Hpost].
    assert (forall s', I s' ->
              raises_only P (for_ xs body s') /\ post (for_ xs body s') I) as Hrest.
    { intros s' Hs'. apply IH; [done |]. intros y s'' Hy. apply Hbody. by right. }
    split.
    + apply raises_only_bind; [done |]. intros s' Hs'. by apply Hrest, Hpost.
    + apply (post_bind _ _ I); [done |]. intros s' Hs'. by apply Hrest.
Qed.

Lemma raises_only_read_cell ws row col :
  raises_only (fun e => e = ValueError) (read_cell ws row col).
Proof.
  intros e. unfold read_cell. destruct (cell_top_left_of_merge ws row col) as [r0 c0].
  unfold cell_value, result. simpl. destruct (_ || _); congruence.
Qed.

Lemma raises_only_weaken {A} (P Q : exn -> Prop) (m : M A) :
  (forall e, P e -> Q e) -> raises_only P m -> raises_only Q m.
Proof. intros HPQ Hm e He. by apply HPQ, Hm. Qed.

(** A loop one of whose runs always raises does not end normally. *)
Lemma for_raises {A S} (xs : list A) (body : A -> S -> M S) s x0 :
  x0 ∈ xs -> (forall s, exists e, result (body x0 s) = Raise e) ->
  exists e, result (for_ xs body s) = Raise e.
Proof.
  intros Hin Hx0. revert s. induction xs as [| x xs IH]; intros s.
  - by apply elem_of_nil in Hin.
  - rewrite for_cons. destruct (result (body x s)) as [s' | e] eqn:Hres.
    + rewrite (result_bind _ _ s') by done.
      apply elem_of_cons in Hin as [-> | Hin]; [| by apply IH].
      destruct (Hx0 s) as [e He]. congruence.
    + exists e. by apply result_bind_raise.
Qed.

Section Outcomes.
Context `{U : Runtime}.

Lemma to_number_text s : exists x, to_number (VStr s) = Ok x.
Proof.
  pose proof (re_search_number (replace 44 46 (strip s))) as H.
  unfold to_number, str_of.
  destruct (re_search NUMBER (replace 44 46 (strip s))) as [t |]; [| by eexists].
  destruct H as (pre & post & _ & Ht & _). by apply float_of_str_total.
Qed.

Lemma to_number_float_sized v : float_sized v = true -> exists x, to_number v = Ok x.
Proof.
  destruct v as [| z | x | s]; simpl; intros Hv.
  - by eexists.
  - unfold float_of_int. rewrite Hv. by eexists.
  - by eexists.
  - apply to_number_text.
Qed.

Lemma raises_only_to_number v :
  raises_only (fun e => e = OverflowError) (lift (to_number v)).
Proof.
  intros e. unfold lift, result. simpl. destruct v as [| z | x | s]; simpl; try discriminate.
  - unfold float_of_int. destruct (_ <? _); congruence.
  - destruct (to_number_text s) as [x Hx]. simpl in Hx. rewrite Hx. discriminate.
Qed.

Lemma peek_float_sized ws row col :
  float_sized_cells ws = true -> float_sized (peek ws row col) = true.
Proof.
  intros Hws. unfold peek. destruct (cell_top_left_of_merge ws row col) as [r0 c0].
  destruct (cells ws !! (r0, c0)) as [v |] eqn:Hv; simpl; [| done].
  unfold float_sized_cells in Hws. rewrite forallb_forall in Hws.
  apply (Hws ((r0, c0), v)). apply list_elem_of_In. by apply elem_of_map_to_list.
Qed.

Lemma raises_only_detect_loop fuel ws hdr_row sub_row last_col c stores :
  raises_only scan_exn (detect_loop fuel ws hdr_row sub_row last_col c stores).
Proof.
  revert c stores. induction fuel as [| fuel IH]; intros c stores; simpl.
  - apply raises_only_ret.
  - destruct (c <=? last_col - 1); [| apply raises_only_ret].
    apply raises_only_bind;
      [eapply raises_only_weaken; [| apply raises_only_read_cell]; by left |].
    intros pka _.
    apply raises_only_bind;
      [eapply raises_only_weaken; [| apply raises_only_read_cell]; by left |].
    intros vat _. destruct (_ && _); [| apply IH].
    apply raises_only_bind;
      [eapply raises_only_weaken; [| apply raises_only_read_cell]; by left |].
    intros name_raw _. apply IH.
Qed.

Lemma raises_only_data_row_loop fuel ws bread_col last_row r blank :
  raises_only scan_exn (data_row_loop fuel ws bread_col last_row r blank).
Proof.
  revert r blank. induction fuel as [| fuel IH]; intros r blank; simpl.
  - apply raises_only_ret.
  - destruct (r <=? last_row); [| apply raises_only_ret].
    apply raises_only_bind;
      [eapply raises_only_weaken; [| apply raises_only_read_cell]; by left |].
    intros v _. destruct (bool_decide _); [| apply IH].
    destruct (2 <=? blank + 1); [apply raises_only_ret | apply IH].
Qed.

Lemma raises_only_sum_cell ws has_driver driver r st acc :
  raises_only scan_exn (sum_cell ws has_driver driver r st acc).
Proof.
  unfold sum_cell. destruct acc as [stores_totals drivers_totals].
  apply raises_only_bind;
    [eapply raises_only_weaken; [| apply raises_only_read_cell]; by left |].
  intros vb _.
  apply raises_only_bind;
    [eapply raises_only_weaken; [| apply raises_only_to_number]; by right |].
  intros b _.
  apply raises_only_bind;
    [eapply raises_only_weaken; [| apply raises_only_read_cell]; by left |].
  intros vr _.
  apply raises_only_bind;
    [eapply raises_only_weaken; [| apply raises_only_to_number]; by right |].
  intros rv _. destruct has_driver; apply raises_only_ret.
Qed.

Lemma raises_only_scan_table ws last_row last_col anchor acc :
  raises_only scan_exn (scan_table ws last_row last_col anchor acc).
Proof.
  unfold scan_table. destruct anchor as [anchor_row anchor_col].
  apply raises_only_bind;
    [eapply raises_only_weaken; [| apply raises_only_read_cell]; by left |].
  intros driver_raw _.
  apply raises_only_bind; [apply raises_only_detect_loop |]. intros stores _.
  destruct (bool_decide (stores = [])); [apply raises_only_ret |].
  apply raises_only_bind; [apply raises_only_data_row_loop |]. intros data_end _.
  destruct (data_end <? anchor_row + 1); [apply raises_only_ret |].
  unfold sum_rows.
  apply (raises_only_for _ (fun _ => True)); [done |]. intros r acc' _ _.
  split; [| done].
  apply (raises_only_for _ (fun _ => True)); [done |]. intros st acc'' _ _.
  split; [| done]. apply raises_only_sum_cell.
Qed.

Lemma raises_only_scan_sheet ws max_rows max_cols acc :
  raises_only scan_exn (scan_sheet ws max_rows max_cols acc).
Proof.
  unfold scan_sheet.
  apply raises_only_bind.
  { unfold find_table_anchors.
    apply (raises_only_for _ (fun _ => True)); [done |]. intros r anchors _ _.
    split; [| done].
    apply (raises_only_for _ (fun _ => True)); [done |]. intros c anchors' _ _.
    split; [| done].
    apply raises_only_bind;
      [eapply raises_only_weaken; [| apply raises_only_read_cell]; by left |].
    intros v _. destruct (bool_decide _); apply raises_only_ret. }
  intros anchors _.
  apply raises_only_bind.
  { intros e He. unfold result, lift, get_column_letter in He. simpl in He.
    destruct (_ && _); [discriminate |]. injection He as <-. by left. }
  intros _ _.
  apply raises_only_bind; [intros e He; discriminate |]. intros _ _.
  apply (raises_only_for _ (fun _ => True)); [done |]. intros anchor acc' _ _.
  split; [| done]. apply raises_only_scan_table.
Qed.

(** Whatever the workbook, a scan raises nothing but [ValueError] (from a
    cell request or from naming a column) and [OverflowError] (from the
    conversion of an integer):
    in particular the lookup of a selected sheet by its name never fails. *)
Theorem scan_workbook_exceptions (wb : list Worksheet) (date_from date_to : datetime)
    (max_rows max_cols : Z) (e : exn) :
  result (scan_workbook wb date_from date_to max_rows max_cols) = Raise e ->
  e = ValueError \/ e = OverflowError.
Proof.
  revert e. change (raises_only scan_exn (scan_workbook wb date_from date_to max_rows max_cols)).
  unfold scan_workbook.
  apply raises_only_bind; [intros e He; discriminate |]. intros _ _.
  apply raises_only_bind.
  - apply (raises_only_for _ (fun _ => True)); [done |]. intros k [acc done] Hk _.
    split; [| done]. unfold sheet_step.
    apply list_elem_of_In, filter_In in Hk as [Hk _]. apply list_elem_of_In in Hk.
    destruct (wb_getitem_ok wb k Hk) as (ws & -> & _).
    change (lift (Ok ws)) with (ret ws). rewrite bind_ret_l.
    apply raises_only_bind; [apply raises_only_scan_sheet |]. intros acc' _.
    apply raises_only_bind; [intros e He; discriminate |]. intros _ _.
    apply raises_only_ret.
  - intros [[st dr] done] _. apply raises_only_ret.
Qed.

End Outcomes.

(** The anchor in row 1: the scan raises [ValueError]. *)
Lemma scan_workbook_exceptions_witness :
  ValueError = ValueError \/ ValueError = OverflowError.
Proof.
  apply (scan_workbook_exceptions (U := basic) [top_row_sheet] jan_1 dec_31
           MAX_ROWS MAX_COLS ValueError).
  vm_compute. reflexivity.
Defined.

Lemma spaced_from_bound c cols : spaced_from c cols -> Forall (fun a => c <= a) cols.
Proof.
  revert c. induction cols as [| a cols IH]; intros c; simpl; [constructor |].
  intros [Ha Hcols]. constructor; [done |].
  eapply Forall_impl; [by apply IH |]. simpl. lia.
Qed.

Lemma filter_first {A} (P : A -> bool) (l : list A) x :
  In x l -> P x = true -> exists y l', List.filter P l = y :: l'.
Proof.
  intros Hin HP. destruct (List.filter P l) as [| y l'] eqn:Hf; [| by eauto].
  assert (In x (List.filter P l)) as H by (by apply filter_In). rewrite Hf in H. done.
Qed.

Section FailingScan.
Context `{U : Runtime}.
Variable ws : Worksheet.
Hypothesis merged_valid : forallb valid_range (merged ws) = true.

Lemma scan_table_top_row last_row last_col c acc :
  result (scan_table ws last_row last_col (1, c) acc) = Raise ValueError.
Proof.
  unfold scan_table. apply result_bind_raise.
  rewrite read_cell_outside by (done || lia). done.
Qed.

Lemma scan_sheet_top_row max_rows max_cols c acc :
  in_window (window_of ws max_rows max_cols).1 (window_of ws max_rows max_cols).2 1 c = true ->
  is_anchor ws 1 c = true ->
  result (scan_sheet ws max_rows max_cols acc) = Raise ValueError.
Proof.
  unfold window_of, scan_sheet. simpl.
  set (last_row := Z.min _ max_rows). set (last_col := Z.min _ max_cols).
  intros Hw Hanchor. unfold in_window in Hw. rewrite !andb_true_iff, !Z.leb_le in Hw.
  rewrite (result_bind _ _ _ (find_table_anchors_list ws merged_valid last_row last_col)).
  unfold get_column_letter.
  destruct ((1 <=? last_col) && (last_col <=? 18278)); [| reflexivity].
  rewrite bind_lift_ok, (result_bind _ _ tt) by done.
  unfold window_cells, range.
  rewrite (seqZ_cons 1 (last_row + 1 - 1)) by lia. cbn [flat_map].
  rewrite List.filter_app.
  destruct (filter_first (fun p : Z * Z => is_anchor ws p.1 p.2)
              (map (pair 1) (seqZ 1 (last_col + 1 - 1))) (1, c)) as (y & l' & Hy).
  { apply in_map, list_elem_of_In, elem_of_seqZ. lia. }
  { done. }
  assert (In y (List.filter (fun p : Z * Z => is_anchor ws p.1 p.2)
                  (map (pair 1) (seqZ 1 (last_col + 1 - 1))))) as Hin
    by (rewrite Hy; by left).
  apply filter_In in Hin as [Hin _]. apply in_map_iff in Hin as (c' & <- & _).
  rewrite Hy. simpl. apply result_bind_raise. apply scan_table_top_row.
Qed.

End FailingScan.

Section FailingWorkbook.
Context `{U : Runtime}.

(** The scan of a sheet whose window holds, in row 1, a cell that reads
    as the anchor phrase raises [ValueError], whatever has been summed so
    far; a workbook in which such a sheet is selected is not scanned to
    the end: the scan raises and returns no totals. *)
Theorem top_row_anchor_fails (wb : list Worksheet) (date_from date_to : datetime)
    (max_rows max_cols : Z) (ws : Worksheet) (c : Z) :
  forallb valid_range (merged ws) = true ->
  in_window (window_of ws max_rows max_cols).1 (window_of ws max_rows max_cols).2 1 c = true ->
  is_anchor ws 1 c = true ->
  (forall acc, result (scan_sheet ws max_rows max_cols acc) = Raise ValueError)
  /\ (title ws ∈ selected wb date_from date_to ->
      wb_getitem wb (title ws) = Ok ws ->
      exists e, result (scan_workbook wb date_from date_to max_rows max_cols) = Raise e).
Proof.
  intros Hvalid Hw Hanchor.
  assert (forall acc, result (scan_sheet ws max_rows max_cols acc) = Raise ValueError)
    as Hsheet by (intros acc; by eapply scan_sheet_top_row).
  split; [done |]. intros Hsel Hget.
  unfold scan_workbook. rewrite (result_bind _ _ tt) by done.
  unfold selected in Hsel. rewrite <- filter_in_date_range in Hsel.
  destruct (for_raises
              (List.filter (in_date_range date_from date_to) (map title wb))
              (sheet_step wb max_rows max_cols
                 (length (List.filter (in_date_range date_from date_to) (map title wb))))
              (∅, ∅, O) (title ws) Hsel) as [e He].
  - intros [acc done]. exists ValueError. unfold sheet_step. rewrite Hget.
    change (lift (Ok ws)) with (ret ws). rewrite bind_ret_l.
    apply result_bind_raise, Hsheet.
  - exists e. by apply result_bind_raise.
Qed.

End FailingWorkbook.

(** The table whose anchor stands in row 1. *)
Lemma top_row_anchor_fails_witness :
  exists e,
    result (scan_workbook (U := basic) [top_row_sheet] jan_1 dec_31 MAX_ROWS MAX_COLS)
    = Raise e.
Proof.
  destruct (top_row_anchor_fails (U := basic) [top_row_sheet] jan_1 dec_31
              MAX_ROWS MAX_COLS top_row_sheet 1) as [_ H];
    [reflexivity | reflexivity | vm_compute; reflexivity |].
  apply H; [| reflexivity].
  vm_compute. by left.
Defined.

(** ** The window of a scan *)

Section WindowOfScan.
Context `{U : Runtime}.
Variable wb : list Worksheet.
Variables max_rows max_cols : Z.

Lemma stays_within_bind {A B} (m : M A) (k : A -> M B) :
  stays_within wb max_rows max_cols m ->
  (forall a, result m = Ok a -> stays_within wb max_rows max_cols (k a)) ->
  stays_within wb max_rows max_cols (bind m k).
Proof.
  destruct m as [l [a | e]]; intros Hm Hk.
  2: { rewrite bind_raise.
       destruct Hm as [Hm | (l' & e' & Hev & Hl' & He & Hres)]; [by left |].
       right. exists l', e'. simpl in *. by injection Hres as ->. }
  assert (Forall (within max_rows max_cols) l) as Hl.
  { destruct Hm as [Hm | (l' & e & _ & _ & _ & Hres)]; [done | discriminate]. }
  rewrite bind_ok.
  destruct (Hk a eq_refl) as [Hall | (l' & e & Hev & Hl' & He & Hres)].
  - left. unfold always. simpl. apply Forall_app. by split.
  - right. exists (l ++ l'), e. simpl. rewrite Hev, app_assoc.
    split; [done |]. split; [by apply Forall_app |]. by split.
Qed.

Lemma stays_within_for {A S} (xs : list A) (body : A -> S -> M S) s :
  (forall x s, x ∈ xs -> stays_within wb max_rows max_cols (body x s)) ->
  stays_within wb max_rows max_cols (for_ xs body s).
Proof.
  revert s. induction xs as [| x xs IH]; intros s Hbody.
  - left. apply always_ret.
  - rewrite for_cons. apply stays_within_bind; [apply Hbody; by left |].
    intros s' _. apply IH. intros y s'' Hy. apply Hbody. by right.
Qed.

(** The table at an anchor of row 1: one request, for the cell above the
    anchor, which raises. *)
Lemma scan_table_above ws last_row last_col c acc :
  forallb valid_range (merged ws) = true ->
  scan_table ws last_row last_col (1, c) acc
  = ([CellRead (title ws) 0 c], Raise ValueError).
Proof.
  intros Hvalid. unfold scan_table.
  rewrite read_cell_outside by (done || lia). reflexivity.
Qed.

Lemma scan_sheet_stays ws acc :
  ws ∈ wb -> forallb valid_range (merged ws) = true ->
  stays_within wb max_rows max_cols (scan_sheet ws max_rows max_cols acc).
Proof.
  intros Hws Hvalid. unfold scan_sheet.
  set (last_row := Z.min _ max_rows). set (last_col := Z.min _ max_cols).
  assert (forall e, within last_row last_col e -> within max_rows max_cols e) as Hweak.
  { intros [] He; simpl in *; try done. lia. }
  destruct (find_table_anchors_window ws last_row last_col Hvalid) as [Hfind _].
  apply stays_within_bind.
  { left. by apply (always_weaken (within last_row last_col)). }
  intros anchors Hres.
  rewrite (find_table_anchors_list ws Hvalid) in Hres. injection Hres as <-.
  apply stays_within_bind; [left; apply always_lift |]. intros _ _.
  apply stays_within_bind; [left; by repeat constructor |]. intros _ _.
  apply stays_within_for. intros [r c] acc' Hin.
  apply list_elem_of_In, filter_In in Hin as [Hin Hanchor].
  apply list_elem_of_In, elem_of_window_cells in Hin. simpl in Hanchor.
  destruct (Z.eq_dec r 1) as [-> | Hr].
  - right. exists [], (CellRead (title ws) 0 c).
    rewrite scan_table_above by done.
    split; [done |]. split; [constructor |]. split; [| done].
    exists ws, c. unfold in_window in Hin. rewrite !andb_true_iff, !Z.leb_le in Hin.
    repeat split; (done || lia).
  - left. apply (always_weaken (within last_row last_col)); [done |].
    apply scan_table_window; [done | | done].
    unfold in_window in Hin. rewrite !andb_true_iff, !Z.leb_le in Hin. simpl. lia.
Qed.

(** On a workbook whose merged ranges start at row and column 1 or later,
    every cell the scan requests lies in the window, rows 1..max_rows and
    columns 1..max_cols, with one exception: the last request of a scan
    may be for the cell in row 0 above a cell of row 1 that reads as the
    anchor phrase, in one of the columns 1..max_cols of a sheet of the
    workbook, and that request ends the scan with [ValueError]. *)
Theorem scan_requests_window (date_from date_to : datetime) :
  Forall (fun ws => forallb valid_range (merged ws) = true) wb ->
  stays_within wb max_rows max_cols
    (scan_workbook wb date_from date_to max_rows max_cols).
Proof.
  intros Hwb. unfold scan_workbook.
  apply stays_within_bind; [left; by repeat constructor |]. intros _ _.
  apply stays_within_bind.
  - apply stays_within_for. intros k [acc done] _. unfold sheet_step.
    apply stays_within_bind; [left; apply always_lift |]. intros ws Hws.
    apply wb_getitem_elem in Hws as [Hin _].
    apply stays_within_bind.
    { apply scan_sheet_stays; [done |]. rewrite Forall_forall in Hwb. by apply Hwb. }
    intros acc' _.
    apply stays_within_bind; [left; by repeat constructor |]. intros _ _.
    left. apply always_ret.
  - intros [[st dr] done] _. left. apply always_ret.
Qed.

End WindowOfScan.

(** The end-to-end example stays in the default window; the sheet with
    its anchor in row 1 does so up to its last request. *)
Lemma scan_requests_window_witness :
  stays_within (U := basic) [delivery_sheet] MAX_ROWS MAX_COLS
    (scan_workbook (U := basic) [delivery_sheet] jan_1 dec_31 MAX_ROWS MAX_COLS)
  /\ stays_within (U := basic) [top_row_sheet] MAX_ROWS MAX_COLS
       (scan_workbook (U := basic) [top_row_sheet] jan_1 dec_31 MAX_ROWS MAX_COLS).
Proof.
  split.
  - apply (scan_requests_window (U := basic) [delivery_sheet] MAX_ROWS MAX_COLS jan_1 dec_31).
    by repeat constructor.
  - apply (scan_requests_window (U := basic) [top_row_sheet] MAX_ROWS MAX_COLS jan_1 dec_31).
    by repeat constructor.
Defined.

Section SucceedingScan.
Context `{U : Runtime}.
Variable ws : Worksheet.
Hypothesis merged_valid : forallb valid_range (merged ws) = true.
Hypothesis numbers_sized : float_sized_cells ws = true.

Lemma succeeds_detect_loop fuel hdr_row sub_row last_col c :
  1 <= hdr_row -> 1 <= sub_row -> 1 <= c ->
  succeeds (detect_loop fuel ws hdr_row sub_row last_col c [])
  /\ post (detect_loop fuel ws hdr_row sub_row last_col c [])
       (Forall (fun st => 1 <= pka_col st /\ 1 <= vat_col st)).
Proof.
  intros Hhdr Hsub Hc.
  destruct (detect_loop_sound ws hdr_row sub_row last_col merged_valid Hhdr Hsub fuel c Hc)
    as (found & Hres & Hfound & Hcols).
  split; [by exists found |]. intros found' Hres'.
  rewrite Hres in Hres'. injection Hres' as <-.
  apply spaced_from_bound in Hcols. rewrite Forall_map in Hcols.
  rewrite Forall_forall in Hfound, Hcols. apply Forall_forall. intros st Hst.
  specialize (Hcols st Hst). destruct (Hfound st Hst) as (Hvat & _). simpl in Hcols. lia.
Qed.

Lemma succeeds_data_row_loop fuel bread_col last_row r blank :
  1 <= bread_col -> 1 <= r ->
  succeeds (data_row_loop fuel ws bread_col last_row r blank).
Proof.
  intros Hcol. revert r blank. induction fuel as [| fuel IH]; intros r blank Hr; simpl.
  - apply succeeds_ret.
  - destruct (r <=? last_row); [| apply succeeds_ret].
    rewrite read_cell_request by done. rewrite bind_ok.
    unfold succeeds, result. simpl. fold (@result Z).
    destruct (bool_decide _); [| apply IH; lia].
    destruct (2 <=? blank + 1); [apply succeeds_ret | apply IH; lia].
Qed.

Lemma succeeds_sum_cell has_driver driver r st acc :
  1 <= r -> 1 <= pka_col st -> 1 <= vat_col st ->
  succeeds (sum_cell ws has_driver driver r st acc).
Proof.
  intros Hr Hp Hv. unfold sum_cell. destruct acc as [stores_totals drivers_totals].
  destruct (to_number_float_sized (peek ws r (pka_col st))) as [b Hb];
    [by apply peek_float_sized |].
  destruct (to_number_float_sized (peek ws r (vat_col st))) as [rv Hrv];
    [by apply peek_float_sized |].
  unfold succeeds.
  rewrite result_bind_read by done. rewrite Hb.
  change (lift (Ok b)) with (ret b). rewrite bind_ret_l.
  rewrite result_bind_read by done. rewrite Hrv.
  change (lift (Ok rv)) with (ret rv). rewrite bind_ret_l.
  destruct has_driver; by eexists.
Qed.

Lemma succeeds_scan_table last_row last_col anchor acc :
  2 <= anchor.1 -> 1 <= anchor.2 ->
  succeeds (scan_table ws last_row last_col anchor acc).
Proof.
  destruct anchor as [anchor_row anchor_col]. simpl. intros Hr Hc.
  unfold scan_table.
  apply succeeds_bind; [rewrite read_cell_request by (done || lia); by eexists |].
  intros driver_raw _.
  destruct (succeeds_detect_loop (Z.to_nat (last_col - (anchor_col + 2)))
              (anchor_row - 1) anchor_row last_col (anchor_col + 2))
    as [Hdetect Hstores]; [lia | lia | lia |].
  apply succeeds_bind; [exact Hdetect |]. intros stores Hres. apply Hstores in Hres.
  destruct (bool_decide (stores = [])); [apply succeeds_ret |].
  apply succeeds_bind; [apply succeeds_data_row_loop; lia |]. intros data_end _.
  destruct (data_end <? anchor_row + 1); [apply succeeds_ret |].
  unfold sum_rows.
  apply (succeeds_for (fun _ => True)); [done |]. intros r acc' Hrow _.
  apply elem_of_range in Hrow. split; [| done].
  apply (succeeds_for (fun _ => True)); [done |]. intros st acc'' Hst _.
  split; [| done]. rewrite Forall_forall in Hres. destruct (Hres st Hst).
  apply succeeds_sum_cell; (done || lia).
Qed.

Lemma succeeds_scan_sheet max_rows max_cols acc :
  top_row_clear ws max_cols = true ->
  1 <= (window_of ws max_rows max_cols).2 <= 18278 ->
  succeeds (scan_sheet ws max_rows max_cols acc).
Proof.
  intros Hclear Hcol. unfold window_of in Hcol. simpl in Hcol. unfold scan_sheet.
  set (last_row := Z.min _ max_rows). set (last_col := Z.min _ max_cols) in *.
  apply succeeds_bind; [eexists; by apply find_table_anchors_list |].
  intros anchors Hres.
  rewrite (find_table_anchors_list ws merged_valid) in Hres. injection Hres as <-.
  apply succeeds_bind.
  { exists tt. unfold get_column_letter.
    destruct (Z.leb_spec 1 last_col), (Z.leb_spec last_col 18278); (done || lia). }
  intros _ _.
  apply succeeds_bind; [by eexists |]. intros _ _.
  apply (succeeds_for (fun _ => True)); [done |]. intros [r c] acc' Hin _.
  split; [| done].
  apply list_elem_of_In, filter_In in Hin as [Hin Hanchor].
  apply list_elem_of_In, elem_of_window_cells in Hin.
  unfold in_window in Hin. rewrite !andb_true_iff, !Z.leb_le in Hin. simpl in Hanchor.
  apply succeeds_scan_table; simpl; [| lia].
  destruct (Z.eq_dec r 1) as [-> |]; [| lia].
  unfold top_row_clear in Hclear. rewrite forallb_forall in Hclear.
  specialize (Hclear c). rewrite Hanchor in Hclear.
  assert (negb true = true); [| done]. apply Hclear.
  apply list_elem_of_In, elem_of_range. lia.
Qed.

End SucceedingScan.

Section SucceedingWorkbook.
Context `{U : Runtime}.

(** A scan ends normally, with totals and the number of the selected
    sheets, on every workbook whose merged ranges start at row and column
    1 or later, whose integer cells have a float, in which no cell of row
    1 reads, in the first [max_cols] columns, as the anchor phrase, and
    the last column of whose windows has a name, that is, lies between 1
    and 18278 (as it does for every sheet when [max_cols] does). *)
Theorem scan_workbook_succeeds (wb : list Worksheet) (date_from date_to : datetime)
    (max_rows max_cols : Z) :
  Forall (fun ws => forallb valid_range (merged ws) = true) wb ->
  Forall (fun ws => float_sized_cells ws = true) wb ->
  Forall (fun ws => top_row_clear ws max_cols = true) wb ->
  Forall (fun ws => 1 <= (window_of ws max_rows max_cols).2 <= 18278) wb ->
  exists stores_totals drivers_totals,
    result (scan_workbook wb date_from date_to max_rows max_cols) =
    Ok (stores_totals, drivers_totals,
        {| sheets_scanned := length (selected wb date_from date_to);
           meta_from := date_from; meta_to := date_to;
           meta_max_rows := max_rows; meta_max_cols := max_cols |}).
Proof.
  intros Hvalid Hsized Hclear Hcols. unfold scan_workbook, selected.
  rewrite <- filter_in_date_range.
  set (sheets := List.filter _ _).
  rewrite (result_bind _ _ tt) by done.
  destruct (succeeds_for (fun _ => True) sheets
              (sheet_step wb max_rows max_cols (length sheets)) (∅, ∅, O) I)
    as [[[[st dr] done] Hres] _].
  - intros k [acc done] Hk _. split; [| done]. unfold sheet_step.
    apply list_elem_of_In, filter_In in Hk as [Hk _]. apply list_elem_of_In in Hk.
    destruct (wb_getitem_ok wb k Hk) as (ws & Hget & _). rewrite Hget.
    apply wb_getitem_elem in Hget as [Hin _].
    rewrite Forall_forall in Hvalid, Hsized, Hclear, Hcols.
    change (lift (Ok ws)) with (ret ws). rewrite bind_ret_l.
    apply succeeds_bind; [apply succeeds_scan_sheet; auto |]. intros acc' _.
    apply succeeds_bind; [by eexists |]. intros _ _. apply succeeds_ret.
  - exists st, dr. by rewrite (result_bind _ _ _ Hres).
Qed.

End SucceedingWorkbook.

(** The end-to-end example has its anchor in row 2: its scan succeeds. *)
Lemma scan_workbook_succeeds_witness :
  exists stores_totals drivers_totals,
    result (scan_workbook (U := basic) [delivery_sheet] jan_1 dec_31 MAX_ROWS MAX_COLS) =
    Ok (stores_totals, drivers_totals,
        {| sheets_scanned := length (selected (U := basic) [delivery_sheet] jan_1 dec_31);
           meta_from := jan_1; meta_to := dec_31;
           meta_max_rows := MAX_ROWS; meta_max_cols := MAX_COLS |}).
Proof.
  apply (scan_workbook_succeeds (U := basic) [delivery_sheet] jan_1 dec_31 MAX_ROWS MAX_COLS);
    (constructor; [| constructor]); try (vm_compute; reflexivity).
  vm_compute. split; discriminate.
Defined.

(** ** Progress reports *)

Lemma progress_of_app l1 l2 : progress_of (l1 ++ l2) = progress_of l1 ++ progress_of l2.
Proof. unfold progress_of. apply flat_map_app. Qed.

Lemma split_at_progress_none l : progress_of l = [] -> split_at_progress l = ([], l).
Proof.
  induction l as [| e l IH]; [done |]. simpl.
  destruct e; simpl; try discriminate; intros H; by rewrite (IH H).
Qed.

Lemma split_at_progress_call l d t l' :
  progress_of l = [] ->
  split_at_progress (l ++ Progress d t :: l') =
  (l :: (split_at_progress l').1, (split_at_progress l').2).
Proof.
  induction l as [| e l IH]; simpl.
  - intros _. by destruct (split_at_progress l').
  - destruct e; simpl; try discriminate; intros H; by rewrite (IH H).
Qed.

Section Progress.
Context `{U : Runtime}.
Variable wb : list Worksheet.
Variables max_rows max_cols : Z.

Lemma progress_scan_sheet ws acc :
  progress_of (events (scan_sheet ws max_rows max_cols acc)) = [].
Proof.
  destruct (scan_sheet_events ws max_rows max_cols acc) as [Hall _].
  induction Hall as [| e l He _ IH]; [done |].
  simpl. rewrite IH. by destruct e.
Qed.

(** One turn of the loop over the sheets: the scan of the sheet, and
    after it, when it ended normally, the call of the callback. *)
Lemma sheet_step_run total k ws acc done :
  wb_getitem wb k = Ok ws ->
  sheet_step wb max_rows max_cols total k (acc, done) =
  match scan_sheet ws max_rows max_cols acc with
  | (l, Ok acc') => (l ++ [Progress (S done) total], Ok (acc', S done))
  | (l, Raise e) => (l, Raise e)
  end.
Proof.
  intros Hget. unfold sheet_step. rewrite Hget, bind_lift_ok.
  destruct (scan_sheet ws max_rows max_cols acc) as [l [acc' | e]]; [| done].
  rewrite bind_ok. reflexivity.
Qed.

Lemma sheet_loop_blocks total ks acc done :
  (forall k, k ∈ ks -> k ∈ map title wb) ->
  let run := for_ ks (sheet_step wb max_rows max_cols total) (acc, done) in
  let blocks := (split_at_progress (events run)).1 in
  let rest := (split_at_progress (events run)).2 in
  progress_of (events run) = map (fun i => (i, total)) (seq (S done) (length blocks))
  /\ Forall2 (sheet_scanned wb max_rows max_cols) (take (length blocks) ks) blocks
  /\ match result run with
     | Ok _ => length blocks = length ks /\ rest = []
     | Raise e =>
         exists k, ks !! length blocks = Some k
                   /\ sheet_aborted wb max_rows max_cols k e rest
     end.
Proof.
  revert acc done. induction ks as [| k ks IH]; intros acc done Hks; cbv zeta.
  - simpl. split; [done |]. split; [constructor | done].
  - destruct (wb_getitem_ok wb k (Hks k ltac:(left))) as (ws & Hget & _).
    rewrite for_cons, (sheet_step_run total k ws acc done Hget).
    pose proof (progress_scan_sheet ws acc) as Hnone.
    destruct (scan_sheet ws max_rows max_cols acc) as [l [acc' | e]] eqn:Hsheet;
      simpl in Hnone.
    + rewrite bind_ok. cbn [events result fst snd].
      destruct (IH acc' (S done)) as (Hcalls & Hblocks & Hend);
        [intros; apply Hks; by right |].
      rewrite <- app_assoc. cbn [app].
      rewrite split_at_progress_call by done. cbn [fst snd length take].
      split; [| split].
      * rewrite progress_of_app, Hnone. simpl. by rewrite Hcalls.
      * constructor; [| done]. by exists ws, acc, acc'.
      * destruct (result (for_ ks _ _)) as [st | e].
        -- destruct Hend as [-> ->]. done.
        -- done.
    + rewrite bind_raise. cbn [events result fst snd].
      rewrite split_at_progress_none by done. cbn [fst snd length take].
      split; [by rewrite Hnone |]. split; [constructor |].
      exists k. split; [done |]. by exists ws, acc.
Qed.

(** The progress callback is called right after each sheet that was
    scanned to its end, and only then.  Cut at the calls, the events of a
    scan after its first message are: for the first, second, ... selected
    sheet, what the scan of that sheet caused, ending normally, followed
    by the call with the count 1, 2, ... of the sheets done and the
    number of the selected sheets as the total.  After the last call
    comes nothing when the scan ends normally, and then every selected
    sheet has had its call; when the scan raises, what follows the last
    call is what the scan of the next selected sheet caused, which raised
    that exception.  The bar the window's callback sets therefore never
    shows less than 1 or more than its maximum. *)
Theorem progress_counts_sheets (date_from date_to : datetime) :
  let run := scan_workbook wb date_from date_to max_rows max_cols in
  let ks := selected wb date_from date_to in
  exists evs,
    events run = LogScanning (length ks) :: evs
    /\ let blocks := (split_at_progress evs).1 in
       let rest := (split_at_progress evs).2 in
       progress_of (events run)
       = map (fun i => (i, length ks)) (seq 1 (length blocks))
       /\ Forall2 (sheet_scanned wb max_rows max_cols) (take (length blocks) ks) blocks
       /\ match result run with
          | Ok _ => length blocks = length ks /\ rest = []
          | Raise e =>
              exists k, ks !! length blocks = Some k
                        /\ sheet_aborted wb max_rows max_cols k e rest
          end
       /\ Forall (fun p : nat * nat =>
                    1 <= pb_value (_progress_cb p.1 p.2) <= pb_maximum (_progress_cb p.1 p.2))
            (progress_of (events run)).
Proof.
  cbv zeta. unfold scan_workbook, selected. rewrite <- filter_in_date_range.
  set (ks := List.filter _ _).
  assert (forall k, k ∈ ks -> k ∈ map title wb) as Hks.
  { intros k Hk. apply list_elem_of_In, filter_In in Hk as [Hk _].
    by apply list_elem_of_In. }
  destruct (sheet_loop_blocks (length ks) ks (∅, ∅) O Hks) as (Hcalls & Hblocks & Hend).
  set (loop := for_ ks (sheet_step wb max_rows max_cols (length ks)) (∅, ∅, O)) in *.
  exists (events loop).
  assert (events (_ <- emit (LogScanning (length ks)) ;;
                  st <- loop ;;
                  (let '(stores_totals, drivers_totals, _) := st in
                   ret (stores_totals, drivers_totals,
                        {| sheets_scanned := length ks; meta_from := date_from;
                           meta_to := date_to; meta_max_rows := max_rows;
                           meta_max_cols := max_cols |})))
          = LogScanning (length ks) :: events loop) as Hev.
  { rewrite events_bind. simpl. rewrite events_bind.
    destruct (result loop) as [[[st dr] done] | e]; simpl; by rewrite app_nil_r. }
  rewrite Hev. split; [done |].
  change (progress_of (LogScanning (length ks) :: events loop))
    with (progress_of (events loop)).
  split; [done |]. split; [done |]. split.
  - rewrite (result_bind _ _ tt) by done.
    destruct (result loop) as [[[st dr] done] | e] eqn:Hloop.
    + by rewrite (result_bind _ _ _ Hloop).
    + by rewrite (result_bind_raise _ _ _ Hloop).
  - rewrite Hcalls. apply Forall_map, Forall_forall. intros i Hi.
    apply list_elem_of_In, in_seq in Hi.
    assert (length (split_at_progress (events loop)).1 <= length ks)%nat as Hlen.
    { apply Forall2_length in Hblocks. rewrite length_take in Hblocks. lia. }
    simpl. lia.
Qed.

End Progress.

(** ** An empty range of dates *)

Lemma datetime_le_trans a b c :
  datetime_le a b = true -> datetime_le b c = true -> datetime_le a c = true.
Proof.
  unfold datetime_le.
  rewrite !orb_true_iff, !andb_true_iff, !orb_true_iff, !andb_true_iff,
    !Z.ltb_lt, !Z.eqb_eq, !Z.leb_le. lia.
Qed.

Lemma filter_none {A} (f : A -> bool) (l : list A) :
  (forall x, f x = false) -> List.filter f l = [].
Proof. intros Hf. induction l as [| x l IH]; simpl; [done |]. by rewrite Hf. Qed.

Section EmptyRange.
Context `{U : Runtime}.

(** With an end date before the start date no sheet is selected: the scan
    logs that it scans 0 sheets, requests no cell, and answers empty
    totals. *)
Theorem reversed_range_scans_nothing (wb : list Worksheet) (date_from date_to : datetime)
    (max_rows max_cols : Z) :
  datetime_le date_from date_to = false ->
  scan_workbook wb date_from date_to max_rows max_cols =
  ([LogScanning 0],
   Ok (∅, ∅, {| sheets_scanned := 0; meta_from := date_from; meta_to := date_to;
                meta_max_rows := max_rows; meta_max_cols := max_cols |})).
Proof.
  intros Hrev. unfold scan_workbook. rewrite filter_none; [done |].
  intros k. unfold in_date_range. destruct (is_date_sheet k) as [dt |]; [| done].
  destruct (datetime_le date_from dt) eqn:H1, (datetime_le dt date_to) eqn:H2; try done.
  by rewrite (datetime_le_trans _ _ _ H1 H2) in Hrev.
Qed.

End EmptyRange.

(** From the last day of 2024 to the first. *)
Lemma reversed_range_scans_nothing_witness :
  scan_workbook (U := basic) [delivery_sheet] dec_31 jan_1 MAX_ROWS MAX_COLS =
  ([LogScanning 0],
   Ok (∅, ∅, {| sheets_scanned := 0; meta_from := dec_31; meta_to := jan_1;
                meta_max_rows := MAX_ROWS; meta_max_cols := MAX_COLS |})).
Proof.
  apply (reversed_range_scans_nothing (U := basic) [delivery_sheet] dec_31 jan_1
           MAX_ROWS MAX_COLS).
  reflexivity.
Defined.

(** ** The names of the stores *)

Lemma keys_named_add_brought m k x :
  keys_named m -> k <> [] -> keys_named (add_brought m k x).
Proof.
  intros Hm Hk k' Hk'. unfold add_brought in Hk'.
  destruct (decide (k' = k)) as [-> | Hne]; [done |].
  rewrite lookup_insert_ne in Hk' by done. by apply Hm.
Qed.

Lemma keys_named_add_returned m k x :
  keys_named m -> k <> [] -> keys_named (add_returned m k x).
Proof.
  intros Hm Hk k' Hk'. unfold add_returned in Hk'.
  destruct (decide (k' = k)) as [-> | Hne]; [done |].
  rewrite lookup_insert_ne in Hk' by done. by apply Hm.
Qed.

Section StoreNames.
Context `{U : Runtime}.

Lemma post_detect_loop_named fuel ws hdr_row sub_row last_col c stores :
  Forall (fun st => name st <> []) stores ->
  post (detect_loop fuel ws hdr_row sub_row last_col c stores)
    (Forall (fun st => name st <> [])).
Proof.
  revert c stores. induction fuel as [| fuel IH]; intros c stores Hstores; simpl.
  - by apply post_ret.
  - destruct (c <=? last_col - 1); [| by apply post_ret].
    apply (post_bind _ _ (fun _ => True)); [done |]. intros pka _.
    apply (post_bind _ _ (fun _ => True)); [done |]. intros vat _.
    destruct (_ && _); [| by apply IH].
    apply (post_bind _ _ (fun _ => True)); [done |]. intros name_raw _.
    apply IH. apply Forall_app. split; [done |]. constructor; [| constructor].
    apply (store_at_named name_raw c).
Qed.

Lemma post_sum_cell_named ws has_driver driver r st acc :
  name st <> [] -> keys_named acc.1 ->
  post (sum_cell ws has_driver driver r st acc) (fun acc => keys_named acc.1).
Proof.
  intros Hst Hacc. unfold sum_cell. destruct acc as [stores_totals drivers_totals].
  apply (post_bind _ _ (fun _ => True)); [done |]. intros vb _.
  apply (post_bind _ _ (fun _ => True)); [done |]. intros b _.
  apply (post_bind _ _ (fun _ => True)); [done |]. intros vr _.
  apply (post_bind _ _ (fun _ => True)); [done |]. intros rv _.
  destruct has_driver; apply post_ret; simpl;
    by apply keys_named_add_returned; [apply keys_named_add_brought |].
Qed.

Lemma post_scan_table_named ws last_row last_col anchor acc :
  keys_named acc.1 ->
  post (scan_table ws last_row last_col anchor acc) (fun acc => keys_named acc.1).
Proof.
  intros Hacc. unfold scan_table. destruct anchor as [anchor_row anchor_col].
  apply (post_bind _ _ (fun _ => True)); [done |]. intros driver_raw _.
  eapply post_bind; [apply post_detect_loop_named; constructor |]. intros stores Hstores.
  destruct (bool_decide (stores = [])); [by apply post_ret |].
  apply (post_bind _ _ (fun _ => True)); [done |]. intros data_end _.
  destruct (data_end <? anchor_row + 1); [by apply post_ret |].
  unfold sum_rows. apply post_for; [done |]. intros r acc' _ Hacc'.
  apply post_for; [done |]. intros st acc'' Hst Hacc''.
  rewrite Forall_forall in Hstores. by apply post_sum_cell_named; [apply Hstores |].
Qed.

(** No store is ever summed under an empty name: a header cell that is
    empty, blank or falsy gives the placeholder, so that every key of the
    stores map a scan answers is a non-empty string. *)
Theorem store_keys_named (wb : list Worksheet) (date_from date_to : datetime)
    (max_rows max_cols : Z) st dr meta :
  result (scan_workbook wb date_from date_to max_rows max_cols) = Ok (st, dr, meta) ->
  forall k, is_Some (st !! k) -> k <> [].
Proof.
  assert (post (scan_workbook wb date_from date_to max_rows max_cols)
            (fun r => keys_named r.1.1)) as Hpost.
  { unfold scan_workbook.
    apply (post_bind _ _ (fun _ => True)); [done |]. intros _ _.
    apply (post_bind _ _ (fun st => keys_named st.1.1)).
    - apply post_for.
      { intros k [t Hk]. simpl in Hk. by rewrite lookup_empty in Hk. }
      intros k [acc done] _ Hacc. unfold sheet_step.
      apply (post_bind _ _ (fun _ => True)); [done |]. intros ws _.
      apply (post_bind _ _ (fun acc => keys_named acc.1)).
      { unfold scan_sheet.
        apply (post_bind _ _ (fun _ => True)); [done |]. intros anchors _.
        apply (post_bind _ _ (fun _ => True)); [done |]. intros _ _.
        apply (post_bind _ _ (fun _ => True)); [done |]. intros _ _.
        apply post_for; [done |]. intros anchor acc' _ Hacc'.
        by apply post_scan_table_named. }
      intros acc' Hacc'.
      apply (post_bind _ _ (fun _ => True)); [done |]. intros _ _.
      by apply post_ret.
    - intros [[st' dr'] done] Hacc. by apply post_ret. }
  intros Hres. apply (Hpost _ Hres).
Qed.

End StoreNames.

(** The store of the end-to-end example. *)
Lemma store_keys_named_witness : text "Store A" <> [].
Proof.
  apply (store_keys_named (U := basic) [delivery_sheet] jan_1 dec_31 MAX_ROWS MAX_COLS
           (stores_totals delivery_window) (drivers_totals delivery_window)
           {| sheets_scanned := 1; meta_from := jan_1; meta_to := dec_31;
              meta_max_rows := MAX_ROWS; meta_max_cols := MAX_COLS |}).
  - vm_compute. reflexivity.
  - vm_compute. by eexists.
Defined.

(** ** The return rate *)

(** The return rate is 0 when nothing was brought (or less than nothing),
    so that no division by zero occurs, and it lies between 0 and 100
    when the returned quantity lies between 0 and the brought one. *)
Theorem rate_percentage (returned brought : Q) :
  ((brought <= 0)%Q -> rate returned brought = 0%Q)
  /\ ((0 <= returned)%Q -> (returned <= brought)%Q ->
      (0 <= rate returned brought)%Q /\ (rate returned brought <= 100)%Q).
Proof.
  unfold rate. destruct (Qlt_le_dec 0 brought) as [Hpos | Hle].
  - split; [intros H; exfalso; by apply (Qlt_not_le _ _ Hpos) |].
    intros H0 Hle. split.
    + apply Qmult_le_0_compat; [| done].
      apply Qle_shift_div_l; [done |]. by rewrite Qmult_0_l.
    + apply Qle_trans with (1 * 100)%Q; [| done].
      apply Qmult_le_compat_r; [| done].
      apply Qle_shift_div_r; [done |]. by rewrite Qmult_1_l.
  - split; [done |]. intros H0 H1. split; [done | done].
Qed.

(** ** The decimal comma *)

Lemma lstrip_map (f : Z -> Z) s :
  (forall c, is_space (f c) = is_space c) -> lstrip (map f s) = map f (lstrip s).
Proof.
  intros Hf. induction s as [| c s IH]; simpl; [done |].
  rewrite Hf. destruct (is_space c); [done | done].
Qed.

Lemma strip_map (f : Z -> Z) s :
  (forall c, is_space (f c) = is_space c) -> strip (map f s) = map f (strip s).
Proof.
  intros Hf. unfold strip.
  by rewrite lstrip_map, <- map_rev, lstrip_map, map_rev.
Qed.

Section DecimalComma.
Context `{U : Runtime}.

(** In text a comma counts as a decimal point: a text converts to the
    same number when its commas are replaced by full stops. *)
Theorem decimal_comma (s : str) :
  to_number (VStr (replace 44 46 s)) = to_number (VStr s).
Proof.
  unfold to_number, str_of.
  assert (replace 44 46 (strip (replace 44 46 s)) = replace 44 46 (strip s)) as ->;
    [| done].
  unfold replace. rewrite strip_map.
  - rewrite map_map. apply map_ext. intros c.
    destruct (Z.eqb_spec c 44) as [-> | Hc]; [done |]. by destruct (Z.eqb_spec c 44).
  - intros c. destruct (Z.eqb_spec c 44) as [-> |]; done.
Qed.

End DecimalComma.

(** ** Normalized text *)

Lemma single_spaced_sub_ws b s : single_spaced b (sub_ws b s).
Proof.
  revert b. induction s as [| c s IH]; intros b; simpl; [done |].
  destruct (is_space c) eqn:Hc.
  - destruct b; [apply IH |]. simpl. split; [done |]. apply IH.
  - simpl. rewrite Hc. split; [done |]. apply IH.
Qed.

Lemma single_spaced_lstrip b t : single_spaced b t -> single_spaced true (lstrip t).
Proof.
  revert b. induction t as [| c t IH]; intros b; simpl; [done |].
  intros [Hc Ht]. destruct (is_space c) eqn:Hsp; [by apply (IH true) |].
  simpl. rewrite Hsp. split; [done | done].
Qed.

Lemma single_spaced_prefix b p q : single_spaced b (p ++ q) -> single_spaced b p.
Proof.
  revert b. induction p as [| c p IH]; intros b; simpl; [done |].
  intros [Hc Ht]. split; [done |]. by apply IH.
Qed.

Lemma lstrip_suffix s : exists ws, s = ws ++ lstrip s.
Proof.
  induction s as [| c s [ws IH]]; simpl; [by exists [] |].
  destruct (is_space c); [| by exists []]. exists (c :: ws). simpl. by rewrite <- IH.
Qed.

Lemma lstrip_stops s : stops is_space (lstrip s).
Proof.
  induction s as [| c s IH]; simpl; [done |].
  destruct (is_space c) eqn:Hc; [done | simpl; done].
Qed.

Lemma last_rev {A} (l : list A) : last (rev l) = head l.
Proof. destruct l as [| x l]; [done |]. simpl. by rewrite last_snoc. Qed.

Lemma strip_prefix_of_lstrip s : exists ws, lstrip s = strip s ++ ws.
Proof.
  unfold strip. destruct (lstrip_suffix (rev (lstrip s))) as [ws Hws].
  exists (rev ws). rewrite <- rev_app_distr, <- Hws. by rewrite rev_involutive.
Qed.

Lemma strip_last s c : last (strip s) = Some c -> is_space c = false.
Proof.
  unfold strip. rewrite last_rev. pose proof (lstrip_stops (rev (lstrip s))) as H.
  destruct (lstrip (rev (lstrip s))); simpl; [done |]. by intros [= <-].
Qed.

Lemma Forall_sub_ws (P : Z -> Prop) b s : P 32 -> Forall P s -> Forall P (sub_ws b s).
Proof.
  intros H32 Hs. revert b. induction Hs as [| c s Hc _ IH]; intros b; simpl; [constructor |].
  destruct (is_space c); [destruct b; [apply IH | constructor; [done | apply IH]] |].
  constructor; [done | apply IH].
Qed.

Lemma Forall_lstrip (P : Z -> Prop) s : Forall P s -> Forall P (lstrip s).
Proof.
  intros Hs. induction Hs as [| c s Hc Hs IH]; simpl; [constructor |].
  destruct (is_space c); [done | by constructor].
Qed.

Lemma Forall_strip (P : Z -> Prop) s : Forall P s -> Forall P (strip s).
Proof.
  intros Hs. unfold strip. by apply Forall_rev, Forall_lstrip, Forall_rev, Forall_lstrip.
Qed.

Lemma replace_hyphens s :
  Forall (fun c => c <> 0x2011 /\ c <> 0x2013 /\ c <> 0x2014)
    (replace 0x2014 45 (replace 0x2013 45 (replace 0x2011 45 s))).
Proof.
  unfold replace. rewrite !map_map. apply Forall_map, Forall_forall. intros c _. simpl.
  destruct (Z.eqb_spec c 8209) as [-> | H1]; [simpl; lia |].
  destruct (Z.eqb_spec c 8211) as [-> | H2]; [simpl; lia |].
  destruct (Z.eqb_spec c 8212) as [-> | H3]; [simpl; lia |]. lia.
Qed.

Section NormText.
Context `{U : Runtime}.

(** What [norm_text] hands to [lower]: for a value that is not absent, a
    text without white space at its start or end, whose only white space
    is single spaces (U+0020) between other characters, and without the
    code points U+2011, U+2013 and U+2014.  (What the normalization
    itself makes of a hyphen is not stated: NFKC turns U+2011 into
    U+2010, which is kept.)  The absent value gives the empty text. *)
Theorem norm_text_tidy (v : value) :
  norm_text VNone = []
  /\ (v <> VNone -> exists t, norm_text v = lower t /\ tidy t).
Proof.
  split; [done |]. intros Hv.
  set (s := replace 0x2014 45 (replace 0x2013 45 (replace 0x2011 45 (nfkc (str_of v))))).
  exists (strip (sub_ws false s)). split; [by destruct v |].
  split; [| split].
  - destruct (strip_prefix_of_lstrip (sub_ws false s)) as [ws Hws].
    apply (single_spaced_prefix _ _ ws). rewrite <- Hws.
    apply (single_spaced_lstrip false), single_spaced_sub_ws.
  - apply strip_last.
  - apply Forall_strip, Forall_sub_ws; [lia | apply replace_hyphens].
Qed.

End NormText.

(** ** Integers in decimal *)

Lemma text_digits d : text (NilEmpty.string_of_uint d) = digits_of d.
Proof.
  unfold text. induction d as [| d IH | d IH | d IH | d IH | d IH | d IH | d IH | d IH | d IH | d IH];
    [done | cbn -[utf8] in *; cbn [utf8]; simpl Z.ltb; cbv iota; by rewrite IH ..].
Qed.

Lemma digits_of_nonempty d : d <> Decimal.Nil -> digits_of d <> [].
Proof. by destruct d. Qed.

Lemma repr_int_pos p : repr_int (Zpos p) = digits_of (Pos.to_uint p).
Proof.
  unfold repr_int. simpl. rewrite <- text_digits. f_equal.
  unfold NilZero.string_of_uint.
  destruct (Pos.to_uint p) eqn:H; try done.
  pose proof (DecimalPos.Unsigned.of_to p) as Hp. by rewrite H in Hp.
Qed.

Lemma repr_int_neg p : repr_int (Zneg p) = 45 :: repr_int (Zpos p).
Proof.
  rewrite repr_int_pos. unfold repr_int. simpl. rewrite <- text_digits.
  unfold NilZero.string_of_uint.
  destruct (Pos.to_uint p) eqn:H; try done.
  pose proof (DecimalPos.Unsigned.of_to p) as Hp. by rewrite H in Hp.
Qed.

Lemma repr_int_zero : repr_int 0 = [48].
Proof. reflexivity. Qed.

(** The characters '0' to '9'. *)
Lemma digits_of_ascii d : Forall (fun c => 48 <= c <= 57) (digits_of d).
Proof. induction d; simpl; constructor; (lia || done). Qed.

Section DecimalText.
Context `{U : Runtime}.

Lemma is_digit_ascii c : 48 <= c <= 57 -> is_digit c = true.
Proof.
  intros Hc. apply is_digit_spec. exists (c - 48). by apply decimal_ascii.
Qed.

Lemma int_of_digits_uint d acc :
  0 < acc ->
  int_of_digits acc (digits_of d) = Some (Zpos (Pos.of_uint_acc d (Z.to_pos acc))).
Proof.
  revert acc. induction d; intros acc Hacc; simpl;
    [by rewrite Z2Pos.id | rewrite decimal_ascii by lia; rewrite IHd by lia; do 3 f_equal; lia ..].
Qed.

Lemma int_of_digits_of_uint d : int_of_digits 0 (digits_of d) = Some (Z.of_N (Pos.of_uint d)).
Proof.
  induction d; simpl;
    [done | by rewrite decimal_ascii by lia
          | rewrite decimal_ascii by lia; rewrite int_of_digits_uint by lia; done ..].
Qed.

(** Reading what [str] printed of a natural number gives the number. *)
Lemma int_of_digits_repr_int z :
  0 <= z -> int_of_digits 0 (repr_int z) = Some z.
Proof.
  intros Hz. destruct z as [| p | p]; [| | lia].
  - rewrite repr_int_zero. simpl. by rewrite decimal_ascii by lia.
  - rewrite repr_int_pos, int_of_digits_of_uint.
    by rewrite DecimalPos.Unsigned.of_to.
Qed.

Lemma repr_int_digits z :
  0 <= z -> repr_int z <> [] /\ Forall (fun c => 48 <= c <= 57) (repr_int z).
Proof.
  intros Hz. destruct z as [| p | p]; [| | lia].
  - rewrite repr_int_zero. split; [done |]. constructor; [lia | constructor].
  - rewrite repr_int_pos. split; [| apply digits_of_ascii].
    apply digits_of_nonempty. intros H.
    pose proof (DecimalPos.Unsigned.of_to p) as Hp. by rewrite H in Hp.
Qed.

End DecimalText.

(** ** Numbers that are the whole text *)

Lemma lstrip_id s : stops is_space s -> lstrip s = s.
Proof. destruct s as [| c t]; simpl; [done |]. by intros ->. Qed.

Lemma strip_id s :
  Forall (fun c => is_space c = false) s -> strip s = s.
Proof.
  intros Hs. unfold strip.
  rewrite (lstrip_id s) by (destruct Hs; simpl; done).
  rewrite lstrip_id; [apply rev_involutive |].
  apply Forall_rev in Hs. by destruct Hs.
Qed.

Lemma replace_id a b s : Forall (fun c => c <> a) s -> replace a b s = s.
Proof.
  intros Hs. unfold replace. induction Hs as [| c s Hc _ IH]; simpl; [done |].
  destruct (Z.eqb_spec c a); [done | by rewrite IH].
Qed.

Lemma Qred_inject_Z n : Qred (inject_Z n) = inject_Z n.
Proof.
  unfold Qred, inject_Z.
  pose proof (Z.ggcd_gcd n 1) as Hg. pose proof (Z.ggcd_correct_divisors n 1) as Hd.
  destruct (Z.ggcd n 1) as [g [aa bb]]. simpl in *.
  rewrite Z.gcd_1_r in Hg. subst g. destruct Hd as [H1 H2].
  rewrite Z.mul_1_l in H1, H2. by subst.
Qed.

Section WholeNumbers.
Context `{U : Runtime}.

Lemma re_search_whole s : number_text s -> re_search NUMBER s = Some s.
Proof.
  intros Hs. pose proof (re_search_number s) as H.
  destruct (re_search NUMBER s) as [t |].
  - destruct H as (pre & post & Heq & _ & Hfirst).
    destruct (Hfirst [] s [] ltac:(by rewrite app_nil_r) Hs) as [Hlt | [Hpre Hlen]];
      [simpl in Hlt; lia |].
    destruct pre; [| done]. simpl in Heq.
    assert (length s = (length t + length post)%nat) as Hl
      by (rewrite Heq at 1; apply length_app).
    destruct post; [| simpl in Hl; lia]. rewrite app_nil_r in Heq. by rewrite Heq.
  - by destruct (H [] s [] ltac:(by rewrite app_nil_r)).
Qed.

(** A text that is a signed integer or decimal, written with ASCII digits,
    converts as a whole. *)
Lemma to_number_whole s :
  Forall (fun c => c = 45 \/ c = 46 \/ 48 <= c <= 57) s -> number_text s ->
  to_number (VStr s) = float_of_str s.
Proof.
  intros Hchars Hs. unfold to_number, str_of.
  rewrite strip_id.
  - rewrite replace_id; [by rewrite re_search_whole |].
    eapply Forall_impl; [exact Hchars |]. simpl. lia.
  - eapply Forall_impl; [exact Hchars |]. simpl. intros c Hc.
    unfold is_space.
    repeat match goal with
           | |- context [?a <=? ?b] => destruct (Z.leb_spec a b); try lia
           | |- context [?a =? ?b] => destruct (Z.eqb_spec a b); try lia
           end; reflexivity.
Qed.

Lemma ascii_digits ds :
  Forall (fun c => 48 <= c <= 57) ds -> Forall (fun c => is_digit c = true) ds.
Proof. intros H. eapply Forall_impl; [exact H |]. apply is_digit_ascii. Qed.

Lemma split_dot_run ip rest :
  Forall (fun c => 48 <= c <= 57) ip ->
  split_dot (ip ++ rest) = (ip ++ (split_dot rest).1, (split_dot rest).2).
Proof.
  intros Hip. induction Hip as [| c ip Hc _ IH]; simpl; [by destruct (split_dot rest) |].
  destruct (Z.eqb_spec c 46); [lia |]. by rewrite IH.
Qed.

Lemma float_of_body_integer neg ip n :
  Forall (fun c => 48 <= c <= 57) ip -> ip <> [] -> int_of_digits 0 ip = Some n ->
  float_of_body neg ip = Ok (if neg then Qopp (inject_Z n) else inject_Z n).
Proof.
  intros Hip Hne Hn. unfold float_of_body.
  rewrite <- (app_nil_r ip) at 1. rewrite split_dot_run by done. simpl.
  rewrite !app_nil_r, Hn. destruct ip as [| c ip]; [done |].
  rewrite Z.mul_1_r, Z.add_0_r.
  change (n # 1)%Q with (inject_Z n). by rewrite Qred_inject_Z.
Qed.

Lemma float_of_body_fraction neg ip fd n f :
  Forall (fun c => 48 <= c <= 57) ip -> ip <> [] ->
  int_of_digits 0 ip = Some n -> int_of_digits 0 fd = Some f ->
  float_of_body neg (ip ++ 46 :: fd) =
  Ok (let k := 10 ^ Z.of_nat (length fd) in
      let x := Qred ((n * k + f) # Z.to_pos k) in
      if neg then Qopp x else x).
Proof.
  intros Hip Hne Hn Hf. unfold float_of_body.
  rewrite split_dot_run by done. simpl.
  rewrite app_nil_r, Hn, Hf. destruct ip as [| c ip]; [done |]. done.
Qed.

Lemma float_of_str_unsigned s :
  Forall (fun c => c = 46 \/ 48 <= c <= 57) s -> float_of_str s = float_of_body false s.
Proof.
  intros Hs. unfold float_of_str. destruct Hs as [| c s Hc _]; [done |].
  destruct (Z.eqb_spec c 45); [lia |]. destruct (Z.eqb_spec c 43); [lia | done].
Qed.

End WholeNumbers.

Section TextIntegers.
Context `{U : Runtime}.

Lemma number_text_digits ds :
  ds <> [] -> Forall (fun c => 48 <= c <= 57) ds -> number_text ds.
Proof.
  intros Hne Hds. left. exists ds, []. rewrite app_nil_r.
  split; [done |]. split; [| by left]. split; [done | by apply ascii_digits].
Qed.

Lemma to_number_digits ds n :
  ds <> [] -> Forall (fun c => 48 <= c <= 57) ds -> int_of_digits 0 ds = Some n ->
  to_number (VStr ds) = Ok (inject_Z n)
  /\ to_number (VStr (45 :: ds)) = Ok (inject_Z (- n)).
Proof.
  intros Hne Hds Hn. split.
  - rewrite to_number_whole.
    + rewrite float_of_str_unsigned.
      * by apply (float_of_body_integer false).
      * eapply Forall_impl; [exact Hds |]. simpl. lia.
    + eapply Forall_impl; [exact Hds |]. simpl. lia.
    + by apply number_text_digits.
  - rewrite to_number_whole.
    + unfold float_of_str. rewrite Z.eqb_refl.
      by rewrite (float_of_body_integer true ds n).
    + constructor; [by left |]. eapply Forall_impl; [exact Hds |]. simpl. lia.
    + right. exists ds. split; [done |].
      destruct (number_text_digits ds Hne Hds) as [H | (t & -> & _)]; [done |].
      apply Forall_cons in Hds as [Hc _]. lia.
Qed.

Lemma to_number_repr_int z : to_number (VStr (repr_int z)) = Ok (inject_Z z).
Proof.
  destruct z as [| p | p].
  - destruct (repr_int_digits 0) as [Hne Hds]; [lia |].
    destruct (to_number_digits _ 0 Hne Hds) as [-> _]; [| done].
    apply int_of_digits_repr_int. lia.
  - destruct (repr_int_digits (Zpos p)) as [Hne Hds]; [lia |].
    destruct (to_number_digits _ (Zpos p) Hne Hds) as [-> _]; [| done].
    apply int_of_digits_repr_int. lia.
  - rewrite repr_int_neg.
    destruct (repr_int_digits (Zpos p)) as [Hne Hds]; [lia |].
    destruct (to_number_digits _ (Zpos p) Hne Hds) as [_ ->]; [| done].
    apply int_of_digits_repr_int. lia.
Qed.

(** A whole number stored as text counts like the same number stored as a
    number. *)
Theorem text_integer_counts (z : Z) :
  Z.abs z < FLOAT_INT_LIMIT ->
  to_number (VStr (repr_int z)) = to_number (VInt z).
Proof.
  intros Hz. rewrite to_number_repr_int. simpl. unfold float_of_int.
  destruct (Z.ltb_spec (Z.abs z) FLOAT_INT_LIMIT); [done | lia].
Qed.

End TextIntegers.

(** The text "7" and the number 7. *)
Lemma text_integer_counts_witness :
  to_number (U := basic) (VStr (repr_int 7)) = to_number (U := basic) (VInt 7).
Proof. apply (text_integer_counts (U := basic) 7). vm_compute. reflexivity. Defined.

(** ** Dates in text *)

Lemma zero_padded_ascii p n : Forall (fun c => 48 <= c <= 57) (zero_padded p n).
Proof.
  revert n. induction p as [| p IH]; intros n; simpl; [constructor |].
  apply Forall_app. split; [apply IH |]. constructor; [| constructor].
  pose proof (Z.mod_pos_bound n 10). lia.
Qed.

Lemma length_zero_padded p n : length (zero_padded p n) = p.
Proof.
  revert n. induction p as [| p IH]; intros n; simpl; [done |].
  rewrite length_app, IH. simpl. lia.
Qed.

Section DateText.
Context `{U : Runtime}.

Lemma int_of_digits_app acc a b :
  int_of_digits acc (a ++ b) =
  match int_of_digits acc a with Some v => int_of_digits v b | None => None end.
Proof.
  revert acc. induction a as [| c a IH]; intros acc; simpl; [done |].
  destruct (decimal c); [apply IH | done].
Qed.

Lemma int_of_digits_zero_padded p n acc :
  0 <= n < 10 ^ Z.of_nat p ->
  int_of_digits acc (zero_padded p n) = Some (acc * 10 ^ Z.of_nat p + n).
Proof.
  revert n acc. induction p as [| p IH]; intros n acc Hn.
  - simpl in *. f_equal. lia.
  - cbn [zero_padded]. rewrite int_of_digits_app.
    rewrite Nat2Z.inj_succ, Z.pow_succ_r in * by lia.
    rewrite IH by (split; [apply Z.div_pos; lia | apply Z.div_lt_upper_bound; lia]).
    simpl. pose proof (Z.mod_pos_bound n 10 ltac:(lia)).
    rewrite decimal_ascii by lia. f_equal.
    pose proof (Z.div_mod n 10 ltac:(lia)). lia.
Qed.

Lemma day_texts d :
  1 <= d <= 31 -> day_text (48 + (d / 10) mod 10) (48 + d mod 10) = true.
Proof.
  intros Hd.
  assert (forallb (fun d => day_text (48 + (d / 10) mod 10) (48 + d mod 10)) (seqZ 1 31)
          = true) as H by (vm_compute; reflexivity).
  rewrite forallb_forall in H. apply H, list_elem_of_In, elem_of_seqZ. lia.
Qed.

Lemma month_texts m :
  1 <= m <= 12 -> month_text (48 + (m / 10) mod 10) (48 + m mod 10) = true.
Proof.
  intros Hm.
  assert (forallb (fun m => month_text (48 + (m / 10) mod 10) (48 + m mod 10)) (seqZ 1 12)
          = true) as H by (vm_compute; reflexivity).
  rewrite forallb_forall in H. apply H, list_elem_of_In, elem_of_seqZ. lia.
Qed.

Lemma days_in_month_bound y m : days_in_month y m <= 31.
Proof.
  unfold days_in_month.
  destruct (m =? 2); [destruct (is_leap y); lia |]. destruct (_ || _); lia.
Qed.

(** The text [strftime] prints for a date with a year of four digits is
    parsed back to the date, by [strptime] as by [is_date_sheet]. *)
Lemma strptime_strftime dt :
  valid_date (year dt) (month dt) (day dt) = true -> 1000 <= year dt ->
  date_shape (strftime dt) /\ strptime (strftime dt) = Ok dt.
Proof.
  destruct dt as [Y M D]. simpl. intros Hvalid HY.
  pose proof Hvalid as Hv. unfold valid_date in Hv.
  rewrite !andb_true_iff, !Z.leb_le in Hv.
  pose proof (days_in_month_bound Y M).
  unfold strftime. simpl. destruct (Z.leb_spec 1000 Y); [| lia].
  set (d1 := 48 + D / 10 mod 10). set (d2 := 48 + D mod 10).
  set (m1 := 48 + M / 10 mod 10). set (m2 := 48 + M mod 10).
  set (y1 := 48 + Y / 10 / 10 / 10 mod 10). set (y2 := 48 + Y / 10 / 10 mod 10).
  set (y3 := 48 + Y / 10 mod 10). set (y4 := 48 + Y mod 10).
  assert (Forall (fun c => is_digit c = true) [d1; d2; m1; m2; y1; y2; y3; y4]) as Hdigits.
  { repeat constructor; apply is_digit_ascii; unfold d1, d2, m1, m2, y1, y2, y3, y4;
      match goal with |- _ <= 48 + ?a mod 10 <= _ =>
        pose proof (Z.mod_pos_bound a 10 ltac:(lia)); lia end. }
  split; [by exists d1, d2, m1, m2, y1, y2, y3, y4 |].
  rewrite strptime_shape by done.
  unfold d1, d2, m1, m2. rewrite day_texts, month_texts by lia. cbn [andb].
  change [y1; y2; y3; y4] with (zero_padded 4 Y).
  change [48 + M / 10 mod 10; 48 + M mod 10] with (zero_padded 2 M).
  change [48 + D / 10 mod 10; 48 + D mod 10] with (zero_padded 2 D).
  rewrite !int_of_digits_zero_padded by (simpl; lia).
  rewrite !Z.mul_0_l, !Z.add_0_l. unfold make_datetime. by rewrite Hvalid.
Qed.

End DateText.

Section DateNamesAgain.
Context `{U : Runtime}.

Lemma datetime_le_refl a : datetime_le a a = true.
Proof.
  unfold datetime_le. rewrite !Z.eqb_refl, Z.leb_refl. simpl.
  by rewrite !orb_true_r.
Qed.

(** The text [strftime] prints for a date with a year of four digits, as
    the scan puts it into its answer for the two bounds, reads back as the
    date: [strptime] parses it to the date, it is the name of a date sheet
    of that date, and the sheet of that name is selected by the range that
    starts and ends on the date. *)
Theorem strftime_round_trip (dt : datetime) :
  valid_date (year dt) (month dt) (day dt) = true -> 1000 <= year dt ->
  strptime (strftime dt) = Ok dt
  /\ is_date_sheet (strftime dt) = Some dt
  /\ in_date_range dt dt (strftime dt) = true.
Proof.
  intros Hvalid Hyear.
  destruct (strptime_strftime dt Hvalid Hyear) as [Hshape Hparse].
  assert (is_date_sheet (strftime dt) = Some dt) as Hsheet.
  { unfold is_date_sheet. apply fullmatch_date_shape in Hshape.
    by rewrite Hshape, Hparse. }
  split; [done |]. split; [done |].
  unfold in_date_range. rewrite Hsheet. by rewrite datetime_le_refl.
Qed.

End DateNamesAgain.

(** The first day of 2024. *)
Lemma strftime_round_trip_witness :
  strftime jan_1 = text "01.01.2024"
  /\ strptime (U := basic) (strftime jan_1) = Ok jan_1
  /\ is_date_sheet (U := basic) (strftime jan_1) = Some jan_1
  /\ in_date_range (U := basic) jan_1 jan_1 (strftime jan_1) = true.
Proof.
  split; [reflexivity |].
  apply (strftime_round_trip (U := basic) jan_1); [reflexivity | simpl; lia].
Defined.

(** ** Numbers as text *)

Section FormatProofs.
Context `{U : Runtime} `{F : FloatFormat}.

Lemma decimal_not_digit c : 0 <= c < 128 -> ~ 48 <= c <= 57 -> decimal c = None.
Proof.
  intros Hc Hn. destruct (decimal c) as [d |] eqn:Hd; [| done].
  destruct Hn. apply decimal_ascii_only; [done | by exists d].
Qed.

(** The specifications [.2f] and [.3f] are parsed as fixed-point formats
    of two and three digits. *)
Lemma parse_fixed_spec d :
  0 <= d <= 9 -> parse_format_spec [46; 48 + d; 102] = Ok (fixed_spec d).
Proof.
  intros Hd. unfold parse_format_spec.
  assert (is_align (48 + d) = false) as ->.
  { unfold is_align. rewrite !orb_false_iff, !Z.eqb_neq. lia. }
  cbn -[decimal Z.pow Z.add].
  rewrite (decimal_not_digit 46) by lia.
  cbn -[decimal Z.pow Z.add].
  rewrite (decimal_ascii (48 + d)) by lia.
  rewrite (decimal_not_digit 102) by lia.
  replace (48 + d - 48) with d by lia.
  unfold too_big. destruct (Z.leb_spec (2 ^ 31) (10 * 0 + d)); [lia |].
  replace (10 * 0 + d) with d by lia. by rewrite bool_decide_eq_false_2.
Qed.

(** The specification [* .2f] is not one: the asterisk could only be a
    fill character, and the space after it is no alignment. *)
Lemma parse_star_spec : parse_format_spec (text "* .2f") = Raise ValueError.
Proof.
  change (text "* .2f") with [42; 32; 46; 50; 102].
  unfold parse_format_spec. cbn -[decimal Z.pow].
  rewrite (decimal_not_digit 42) by lia. reflexivity.
Qed.

Lemma float_format_fixed d x :
  0 <= d <= 9 -> float_format [46; 48 + d; 102] x = Ok (format_fixed (Z.to_nat d) x).
Proof.
  intros Hd. unfold float_format. rewrite parse_fixed_spec by done. simpl.
  by rewrite render_fixed by lia.
Qed.

Lemma float_format_star x : float_format (text "* .2f") x = Raise ValueError.
Proof. unfold float_format. by rewrite parse_star_spec. Qed.

Lemma fmt_num_value x :
  _fmt_num x = Ok (if is_integer x then repr_int (int_of_float x) else format_fixed 3 x).
Proof.
  unfold _fmt_num. destruct (is_integer x); [done |].
  apply (float_format_fixed 3). lia.
Qed.

Lemma table_row_value m k :
  table_row m k =
  let t := default zero_totals (m !! k) in
  Ok [k;
      if is_integer (brought t) then repr_int (int_of_float (brought t))
      else format_fixed 3 (brought t);
      if is_integer (returned t) then repr_int (int_of_float (returned t))
      else format_fixed 3 (returned t);
      format_fixed 2 (rate (returned t) (brought t))].
Proof.
  unfold table_row. rewrite !fmt_num_value.
  change (text ".2f") with [46; 48 + 2; 102]. by rewrite float_format_fixed by lia.
Qed.

Lemma drivers_file_row_raises m k : drivers_file_row m k = Raise ValueError.
Proof.
  unfold drivers_file_row. by rewrite !fmt_num_value, float_format_star.
Qed.

End FormatProofs.

(** ** Sorted keys *)

Lemma str_leb_total a b : str_leb a b = true \/ str_leb b a = true.
Proof.
  revert b. induction a as [| x a IH]; intros [| y b]; simpl; auto.
  destruct (IH b) as [H | H]; rewrite H;
    destruct (Z.ltb_spec x y), (Z.ltb_spec y x), (Z.eqb_spec x y), (Z.eqb_spec y x);
    simpl; auto; lia.
Qed.

Lemma str_leb_trans a b c :
  str_leb a b = true -> str_leb b c = true -> str_leb a c = true.
Proof.
  revert b c. induction a as [| x a IH]; intros [| y b] [| z c]; simpl; try done.
  rewrite !orb_true_iff, !andb_true_iff, !Z.ltb_lt, !Z.eqb_eq.
  intros [H1 | [-> H1]] [H2 | [-> H2]]; [left; lia | by left | by left |].
  right. split; [done |]. by apply (IH b).
Qed.

#[global] Instance str_le_total : Total str_le.
Proof. intros a b. apply str_leb_total. Qed.

#[global] Instance str_le_trans : Transitive str_le.
Proof. intros a b c. apply str_leb_trans. Qed.

Lemma sorted_keys_spec (m : gmap str totals) :
  StronglySorted str_le (sorted_keys m)
  /\ NoDup (sorted_keys m)
  /\ forall k, k ∈ sorted_keys m <-> is_Some (m !! k).
Proof.
  unfold sorted_keys.
  pose proof (merge_sort_Permutation str_le (map fst (map_to_list m))) as Hperm.
  split; [apply StronglySorted_merge_sort; apply _ |].
  split.
  - rewrite Hperm. apply NoDup_fst_map_to_list.
  - intros k. rewrite Hperm, list_elem_of_fmap. split.
    + intros ([k' t] & -> & Hin). apply elem_of_map_to_list in Hin. by exists t.
    + intros [t Ht]. exists (k, t). split; [done |]. by apply elem_of_map_to_list.
Qed.

Lemma sorted_keys_nil (m : gmap str totals) : sorted_keys m = [] <-> m = ∅.
Proof.
  destruct (sorted_keys_spec m) as (_ & _ & Hin). split.
  - intros Hnil. apply map_eq. intros k. rewrite lookup_empty.
    destruct (m !! k) as [t |] eqn:Hk; [| done].
    assert (k ∈ sorted_keys m) as H by (apply Hin; by exists t).
    rewrite Hnil in H. by apply elem_of_nil in H.
  - intros ->. destruct (sorted_keys _) as [| k l] eqn:H; [done |].
    destruct (proj1 (Hin k) ltac:(by left)) as [t Ht].
    by rewrite lookup_empty in Ht.
Qed.

(** ** Tables and exports *)

Lemma write_rows_ok name rows :
  write_rows name (map Ok rows) = (map (WriteRow name) rows, Ok tt).
Proof.
  induction rows as [| row rows IH]; [done |]. simpl. by rewrite IH.
Qed.

Section HandlerProofs.
Context `{U : Runtime} `{F : FloatFormat}.

Lemma table_rows_ok m ks :
  map (table_row m) ks = map Ok (map (row_fields m) ks).
Proof.
  induction ks as [| k ks IH]; [done |]. simpl. by rewrite IH, table_row_value.
Qed.

(** The export to CSV files fails as soon as there is a driver: the
    format specification of the rate in the drivers file is not valid, so
    that the first driver row raises [ValueError].  By then the stores
    file is written in full and the drivers file holds its header; no
    confirmation is shown.  Without drivers the export writes both files
    and confirms. *)
Theorem export_csv_outcome (w : window) (base : str) :
  base <> [] ->
  let stores_rows :=
    map (fun k => WriteRow (stores_path w) (row_fields (stores_totals w) k))
      (sorted_keys (stores_totals w)) in
  (drivers_totals w <> ∅ ->
   export_csv w base =
   (OpenFile base (stores_path w) :: WriteRow (stores_path w) stores_header
      :: stores_rows
      ++ [OpenFile base (drivers_path w); WriteRow (drivers_path w) drivers_header],
    Raise ValueError))
  /\ (drivers_totals w = ∅ -> stores_totals w <> ∅ ->
      export_csv w base =
      (OpenFile base (stores_path w) :: WriteRow (stores_path w) stores_header
         :: stores_rows
         ++ [OpenFile base (drivers_path w); WriteRow (drivers_path w) drivers_header;
             ShowInfo "CSV exported"; LogLine "CSV saved"],
       Ok tt)).
Proof.
  intros Hbase. cbv zeta. unfold export_csv.
  rewrite (bool_decide_eq_false_2 (base = [])) by done.
  rewrite table_rows_ok, write_rows_ok, map_map.
  split.
  - intros Hdrivers.
    rewrite (bool_decide_eq_false_2 (drivers_totals w = ∅)) by done.
    rewrite andb_false_r.
    destruct (sorted_keys (drivers_totals w)) as [| k ks] eqn:Hks;
      [by apply sorted_keys_nil in Hks |].
    simpl. rewrite drivers_file_row_raises. reflexivity.
  - intros Hdrivers Hstores.
    rewrite (bool_decide_eq_false_2 (stores_totals w = ∅)) by done.
    rewrite Hdrivers.
    rewrite (proj2 (sorted_keys_nil ∅) eq_refl).
    reflexivity.
Qed.

End HandlerProofs.

(** After the scan of the end-to-end example, which has the driver
    Ivanov, the export raises. *)
Lemma export_csv_outcome_witness :
  snd (export_csv (U := basic) (F := basic_format) delivery_window (text "out"))
  = Raise ValueError.
Proof.
  destruct (export_csv_outcome (U := basic) (F := basic_format) delivery_window (text "out"))
    as [H _]; [done |].
  rewrite H; [reflexivity |].
  intros Hempty. apply (f_equal (fun m => m !! text "Ivanov")) in Hempty.
  vm_compute in Hempty. discriminate.
Defined.

(** ** What the tables print reads back *)

Lemma round_half_even_nonneg x : 0 <= Qnum x -> 0 <= round_half_even x.
Proof.
  intros Hx. unfold round_half_even.
  pose proof (Z.div_pos (Qnum x) (Zpos (Qden x)) Hx ltac:(lia)).
  destruct (_ <? _); [done |]. destruct (_ <? _); [lia |]. destruct (Z.even _); lia.
Qed.

Lemma scaled_nonneg p x : 0 <= scaled p x.
Proof. apply round_half_even_nonneg. simpl. lia. Qed.

Section ReadBack.
Context `{U : Runtime}.

Lemma format_fixed_reads_back p x :
  (1 <= p)%nat -> to_number (VStr (format_fixed p x)) = Ok (round_ndigits p x).
Proof.
  intros Hp. unfold format_fixed, round_ndigits.
  set (k := 10 ^ Z.of_nat p). set (n := scaled p x).
  assert (0 < k) as Hk by (apply Z.pow_pos_nonneg; lia).
  pose proof (scaled_nonneg p x) as Hn. fold n in Hn.
  pose proof (Z.div_pos n k Hn Hk) as Hq.
  pose proof (Z.mod_pos_bound n k Hk) as Hr.
  destruct (repr_int_digits (n / k) Hq) as [Hne Hip].
  pose proof (int_of_digits_repr_int (n / k) Hq) as Hipv.
  pose proof (zero_padded_ascii p (n mod k)) as Hfd.
  pose proof (int_of_digits_zero_padded p (n mod k) 0 Hr) as Hfdv.
  pose proof (length_zero_padded p (n mod k)) as Hlen.
  destruct p as [| p]; [lia |].
  set (ip := repr_int (n / k)) in *. set (fd := zero_padded (S p) (n mod k)) in *.
  assert (unsigned_text (ip ++ 46 :: fd)) as Hunsigned.
  { exists ip, (46 :: fd). split; [done |]. split; [split; [done | by apply ascii_digits] |].
    right. exists fd. split; [done |]. split; [| by apply ascii_digits].
    intros Hnil. rewrite Hnil in Hlen. done. }
  assert (Forall (fun c => c = 46 \/ 48 <= c <= 57) (ip ++ 46 :: fd)) as Hchars.
  { apply Forall_app. split; [eapply Forall_impl; [exact Hip |]; simpl; lia |].
    constructor; [by left |]. eapply Forall_impl; [exact Hfd |]. simpl. lia. }
  assert (forall neg, float_of_body neg (ip ++ 46 :: fd) =
            Ok (if neg then Qopp (Qred (n # Z.to_pos k)) else Qred (n # Z.to_pos k)))
    as Hbody.
  { intros neg. rewrite (float_of_body_fraction neg ip fd (n / k) (0 * k + n mod k)) by done.
    cbv zeta. rewrite Hlen. fold k.
    replace (n / k * k + (0 * k + n mod k)) with n; [done |].
    pose proof (Z.div_mod n k ltac:(lia)). lia. }
  destruct (Qnum x <? 0).
  - rewrite to_number_whole.
    + simpl. by rewrite Hbody.
    + constructor; [by left |]. eapply Forall_impl; [exact Hchars |]. simpl. lia.
    + right. by exists (ip ++ 46 :: fd).
  - simpl app. rewrite to_number_whole.
    + rewrite float_of_str_unsigned by done. by rewrite Hbody.
    + eapply Forall_impl; [exact Hchars |]. simpl. lia.
    + by left.
Qed.

Context `{F : FloatFormat}.

(** A total printed by [_fmt_num] reads back, through [to_number], as the
    total when it is a whole number, and as the total rounded to three
    decimals otherwise. *)
Theorem fmt_num_reads_back (x : Q) :
  exists s,
    _fmt_num x = Ok s
    /\ to_number (VStr s) =
       Ok (if is_integer x then inject_Z (int_of_float x) else round_ndigits 3 x)
    /\ (is_integer x = true -> (inject_Z (int_of_float x) == x)%Q).
Proof.
  eexists. split; [apply fmt_num_value |]. split.
  - destruct (is_integer x).
    + apply to_number_repr_int.
    + apply format_fixed_reads_back. lia.
  - unfold is_integer, int_of_float. intros Hint. apply Z.eqb_eq in Hint.
    destruct x as [num den]. simpl in *. unfold Qeq. simpl.
    apply Z.rem_mod_eq_0 in Hint; [| lia].
    apply Z.quot_exact in Hint; [| lia]. lia.
Qed.

End ReadBack.

(** ** The checks before a scan *)

Section StartScanProofs.
Context `{U : Runtime}.

Lemma strptime_valid s dt :
  strptime s = Ok dt -> valid_date (year dt) (month dt) (day dt) = true.
Proof.
  unfold strptime. destruct (strptime_matches s) as [| [[[d m] y] rest] l]; [done |].
  destruct rest; [| done].
  destruct (int_of_str y) as [Y |]; [| done].
  destruct (int_of_str m) as [M |]; [| done].
  destruct (int_of_str d) as [D |]; [| done].
  unfold make_datetime. destruct (valid_date Y M D) eqn:Hv; [| done].
  by intros [= <-].
Qed.

(** A scan is started only with a path that is not blank, with two
    calendar dates of which the first is not after the second, and with a
    window of at least one row and one column; a rows or columns field of
    0 stands for the default, 320 rows and 25 columns. *)
Theorem start_scan_arguments (path_var from_var to_var : str) (rows_var cols_var : Z)
    path date_from date_to max_rows max_cols :
  start_scan path_var from_var to_var rows_var cols_var
    = Scan path date_from date_to max_rows max_cols ->
  path = strip path_var /\ path <> []
  /\ strptime (strip from_var) = Ok date_from /\ strptime (strip to_var) = Ok date_to
  /\ valid_date (year date_from) (month date_from) (day date_from) = true
  /\ valid_date (year date_to) (month date_to) (day date_to) = true
  /\ datetime_le date_from date_to = true
  /\ 1 <= max_rows /\ 1 <= max_cols
  /\ (rows_var = 0 -> max_rows = MAX_ROWS) /\ (cols_var = 0 -> max_cols = MAX_COLS).
Proof.
  unfold start_scan.
  destruct (bool_decide (strip path_var = [])) eqn:Hpath; [done |].
  apply bool_decide_eq_false in Hpath.
  destruct (strptime (strip from_var)) as [df |] eqn:Hfrom; [| done].
  destruct (strptime (strip to_var)) as [dt |] eqn:Hto; [| done].
  destruct (datetime_le df dt) eqn:Hle; [| done]. simpl.
  intros [= <- <- <- <- <-].
  repeat split; try done; try lia.
  - by apply (strptime_valid (strip from_var)).
  - by apply (strptime_valid (strip to_var)).
  - intros ->. reflexivity.
  - intros ->. reflexivity.
Qed.

End StartScanProofs.

(** A path, the two dates of the year 2024, and empty fields for the
    window. *)
Lemma start_scan_arguments_witness :
  text "book.xlsx" = strip (text " book.xlsx ") /\ text "book.xlsx" <> []
  /\ strptime (U := basic) (strip (text "1.1.2024")) = Ok jan_1
  /\ strptime (U := basic) (strip (text "31.12.2024")) = Ok dec_31
  /\ valid_date (year jan_1) (month jan_1) (day jan_1) = true
  /\ valid_date (year dec_31) (month dec_31) (day dec_31) = true
  /\ datetime_le jan_1 dec_31 = true
  /\ 1 <= MAX_ROWS /\ 1 <= MAX_COLS
  /\ (0 = 0 -> MAX_ROWS = MAX_ROWS) /\ (0 = 0 -> MAX_COLS = MAX_COLS).
Proof.
  apply (start_scan_arguments (U := basic) (text " book.xlsx ") (text "1.1.2024")
           (text "31.12.2024") 0 0).
  vm_compute. reflexivity.
Defined.

(** ** The pairs the detector does not miss *)

Section DetectedPairs.
Context `{U : Runtime}.
Variable ws : Worksheet.
Variables hdr_row sub_row last_col : Z.
Hypothesis merged_valid : forallb valid_range (merged ws) = true.
Hypothesis hdr_row_pos : 1 <= hdr_row.
Hypothesis sub_row_pos : 1 <= sub_row.

Lemma detect_loop_complete fuel c found :
  (Z.to_nat (last_col - c) <= fuel)%nat -> 1 <= c ->
  result (detect_loop fuel ws hdr_row sub_row last_col c []) = Ok found ->
  forall c', c <= c' <= last_col - 1 ->
    is_pair (peek ws sub_row c') (peek ws sub_row (c' + 1)) = true ->
    Exists (fun st => c' - 2 <= pka_col st <= c') found.
Proof.
  revert c found. induction fuel as [| fuel IH]; intros c found Hfuel Hc Hres c' Hc' Hpair.
  - lia.
  - simpl in Hres. destruct (Z.leb_spec c (last_col - 1)) as [Hlast | Hlast]; [| lia].
    rewrite !result_bind_read in Hres by (done || lia).
    fold (is_pair (peek ws sub_row c) (peek ws sub_row (c + 1))) in Hres.
    destruct (is_pair (peek ws sub_row c) (peek ws sub_row (c + 1))) eqn:Hhere.
    + rewrite result_bind_read in Hres by (done || lia).
      rewrite detect_loop_acc in Hres.
      apply result_bind_inv in Hres as (found' & Hres' & Hret).
      injection Hret as <-.
      destruct (Z.le_gt_cases (c + 3) c') as [Hfar | Hnear].
      * apply Exists_cons_tl. apply (IH (c + 3)); (done || lia).
      * apply Exists_cons_hd. simpl. lia.
    + destruct (Z.eq_dec c' c) as [-> | Hne]; [congruence |].
      apply (IH (c + 1)); (done || lia).
Qed.

(** With the header and the subheader row on the sheet, the detector
    misses no pair but those it has skipped: for every column from the
    start column on whose subheader reads "brought" with "returned" to its
    right, a store is recorded at that column or at one of the two columns
    before it (the block that store opens covers the column). *)
Theorem detect_store_columns_complete start_col c :
  1 <= start_col -> start_col <= c <= last_col - 1 ->
  is_pair (peek ws sub_row c) (peek ws sub_row (c + 1)) = true ->
  exists stores,
    result (detect_store_columns ws hdr_row sub_row start_col last_col) = Ok stores
    /\ Exists (fun st => c - 2 <= pka_col st <= c) stores.
Proof.
  intros Hstart Hc Hpair. unfold detect_store_columns.
  destruct (detect_loop_sound ws hdr_row sub_row last_col merged_valid hdr_row_pos
              sub_row_pos (Z.to_nat (last_col - start_col)) start_col Hstart)
    as (stores & Hres & _).
  exists stores. split; [done |].
  by apply (detect_loop_complete (Z.to_nat (last_col - start_col)) start_col).
Qed.

End DetectedPairs.

(** The pair of the end-to-end example, at column 3. *)
Lemma detect_store_columns_complete_witness :
  exists stores,
    result (detect_store_columns (U := basic) delivery_sheet 1 2 3 5) = Ok stores
    /\ Exists (fun st => 3 - 2 <= pka_col st <= 3) stores.
Proof.
  apply (detect_store_columns_complete (U := basic) delivery_sheet 1 2 5 eq_refl);
    try lia. vm_compute. reflexivity.
Defined.

(** ** Where the keys of the totals come from *)

Lemma post_read_cell_peek ws row col :
  post (read_cell ws row col) (fun v => v = peek ws row col).
Proof.
  intros v. unfold read_cell, peek.
  destruct (cell_top_left_of_merge ws row col) as [r0 c0].
  unfold cell_value, result. simpl. destruct (_ || _); [done |]. by intros [= <-].
Qed.

Lemma lookup_add_brought m k x k' :
  is_Some (add_brought m k x !! k') -> k' = k \/ is_Some (m !! k').
Proof.
  unfold add_brought. destruct (decide (k' = k)) as [-> | Hne]; [by left |].
  rewrite lookup_insert_ne by done. by right.
Qed.

Lemma lookup_add_returned m k x k' :
  is_Some (add_returned m k x !! k') -> k' = k \/ is_Some (m !! k').
Proof.
  unfold add_returned. destruct (decide (k' = k)) as [-> | Hne]; [by left |].
  rewrite lookup_insert_ne by done. by right.
Qed.

Section ProvenanceProofs.
Context `{U : Runtime}.
Variable sheets : list Worksheet.

Lemma post_find_table_anchors_anchors ws last_row last_col :
  post (find_table_anchors ws last_row last_col)
    (Forall (fun p : Z * Z => is_anchor ws p.1 p.2 = true)).
Proof.
  unfold find_table_anchors. apply post_for; [constructor |].
  intros r anchors _ Hanchors. apply post_for; [done |].
  intros c anchors' _ Hanchors'.
  eapply post_bind; [apply post_read_cell_peek |]. intros v ->.
  destruct (bool_decide _) eqn:Hv; apply post_ret; [| done].
  apply Forall_app. split; [done |]. constructor; [| constructor]. done.
Qed.

Lemma post_detect_loop_pairs fuel ws hdr_row sub_row last_col start c stores :
  start <= c ->
  Forall (fun st => exists c', start <= c'
            /\ is_pair (peek ws sub_row c') (peek ws sub_row (c' + 1)) = true
            /\ st = store_at (peek ws hdr_row c') c') stores ->
  post (detect_loop fuel ws hdr_row sub_row last_col c stores)
    (Forall (fun st => exists c', start <= c'
               /\ is_pair (peek ws sub_row c') (peek ws sub_row (c' + 1)) = true
               /\ st = store_at (peek ws hdr_row c') c')).
Proof.
  revert c stores. induction fuel as [| fuel IH]; intros c stores Hc Hstores; simpl.
  - by apply post_ret.
  - destruct (c <=? last_col - 1); [| by apply post_ret].
    eapply post_bind; [apply post_read_cell_peek |]. intros pka ->.
    eapply post_bind; [apply post_read_cell_peek |]. intros vat ->.
    fold (is_pair (peek ws sub_row c) (peek ws sub_row (c + 1))).
    destruct (is_pair (peek ws sub_row c) (peek ws sub_row (c + 1))) eqn:Hpair;
      [| apply IH; [lia | done]].
    eapply post_bind; [apply post_read_cell_peek |]. intros name_raw ->.
    apply IH; [lia |]. apply Forall_app. split; [done |].
    constructor; [| constructor]. by exists c.
Qed.

Lemma post_sum_cell_accounted ws has_driver driver r st acc :
  store_of_table sheets (name st) ->
  (has_driver = true -> driver_of_table sheets driver) ->
  accounted sheets acc ->
  post (sum_cell ws has_driver driver r st acc) (accounted sheets).
Proof.
  intros Hst Hdriver [Hs Hd]. unfold sum_cell. destruct acc as [stores_map drivers_map].
  apply (post_bind _ _ (fun _ => True)); [done |]. intros vb _.
  apply (post_bind _ _ (fun _ => True)); [done |]. intros b _.
  apply (post_bind _ _ (fun _ => True)); [done |]. intros vr _.
  apply (post_bind _ _ (fun _ => True)); [done |]. intros rv _.
  assert (forall k, is_Some (add_returned (add_brought stores_map (name st) b) (name st) rv !! k)
                    -> store_of_table sheets k) as Hs'.
  { intros k Hk. apply lookup_add_returned in Hk as [-> | Hk]; [done |].
    apply lookup_add_brought in Hk as [-> | Hk]; [done | by apply Hs]. }
  destruct has_driver; apply post_ret; (split; [done |]); [| done].
  intros k Hk. simpl in Hk. apply lookup_add_returned in Hk as [-> | Hk]; [by apply Hdriver |].
  apply lookup_add_brought in Hk as [-> | Hk]; [by apply Hdriver | by apply Hd].
Qed.

Lemma post_scan_table_accounted ws last_row last_col anchor acc :
  ws ∈ sheets -> is_anchor ws anchor.1 anchor.2 = true -> accounted sheets acc ->
  post (scan_table ws last_row last_col anchor acc) (accounted sheets).
Proof.
  destruct anchor as [r c]. simpl. intros Hws Hanchor Hacc. unfold scan_table.
  eapply post_bind; [apply post_read_cell_peek |]. intros driver_raw ->.
  eapply post_bind.
  { apply (post_detect_loop_pairs _ ws (r - 1) r last_col (c + 2) (c + 2) []);
      [lia | constructor]. }
  intros stores Hstores.
  destruct (bool_decide (stores = [])); [by apply post_ret |].
  apply (post_bind _ _ (fun _ => True)); [done |]. intros data_end _.
  destruct (data_end <? r + 1); [by apply post_ret |].
  unfold sum_rows. apply post_for; [done |]. intros row acc' _ Hacc'.
  apply post_for; [done |]. intros st acc'' Hst Hacc''.
  rewrite Forall_forall in Hstores. destruct (Hstores st Hst) as (c' & Hc' & Hpair & ->).
  apply post_sum_cell_accounted; [| | done].
  - by exists ws, r, c, c'.
  - intros Hdriver. apply negb_true_iff, bool_decide_eq_false in Hdriver.
    by exists ws, r, c.
Qed.

Lemma post_scan_sheet_accounted ws max_rows max_cols acc :
  ws ∈ sheets -> accounted sheets acc ->
  post (scan_sheet ws max_rows max_cols acc) (accounted sheets).
Proof.
  intros Hws Hacc. unfold scan_sheet.
  eapply post_bind; [apply post_find_table_anchors_anchors |]. intros anchors Hanchors.
  apply (post_bind _ _ (fun _ => True)); [done |]. intros _ _.
  apply (post_bind _ _ (fun _ => True)); [done |]. intros _ _.
  apply post_for; [done |]. intros anchor acc' Hin Hacc'.
  rewrite Forall_forall in Hanchors. by apply post_scan_table_accounted; [| apply Hanchors |].
Qed.

End ProvenanceProofs.

Section ProvenanceOfScan.
Context `{U : Runtime}.

(** No total comes from nowhere.  Every key of the stores map a scan
    answers is the name of a store of a table of a selected sheet: the
    display text (or the placeholder) of the cell above a "brought",
    "returned" pair in the row of an anchor, two columns or more to its
    right.  Every key of the drivers map is the display text of a cell
    above an anchor of a selected sheet, and that cell is not blank. *)
Theorem totals_accounted (wb : list Worksheet) (date_from date_to : datetime)
    (max_rows max_cols : Z) st dr meta :
  result (scan_workbook wb date_from date_to max_rows max_cols) = Ok (st, dr, meta) ->
  let sheets := List.filter (fun ws => bool_decide (title ws ∈ selected wb date_from date_to)) wb in
  (forall k, is_Some (st !! k) -> store_of_table sheets k)
  /\ (forall k, is_Some (dr !! k) -> driver_of_table sheets k).
Proof.
  intros Hres sheets.
  assert (post (scan_workbook wb date_from date_to max_rows max_cols)
            (fun r => accounted sheets r.1)) as Hpost.
  { unfold scan_workbook.
    apply (post_bind _ _ (fun _ => True)); [done |]. intros _ _.
    apply (post_bind _ _ (fun st => accounted sheets st.1)).
    - apply post_for.
      { split; intros k [t Hk]; simpl in Hk; by rewrite lookup_empty in Hk. }
      intros k [acc done] Hk Hacc. unfold sheet_step.
      apply (post_bind _ _ (fun ws => ws ∈ sheets)).
      { apply post_lift. intros ws Hws. apply wb_getitem_elem in Hws as [Hin <-].
        apply list_elem_of_In, filter_In. split; [by apply list_elem_of_In |].
        apply bool_decide_eq_true. unfold selected.
        by rewrite <- filter_in_date_range. }
      intros ws Hin.
      apply (post_bind _ _ (accounted sheets)); [by apply post_scan_sheet_accounted |].
      intros acc' Hacc'.
      apply (post_bind _ _ (fun _ => True)); [done |]. intros _ _.
      by apply post_ret.
    - intros [[st' dr'] done] Hacc. by apply post_ret. }
  apply (Hpost _ Hres).
Qed.

End ProvenanceOfScan.

(** The store and the driver of the end-to-end example. *)
Lemma totals_accounted_witness :
  store_of_table (U := basic) [delivery_sheet] (text "Store A")
  /\ driver_of_table (U := basic) [delivery_sheet] (text "Ivanov").
Proof.
  destruct (totals_accounted (U := basic) [delivery_sheet] jan_1 dec_31 MAX_ROWS MAX_COLS
              (stores_totals delivery_window) (drivers_totals delivery_window)
              {| sheets_scanned := 1; meta_from := jan_1; meta_to := dec_31;
                 meta_max_rows := MAX_ROWS; meta_max_cols := MAX_COLS |})
    as [Hs Hd]; [vm_compute; reflexivity |].
  split; [apply Hs | apply Hd]; vm_compute; by eexists.
Defined.

(** ** The workbook of results *)

Section ExcelProofs.
Context `{U : Runtime} `{F : FloatFormat}.

(** The export to a workbook never raises, with or without drivers.  It
    appends the two headers, one row per store and one row per driver in
    the order of the tables, then saves; a failure to save is shown, not
    raised.  Every row holds the two sums as they are, and the rate
    rounded to two decimals, which is the number the same row of the
    table shows: the table's text read by [to_number]. *)
Theorem export_excel_outcome (w : window) (fpath : str) (saved : bool) :
  fpath <> [] ->
  stores_totals w <> ∅ \/ drivers_totals w <> ∅ ->
  export_excel w fpath saved =
    (AppendRow "Stores" (excel_header "Store")
       :: AppendRow "Drivers" (excel_header "Driver")
       :: map (fun k => AppendRow "Stores" (excel_row (stores_totals w) k))
            (sorted_keys (stores_totals w))
       ++ map (fun k => AppendRow "Drivers" (excel_row (drivers_totals w) k))
            (sorted_keys (drivers_totals w))
       ++ (if saved
           then [SaveWorkbook fpath; ShowInfo "Excel exported"; LogLine "Excel saved"]
           else [ShowError "Save failed"; LogLine "ERROR saving Excel"]),
     Ok tt)
  /\ forall (m : gmap str totals) k t, m !! k = Some t ->
       exists b r pct q,
         table_row m k = Ok [k; b; r; pct]
         /\ to_number (VStr pct) = Ok q
         /\ excel_row m k = [VStr k; VFloat (brought t); VFloat (returned t); VFloat q].
Proof.
  intros Hpath Hsome. split.
  - unfold export_excel.
    rewrite (bool_decide_eq_false_2 (fpath = [])) by done.
    assert (bool_decide (stores_totals w = ∅) && bool_decide (drivers_totals w = ∅) = false)
      as ->.
    { apply andb_false_iff.
      destruct Hsome as [H | H]; [left | right]; by apply bool_decide_eq_false_2. }
    unfold ui_bind, ui_emit. simpl.
    destruct saved; simpl; rewrite ?app_nil_r, <- ?app_assoc; reflexivity.
  - intros m k t Hk. rewrite table_row_value. cbv zeta.
    do 3 eexists. exists (round_ndigits 2 (rate (returned t) (brought t))).
    rewrite Hk. simpl default.
    split; [reflexivity |]. split.
    + apply format_fixed_reads_back. lia.
    + unfold excel_row. by rewrite Hk.
Qed.

End ExcelProofs.

(** The example window has the driver Ivanov: the workbook is saved, where
    the export to CSV files raised. *)
Lemma export_excel_outcome_witness :
  snd (export_excel delivery_window (text "out.xlsx") true) = Ok tt.
Proof.
  destruct (export_excel_outcome (U := basic) (F := basic_format)
              delivery_window (text "out.xlsx") true) as [H _]; [done | |].
  - right. intros Hempty. apply (f_equal (fun m => m !! text "Ivanov")) in Hempty.
    vm_compute in Hempty. discriminate.
  - rewrite H. reflexivity.
Defined.

(** ** The tables of the window *)

Lemma get_tree_widget_none tk w : ~ has_tree_child tk w -> _get_tree_widget tk w = None.
Proof.
  intros Hnone. unfold _get_tree_widget.
  destruct (List.find _ _) as [i |] eqn:Hfind; [| done].
  apply find_some in Hfind as [Hin Htree]. apply filter_In in Hin as [_ Hmaster].
  unfold is_treeview in Htree.
  destruct (tk !! i) as [[cls master container] |] eqn:Hi; [| done].
  destruct Hnone. exists i, {| w_class := cls; w_master := master; w_in := container |}.
  split; [done |]. apply bool_decide_eq_true in Hmaster. simpl in *.
  split; [by destruct cls | done].
Qed.

Lemma get_tree_widget_some tk w i :
  _get_tree_widget tk w = Some i -> has_tree_child tk w.
Proof.
  unfold _get_tree_widget. intros Hfind.
  apply find_some in Hfind as [Hin Htree]. apply filter_In in Hin as [_ Hmaster].
  unfold is_treeview in Htree.
  destruct (tk !! i) as [[cls master container] |] eqn:Hi; [| done].
  exists i, {| w_class := cls; w_master := master; w_in := container |}.
  split; [done |]. apply bool_decide_eq_true in Hmaster. simpl in *.
  split; [by destruct cls | done].
Qed.

Lemma create_child tk cls master w :
  has_tree_child (create tk cls master).1 w -> has_tree_child tk w \/ master = w.
Proof.
  intros (i & x & Hi & Hcls & Hm). simpl in Hi.
  apply lookup_app_Some in Hi as [Hi | [_ Hi]]; [left; by exists i, x |].
  right. apply list_lookup_singleton_Some in Hi as [_ <-]. simpl in Hm. congruence.
Qed.

Lemma creates_child tk cs master w :
  has_tree_child (creates tk cs master) w -> has_tree_child tk w \/ master = w.
Proof.
  unfold creates. revert tk. induction cs as [| cls cs IH]; intros tk; simpl; [by left |].
  intros H. apply IH in H as [H | H]; [| by right]. by apply create_child in H.
Qed.

Lemma pack_in_child tk a container w :
  has_tree_child (pack_in tk a container) w -> has_tree_child tk w.
Proof.
  intros (i & x & Hi & Hcls & Hm). unfold pack_in in Hi.
  destruct (decide (i = a)) as [-> | Hne].
  - rewrite list_lookup_alter_eq in Hi.
    destruct (tk !! a) as [y |] eqn:Hy; [| discriminate].
    injection Hi as <-. by exists a, y.
  - rewrite list_lookup_alter_ne in Hi by done. by exists i, x.
Qed.

Lemma make_tree_child tk parent w :
  has_tree_child (_make_tree tk parent).1 w -> has_tree_child tk w \/ parent = w.
Proof.
  unfold _make_tree. cbn [create fst snd]. intros H.
  do 2 apply pack_in_child in H.
  repeat (apply (create_child _ _ parent) in H as [H | H]; [| by right]).
  by left.
Qed.

Lemma length_creates tk cs master :
  length (creates tk cs master) = (length tk + length cs)%nat.
Proof.
  unfold creates. revert tk. induction cs as [| cls cs IH]; intros tk; simpl; [lia |].
  rewrite IH, length_app. simpl. lia.
Qed.

Lemma length_pack_in tk a container : length (pack_in tk a container) = length tk.
Proof. apply length_alter. Qed.

Lemma length_make_tree tk parent :
  length (_make_tree tk parent).1 = (length tk + 3)%nat
  /\ (_make_tree tk parent).2 = (length tk + 2)%nat.
Proof.
  unfold _make_tree. cbn [create fst snd].
  rewrite !length_pack_in, !length_app. simpl. lia.
Qed.

Lemma masters_exist_create tk cls master :
  masters_exist tk -> (master < length tk)%nat -> masters_exist (create tk cls master).1.
Proof.
  unfold masters_exist. intros Htk Hm. simpl. rewrite length_app. simpl.
  apply Forall_app. split.
  - eapply Forall_impl; [exact Htk |]. intros x Hx m Hxm. specialize (Hx m Hxm). lia.
  - constructor; [| constructor]. simpl. intros m [= <-]. lia.
Qed.

Lemma masters_exist_creates tk cs master :
  masters_exist tk -> (master < length tk)%nat -> masters_exist (creates tk cs master).
Proof.
  unfold creates. revert tk. induction cs as [| cls cs IH]; intros tk Htk Hm; simpl; [done |].
  apply IH; [by apply masters_exist_create |]. rewrite length_app. simpl. lia.
Qed.

Lemma masters_exist_pack_in tk a container :
  masters_exist tk -> masters_exist (pack_in tk a container).
Proof.
  unfold masters_exist, pack_in. intros Htk. rewrite length_alter.
  apply Forall_alter; [done |]. intros x _ Hx. exact Hx.
Qed.

Lemma masters_exist_make_tree tk parent :
  masters_exist tk -> (parent < length tk)%nat -> masters_exist (_make_tree tk parent).1.
Proof.
  intros Htk Hp. unfold _make_tree. cbn [create fst snd].
  do 2 apply masters_exist_pack_in.
  repeat (apply masters_exist_create; [| rewrite ?length_app; simpl; lia]).
  done.
Qed.

Lemma masters_exist_fresh tk w :
  masters_exist tk -> (length tk <= w)%nat -> ~ has_tree_child tk w.
Proof.
  intros Htk Hw (i & x & Hi & _ & Hm). unfold masters_exist in Htk.
  rewrite Forall_forall in Htk. apply list_elem_of_lookup_2 in Hi.
  specialize (Htk x Hi w Hm). lia.
Qed.

(** The wrapper [_make_tree] answers has no table among its children, and
    widgets created later in other masters do not change that: the
    lookup of the table in its wrapper fails. *)
Lemma make_tree_wrapper tk parent :
  masters_exist tk -> (parent < length tk)%nat ->
  ~ has_tree_child (_make_tree tk parent).1 (_make_tree tk parent).2.
Proof.
  intros Htk Hp H. destruct (length_make_tree tk parent) as [_ Hw].
  apply make_tree_child in H as [H | H]; [| lia].
  revert H. apply masters_exist_fresh; [done | lia].
Qed.

Section PopulateProofs.
Context `{U : Runtime} `{F : FloatFormat}.

(** The tables of the window are never filled.  In the window [__init__]
    builds, [_make_tree] creates each table in the notebook and only
    packs it into its wrapper frame, so that the wrapper has no table
    among its children: [_get_tree_widget] answers [None] for both
    wrappers and [_populate_results] raises [AttributeError], whatever
    the totals, before a row is deleted or inserted.  Were both tables
    found, each would get one row for every key of its totals, in
    ascending order of the keys, no row failing to be formatted. *)
Theorem populate_results_outcome (tk : list widget) (root : nat) (w : window) :
  masters_exist tk -> (root < length tk)%nat ->
  let g := __init__ tk root in
  _get_tree_widget (widgets g) (tree_stores g) = None
  /\ _get_tree_widget (widgets g) (tree_drivers g) = None
  /\ _populate_results g w = Raise AttributeError
  /\ forall g',
       is_Some (_get_tree_widget (widgets g') (tree_stores g')) ->
       is_Some (_get_tree_widget (widgets g') (tree_drivers g')) ->
       _populate_results g' w =
       Ok (map (row_fields (stores_totals w)) (sorted_keys (stores_totals w)),
           map (row_fields (drivers_totals w)) (sorted_keys (drivers_totals w))).
Proof.
  intros Htk Hroot. cbv zeta.
  assert (forall m ks,
            foldr (fun k rest =>
                     match table_row m k, rest with
                     | Ok row, Ok rows => Ok (row :: rows)
                     | Raise e, _ | _, Raise e => Raise e
                     end) (Ok []) ks
            = Ok (map (row_fields m) ks)) as Hrows.
  { intros m ks. induction ks as [| k ks IH]; [done |].
    simpl. by rewrite IH, table_row_value. }
  unfold __init__. cbn [create fst snd].
  set (tk1 := creates _ _ (length tk)).
  set (tk2 := creates _ _ (length tk1)).
  set (tk3 := creates _ _ (length tk2)).
  set (tk4 := (tk3 ++ [_]) ++ [_]).
  set (logf := length tk3). set (nb := length (tk3 ++ [_])).
  assert (masters_exist tk4 /\ (nb < length tk4)%nat /\ (logf < length tk4)%nat)
    as (Htk4 & Hnb & Hlogf).
  { subst tk4 nb logf. rewrite !length_app. simpl. split; [| lia].
    assert (masters_exist tk3) as Htk3.
    { subst tk3. apply masters_exist_creates; [| rewrite length_app; simpl; lia].
      apply (masters_exist_create _ Frame).
      - subst tk2. apply masters_exist_creates; [| rewrite length_app; simpl; lia].
        apply (masters_exist_create _ Frame).
        + subst tk1. apply masters_exist_creates; [| rewrite length_app; simpl; lia].
          by apply (masters_exist_create _ Frame).
        + subst tk1. repeat first [rewrite length_creates | rewrite length_app]. simpl. lia.
      - subst tk2 tk1. repeat first [rewrite length_creates | rewrite length_app]. simpl. lia. }
    assert (root < length tk3)%nat as Hroot3.
    { subst tk3 tk2 tk1. repeat first [rewrite length_creates | rewrite length_app]. simpl. lia. }
    apply (masters_exist_create _ Notebook); [| rewrite length_app; simpl; lia].
    by apply (masters_exist_create _ Frame). }
  clearbody tk4 nb logf. clear tk1 tk2 tk3.
  destruct (_make_tree tk4 nb) as [tk5 stores] eqn:Hstores.
  destruct (_make_tree tk5 nb) as [tk6 drivers] eqn:Hdrivers.
  pose proof (make_tree_wrapper tk4 nb Htk4 Hnb) as Hno_stores.
  pose proof (length_make_tree tk4 nb) as [Hlen5 Hid_stores].
  pose proof (masters_exist_make_tree tk4 nb Htk4 Hnb) as Htk5.
  rewrite Hstores in Hno_stores, Hlen5, Hid_stores, Htk5. simpl in *.
  assert (nb < length tk5)%nat as Hnb5 by lia.
  pose proof (make_tree_wrapper tk5 nb Htk5 Hnb5) as Hno_drivers.
  pose proof (length_make_tree tk5 nb) as [Hlen6 Hid_drivers].
  rewrite Hdrivers in Hno_drivers, Hlen6, Hid_drivers. simpl in *.
  assert (~ has_tree_child (tk6 ++ [{| w_class := Text; w_master := Some logf;
                                       w_in := None |}]) stores) as Hs.
  { intros H. apply (create_child tk6 Text logf) in H as [H | H]; [| lia].
    replace tk6 with (_make_tree tk5 nb).1 in H by (by rewrite Hdrivers).
    apply make_tree_child in H as [H | H]; [done | lia]. }
  assert (~ has_tree_child (tk6 ++ [{| w_class := Text; w_master := Some logf;
                                       w_in := None |}]) drivers) as Hd.
  { intros H. apply (create_child tk6 Text logf) in H as [H | H]; [done | lia]. }
  apply get_tree_widget_none in Hs, Hd.
  split; [done |]. split; [done |]. split.
  - unfold _populate_results. simpl. by rewrite Hs.
  - intros g' [i Hi] [j Hj]. unfold _populate_results. by rewrite Hi, Hj, !Hrows.
Qed.

End PopulateProofs.

(** The window built in the application that holds the root window
    alone. *)
Lemma populate_results_outcome_witness :
  _populate_results (U := basic) (F := basic_format) (__init__ root_only 0) delivery_window
  = Raise AttributeError.
Proof.
  destruct (populate_results_outcome (U := basic) (F := basic_format)
              root_only 0 delivery_window) as (_ & _ & H & _).
  - repeat constructor. simpl. discriminate.
  - simpl. lia.
  - exact H.
Defined.
